(** * config-parser: the section state machine, the registry and the serializer

    A shallow embedding of [parser.go] (package [parser]) and of the
    [MaxConn] directive parser (package [parsers]) of the HAProxy
    configuration parser, with the properties its specification states.

    Conventions of the embedding:
    - a Go [string] is a [string] (a sequence of bytes);
    - a Go function returning [(value, error)] returns a [res]; a Go
      [error] alone is an [option error], [None] being [nil];
    - a run-time panic (nil dereference, failed type assertion, write to a
      nil map) is the outer [None] of an [option];
    - the registry [map[Section]map[string]*ParserTypes] is a [gmap] of
      [gmap]s of locations, and the [ParserTypes] objects live in a heap
      indexed by those locations, so that the aliasing between the
      registry and the active parser set of a parse session is explicit;
    - the mutex is not modelled: every public method takes it on entry and
      releases it on return, and the embedding is sequential;
    - the file system [Save] and [LoadData] act on is a state passed
      through the calls. *)

From Stdlib Require Import ZArith Ascii String List Lia Bool DecimalString.
From Stdlib Require DecimalPos.
From stdpp Require Import base option strings gmap list sorting.

Local Open Scope Z_scope.

(** ** Package [errors] *)

Module errors.

(** [errors.ParseError]: the error a directive parser returns. *)
Record ParseError := mkParseError {
  Parser : string;
  Line : string;
  Message : string
}.

(** The values of Go's [error] interface that the embedded code produces. *)
Inductive error :=
| SectionMissingErr
| SectionAlreadyExistsErr
| AttributeNotFoundErr
| ParseErr (e : ParseError).

#[global] Instance ParseError_eq_dec : EqDecision ParseError.
Proof. solve_decision. Defined.

#[global] Instance error_eq_dec : EqDecision error.
Proof. solve_decision. Defined.

End errors.

Export errors.

(** A Go result [(value, error)]: the value when the error is [nil]. *)
Inductive res (A : Type) :=
| Ok (a : A)
| Err (e : error).

Arguments Ok {A} a.
Arguments Err {A} e.

Definition is_ok {A} (r : res A) : bool :=
  match r with Ok _ => true | Err _ => false end.

(** ** Go's [strings] and [strconv], as far as the code uses them *)

Module strings.

(** [strings.HasPrefix(s, prefix)]. *)
Definition HasPrefix (s pre : string) : bool := String.prefix pre s.

(** [strings.FieldsFunc(s, f)]: the maximal runs of bytes that do not
    satisfy [f]; empty fields are dropped.  [cur] is the field being
    read, reversed; [None] when no field is open. *)
Fixpoint fields_from (f : ascii -> bool) (s : string) (cur : option (list ascii))
  : list string :=
  match s with
  | EmptyString =>
      match cur with
      | Some w => [string_of_list_ascii (rev w)]
      | None => []
      end
  | String c s' =>
      if f c then
        match cur with
        | Some w => string_of_list_ascii (rev w) :: fields_from f s' None
        | None => fields_from f s' None
        end
      else
        match cur with
        | Some w => fields_from f s' (Some (c :: w))
        | None => fields_from f s' (Some [c])
        end
  end.

Definition FieldsFunc (s : string) (f : ascii -> bool) : list string :=
  fields_from f s None.

End strings.

Module strconv.

Inductive NumErr := ErrSyntax | ErrRange.

(** [*strconv.NumError]. *)
Record NumError := mkNumError {
  Func : string;
  Num : string;
  NErr : NumErr
}.

Definition maxUint64 : Z := 2 ^ 64 - 1.

Definition is_digit (c : ascii) : bool :=
  (48 <=? Z.of_N (N_of_ascii c)) && (Z.of_N (N_of_ascii c) <=? 57).

Definition digit_val (c : ascii) : Z := Z.of_N (N_of_ascii c) - 48.

(** The digit loop of [ParseUint(s, 10, 64)]: a byte that is no decimal
    digit is a syntax error, and an overflow of the 64-bit accumulator a
    range error, whichever the loop meets first. *)
Fixpoint parse_digits (s : string) (n : Z) : NumErr + Z :=
  match s with
  | EmptyString => inr n
  | String c s' =>
      if negb (is_digit c) then inl ErrSyntax
      else if maxUint64 / 10 + 1 <=? n then inl ErrRange
      else
        let n1 := n * 10 + digit_val c in
        if maxUint64 <? n1 then inl ErrRange else parse_digits s' n1
  end.

(** [ParseUint(s, 10, 64)]; on a range error Go returns [maxUint64]
    together with the error. *)
Definition ParseUint (s : string) : NumErr + Z :=
  match s with
  | EmptyString => inl ErrSyntax
  | _ => parse_digits s 0
  end.

(** [ParseInt(s, 10, 64)]. *)
Definition ParseInt (s : string) : NumError + Z :=
  match s with
  | EmptyString => inl (mkNumError "ParseInt" s ErrSyntax)
  | String c s' =>
      let neg := Ascii.eqb c "-"%char in
      let body := if Ascii.eqb c "+"%char || neg then s' else s in
      match ParseUint body with
      | inl ErrSyntax => inl (mkNumError "ParseInt" s ErrSyntax)
      | inl ErrRange => inl (mkNumError "ParseInt" s ErrRange)
      | inr un =>
          let cutoff := 2 ^ 63 in
          if negb neg && (cutoff <=? un) then inl (mkNumError "ParseInt" s ErrRange)
          else if neg && (cutoff <? un) then inl (mkNumError "ParseInt" s ErrRange)
          else inr (if neg then - un else un)
      end
  end.

Definition NumErr_text (e : NumErr) : string :=
  match e with
  | ErrSyntax => "invalid syntax"
  | ErrRange => "value out of range"
  end.

(** The [Error()] method of [NumError].  Go quotes the number with [strconv.Quote];
    here the number is put between double quotes as it is (the escapes
    of [Quote] are not modelled; the properties below read the message
    of a number error only for tokens of letters, digits and a sign,
    where [Quote] adds no escape). *)
Definition NumError_Error (e : NumError) : string :=
  let q := String (ascii_of_nat 34) EmptyString in
  "strconv." ++ Func e ++ ": parsing " ++ q ++ Num e ++ q ++ ": " ++ NumErr_text (NErr e).

End strconv.

(** ** Package [helpers] / [common]: line splitting *)

(** Modelled from the spec: [StringSplitIgnoreEmpty] is not among the
    sources.  The specification describes it as the utility that splits
    a text at separator characters and drops the empty items; it is
    [strings.FieldsFunc] with the separators as the splitting
    predicate. *)
Definition StringSplitIgnoreEmpty (s : string) (separators : list ascii) : list string :=
  strings.FieldsFunc s (fun c => existsb (Ascii.eqb c) separators).

(** [fmt.Sprintf("%d", n)]. *)
Definition fmt_d (n : Z) : string := NilZero.string_of_int (Z.to_int n).

(** The line feed and the horizontal tab. *)
Definition LF : ascii := "010"%char.
Definition TAB : ascii := "009"%char.
Definition SP : ascii := " "%char.
Definition nl : string := String LF EmptyString.

(** ** Package [parsers]: the [maxconn] directive *)

Module MaxConn.

Record MaxConn := mkMaxConn {
  Value : Z;
  valid : bool
}.

#[global] Instance MaxConn_eq_dec : EqDecision MaxConn.
Proof. solve_decision. Defined.

Definition Init (m : MaxConn) : MaxConn := mkMaxConn (Value m) false.

Definition GetParserName (m : MaxConn) : string := "maxconn".

(** [Parse] returns the receiver after the call and the pair
    [(changeState, err)]; the state change is the empty string on every
    path. *)
Definition Parse (m : MaxConn) (line wholeLine previousLine : string)
  : MaxConn * res string :=
  if strings.HasPrefix line "maxconn" then
    let parts := StringSplitIgnoreEmpty line [SP] in
    match parts with
    | _ :: p1 :: _ =>
        match strconv.ParseInt p1 with
        | inl err =>
            (m, Err (ParseErr (mkParseError "SectionName" line (strconv.NumError_Error err))))
        | inr num => (mkMaxConn num true, Ok "")
        end
    | _ => (m, Err (ParseErr (mkParseError "SectionName" line "Parse error")))
    end
  else (m, Err (ParseErr (mkParseError "SectionName" line ""))).

Definition Valid (m : MaxConn) : bool := if valid m then true else false.

Definition String_ (m : MaxConn) : list string := ["  maxconn " +:+ fmt_d (Value m)].

End MaxConn.

(** ** Package [parser] *)

(** [type Section string] and its twelve constants. *)
Abbreviation Section_ := string (only parsing).

Definition Comments : Section_ := "#".
Definition Defaults : Section_ := "defaults".
Definition Global : Section_ := "global".
Definition Resolvers : Section_ := "resolvers".
Definition UserList : Section_ := "userlist".
Definition Peers : Section_ := "peers".
Definition Mailers : Section_ := "mailers".
Definition Frontends : Section_ := "frontend".
Definition Backends : Section_ := "backend".
Definition Listen : Section_ := "listen".
Definition Cache : Section_ := "cache".
Definition Program : Section_ := "program".

Definition CommentsSectionName : string := "data".
Definition GlobalSectionName : string := "data".
Definition DefaultSectionName : string := "data".

(** [common.ReturnResultLine]: one rendered line and its comment. *)
Record ReturnResultLine := mkLine {
  Data : string;
  Comment : string
}.

(** The interface [ParserType], with the methods [parser.go] calls.  A
    directive parser is an object with state: a method that may change
    the receiver returns the receiver after the call.

    [SectionName] stands for the three steps [ProcessLine] takes on the
    parser that announced a section: the type assertion that the parser
    is an [*extra.Section], the call [Get(false)], and the type assertion
    that the data is a [*types.Section], followed by the read of
    [data.Name].  It is [None] when one of the two type assertions fails
    (a run-time panic), [Some name] otherwise. *)
Class ParserType (PT : Type) := {
  GetParserName : PT -> string;
  Parse : PT -> string -> list string -> list string -> string -> PT * res string;
  Result : PT -> bool -> res (list ReturnResultLine);
  SectionName : PT -> option string
}.

(** [ParserTypes]: the parser set of one section, in registration order. *)
Record ParserTypes (PT : Type) := mkParserTypes {
  parsers : list PT
}.

Arguments mkParserTypes {PT} parsers.
Arguments parsers {PT} p.

#[global] Instance ParserTypes_inhabited PT : Inhabited (ParserTypes PT) :=
  populate (mkParserTypes []).

(** The constructors of the parser sets, one per section kind; each call
    of one of them in Go returns a new object. *)
Class Rosters (PT : Type) := {
  getStartParser : ParserTypes PT;
  getDefaultParser : ParserTypes PT;
  getGlobalParser : ParserTypes PT;
  getFrontendParser : ParserTypes PT;
  getBackendParser : ParserTypes PT;
  getListenParser : ParserTypes PT;
  getResolverParser : ParserTypes PT;
  getUserlistParser : ParserTypes PT;
  getPeersParser : ParserTypes PT;
  getMailersParser : ParserTypes PT;
  getCacheParser : ParserTypes PT;
  getProgramParser : ParserTypes PT
}.

(** [common.StringSplitWithCommentIgnoreEmpty(s, separators...)]: the
    tokens of a line and its trailing comment. *)
Class Tokenizer := {
  StringSplitWithCommentIgnoreEmpty : string -> list ascii -> list string * string
}.

(** A pointer to a [ParserTypes] object. *)
Definition loc := nat.

(** [Parser]: the registry, and the heap its pointers refer to. *)
Record Parser (PT : Type) := mkParser {
  Parsers : gmap Section_ (gmap string loc);
  heap : gmap loc (ParserTypes PT)
}.

Arguments mkParser {PT} Parsers heap.
Arguments Parsers {PT} p.
Arguments heap {PT} p.

(** [ConfiguredParsers]: the state of one parse session.  [Active] is a
    copy of a [ParserTypes] structure in Go; the copy shares the parser
    objects with the original, so it is the original's location here. *)
Record ConfiguredParsers := mkConfiguredParsers {
  State : string;
  Active : loc;
  Comments_ : option loc;
  Defaults_ : option loc;
  Global_ : option loc;
  Frontend : option loc;
  Backend : option loc;
  Listen_ : option loc;
  Resolver : option loc;
  Userlist : option loc;
  Peers_ : option loc;
  Mailers_ : option loc;
  Cache_ : option loc;
  Program_ : option loc
}.

Definition set_State (s : string) (c : ConfiguredParsers) : ConfiguredParsers :=
  mkConfiguredParsers s (Active c) (Comments_ c) (Defaults_ c) (Global_ c)
    (Frontend c) (Backend c) (Listen_ c) (Resolver c) (Userlist c) (Peers_ c)
    (Mailers_ c) (Cache_ c) (Program_ c).

Definition set_Active (l : loc) (c : ConfiguredParsers) : ConfiguredParsers :=
  mkConfiguredParsers (State c) l (Comments_ c) (Defaults_ c) (Global_ c)
    (Frontend c) (Backend c) (Listen_ c) (Resolver c) (Userlist c) (Peers_ c)
    (Mailers_ c) (Cache_ c) (Program_ c).

Definition set_Frontend (l : loc) (c : ConfiguredParsers) : ConfiguredParsers :=
  mkConfiguredParsers (State c) (Active c) (Comments_ c) (Defaults_ c) (Global_ c)
    (Some l) (Backend c) (Listen_ c) (Resolver c) (Userlist c) (Peers_ c)
    (Mailers_ c) (Cache_ c) (Program_ c).

Definition set_Backend (l : loc) (c : ConfiguredParsers) : ConfiguredParsers :=
  mkConfiguredParsers (State c) (Active c) (Comments_ c) (Defaults_ c) (Global_ c)
    (Frontend c) (Some l) (Listen_ c) (Resolver c) (Userlist c) (Peers_ c)
    (Mailers_ c) (Cache_ c) (Program_ c).

Definition set_Listen (l : loc) (c : ConfiguredParsers) : ConfiguredParsers :=
  mkConfiguredParsers (State c) (Active c) (Comments_ c) (Defaults_ c) (Global_ c)
    (Frontend c) (Backend c) (Some l) (Resolver c) (Userlist c) (Peers_ c)
    (Mailers_ c) (Cache_ c) (Program_ c).

Definition set_Resolver (l : loc) (c : ConfiguredParsers) : ConfiguredParsers :=
  mkConfiguredParsers (State c) (Active c) (Comments_ c) (Defaults_ c) (Global_ c)
    (Frontend c) (Backend c) (Listen_ c) (Some l) (Userlist c) (Peers_ c)
    (Mailers_ c) (Cache_ c) (Program_ c).

Definition set_Userlist (l : loc) (c : ConfiguredParsers) : ConfiguredParsers :=
  mkConfiguredParsers (State c) (Active c) (Comments_ c) (Defaults_ c) (Global_ c)
    (Frontend c) (Backend c) (Listen_ c) (Resolver c) (Some l) (Peers_ c)
    (Mailers_ c) (Cache_ c) (Program_ c).

Definition set_Peers (l : loc) (c : ConfiguredParsers) : ConfiguredParsers :=
  mkConfiguredParsers (State c) (Active c) (Comments_ c) (Defaults_ c) (Global_ c)
    (Frontend c) (Backend c) (Listen_ c) (Resolver c) (Userlist c) (Some l)
    (Mailers_ c) (Cache_ c) (Program_ c).

Definition set_Mailers (l : loc) (c : ConfiguredParsers) : ConfiguredParsers :=
  mkConfiguredParsers (State c) (Active c) (Comments_ c) (Defaults_ c) (Global_ c)
    (Frontend c) (Backend c) (Listen_ c) (Resolver c) (Userlist c) (Peers_ c)
    (Some l) (Cache_ c) (Program_ c).

Definition set_Cache (l : loc) (c : ConfiguredParsers) : ConfiguredParsers :=
  mkConfiguredParsers (State c) (Active c) (Comments_ c) (Defaults_ c) (Global_ c)
    (Frontend c) (Backend c) (Listen_ c) (Resolver c) (Userlist c) (Peers_ c)
    (Mailers_ c) (Some l) (Program_ c).

Definition set_Program (l : loc) (c : ConfiguredParsers) : ConfiguredParsers :=
  mkConfiguredParsers (State c) (Active c) (Comments_ c) (Defaults_ c) (Global_ c)
    (Frontend c) (Backend c) (Listen_ c) (Resolver c) (Userlist c) (Peers_ c)
    (Mailers_ c) (Cache_ c) (Some l).

Section parser.

Context {PT : Type} `{!ParserType PT} `{!Rosters PT} `{!Tokenizer}.

(** [p.Parsers[sectionType][sectionName]]: reading a map that is missing
    (nil) gives the zero value, here the nil pointer [None]. *)
Definition lookup2 (p : Parser PT) (sectionType : Section_) (sectionName : string)
  : option loc :=
  st ← Parsers p !! sectionType; st !! sectionName.

(** The object a pointer that is not nil refers to. *)
Definition deref (p : Parser PT) (l : loc) : ParserTypes PT := heap p !!! l.

(** [new]: a location that is not in use, and the heap with the object
    stored there. *)
Definition alloc (h : gmap loc (ParserTypes PT)) (o : ParserTypes PT)
  : loc * gmap loc (ParserTypes PT) :=
  let l := fresh (dom h) in (l, <[l := o]> h).

(** Modelled from the spec: the method [HasParser] of [ParserTypes] is not
    among the sources.  The specification has it locate the directive
    parser registered under the name: it holds when a parser of the set
    has that name. *)
Definition ParserTypes_HasParser (s : ParserTypes PT) (attribute : string) : bool :=
  existsb (fun parser => bool_decide (GetParserName parser = attribute)) (parsers s).

(** [SectionsGet].  Go leaves the order of the names unspecified; the
    model lists them in the order of [map_to_list], and no property
    below depends on that order. *)
Definition SectionsGet (p : Parser PT) (sectionType : Section_) : res (list string) :=
  match Parsers p !! sectionType with
  | None => Err SectionMissingErr
  | Some st => Ok (map_to_list st).*1
  end.

(** [SectionsDelete]: the parser after the call, and the error. *)
Definition SectionsDelete (p : Parser PT) (sectionType : Section_) (sectionName : string)
  : Parser PT * option error :=
  match Parsers p !! sectionType with
  | None => (p, Some SectionMissingErr)
  | Some st =>
      (mkParser (<[sectionType := delete sectionName st]> (Parsers p)) (heap p), None)
  end.

(** The loop of [ProcessLine] over the active parsers: each parser is
    asked in turn until one returns no error.  The result is the parsers
    after the calls, and the parser that accepted with the state it
    announced. *)
Fixpoint dispatch (ps : list PT) (line : string) (parts previousParts : list string)
    (comment : string) : list PT * option (PT * string) :=
  match ps with
  | [] => ([], None)
  | parser :: rest =>
      match Parse parser line parts previousParts comment with
      | (parser', Ok newState) => (parser' :: rest, Some (parser', newState))
      | (parser', Err _) =>
          let '(rest', hit) := dispatch rest line parts previousParts comment in
          (parser' :: rest', hit)
      end
  end.

(** A parser rejects a line when its [Parse] returns an error. *)
Definition rejects (line : string) (parts previousParts : list string) (comment : string)
    (q : PT) : Prop :=
  is_ok (Parse q line parts previousParts comment).2 = false.

(** The parser after its [Parse] has run on the line. *)
Definition parsed (line : string) (parts previousParts : list string) (comment : string)
    (q : PT) : PT :=
  (Parse q line parts previousParts comment).1.

(** One of the nine blocks of [ProcessLine] that open a section of a
    multi-instance kind: the name is read from the parser, a new parser
    set is built, registered under the name and made active.  Writing
    into a map that is missing panics. *)
Definition enter (p : Parser PT) (config : ConfiguredParsers) (parser : PT)
    (kind : Section_) (roster : ParserTypes PT)
    (slot : loc -> ConfiguredParsers -> ConfiguredParsers)
  : option (Parser PT * ConfiguredParsers) :=
  name ← SectionName parser;
  st ← Parsers p !! kind;
  let '(l, h) := alloc (heap p) roster in
  Some (mkParser (<[kind := <[name := l]> st]> (Parsers p)) h,
        set_Active l (slot l config)).

(** The body of [if newState != ""] in [ProcessLine].  The blocks test
    [config.State] against distinct constants and leave it as it is, so
    at most one of them runs. *)
Definition changeState (p : Parser PT) (config : ConfiguredParsers) (parser : PT)
    (newState : string) : option (Parser PT * ConfiguredParsers) :=
  let config := set_State newState config in
  if decide (State config = "") then
    l ← Comments_ config; Some (p, set_Active l config)
  else if decide (State config = "defaults") then
    l ← Defaults_ config; Some (p, set_Active l config)
  else if decide (State config = "global") then
    l ← Global_ config; Some (p, set_Active l config)
  else if decide (State config = "frontend") then
    enter p config parser Frontends getFrontendParser set_Frontend
  else if decide (State config = "backend") then
    enter p config parser Backends getBackendParser set_Backend
  else if decide (State config = "listen") then
    enter p config parser Listen getListenParser set_Listen
  else if decide (State config = "resolvers") then
    enter p config parser Resolvers getResolverParser set_Resolver
  else if decide (State config = "userlist") then
    enter p config parser UserList getUserlistParser set_Userlist
  else if decide (State config = "peers") then
    enter p config parser Peers getPeersParser set_Peers
  else if decide (State config = "mailers") then
    enter p config parser Mailers getMailersParser set_Mailers
  else if decide (State config = "cache") then
    enter p config parser Cache getCacheParser set_Cache
  else if decide (State config = "program") then
    enter p config parser Program getProgramParser set_Program
  else Some (p, config).

(** [ProcessLine]: the parser objects of the active set are the ones of
    the heap, so the calls of [Parse] are seen through the registry. *)
Definition ProcessLine (p : Parser PT) (line : string) (parts previousParts : list string)
    (comment : string) (config : ConfiguredParsers)
  : option (Parser PT * ConfiguredParsers) :=
  let '(ps, hit) :=
    dispatch (parsers (deref p (Active config))) line parts previousParts comment in
  let p := mkParser (Parsers p) (<[Active config := mkParserTypes ps]> (heap p)) in
  match hit with
  | Some (parser, newState) =>
      if decide (newState = "") then Some (p, config)
      else changeState p config parser newState
  | None => Some (p, config)
  end.

(** [SectionsCreate]. *)
Definition SectionsCreate (p : Parser PT) (sectionType : Section_) (sectionName : string)
  : option (Parser PT * option error) :=
  match Parsers p !! sectionType with
  | None => Some (p, Some SectionMissingErr)
  | Some st =>
      match st !! sectionName with
      | Some _ => Some (p, Some SectionAlreadyExistsErr)
      | None =>
          active ← lookup2 p Comments CommentsSectionName;
          let parsers :=
            mkConfiguredParsers "" active (Some active)
              (lookup2 p Defaults DefaultSectionName)
              (lookup2 p Global GlobalSectionName)
              None None None None None None None None None in
          let previousLine := [] in
          let parts := [sectionType; sectionName] in
          let comment := "" in
          '(p', _) ← ProcessLine p (sectionType +:+ " " +:+ sectionName)
                        parts previousLine comment parsers;
          Some (p', None)
      end
  end.

(** [HasParser].  The loop takes the first key the iteration over the map
    yields; Go leaves that key unspecified.  [range_first st name]: the
    loop may leave [name] in [sectionName]. *)
Definition range_first (st : gmap string loc) (name : string) : Prop :=
  (st = ∅ ∧ name = "") ∨ is_Some (st !! name).

(** [HasParser] once the loop has chosen [sectionName]. *)
Definition HasParser_at (p : Parser PT) (sectionType : Section_) (attribute : string)
    (sectionName : string) : bool :=
  match Parsers p !! sectionType with
  | None => false
  | Some st =>
      match st !! sectionName with
      | None => false
      | Some l => ParserTypes_HasParser (deref p l) attribute
      end
  end.

(** [HasParser p sectionType attribute b]: the call may return [b]. *)
Definition HasParser (p : Parser PT) (sectionType : Section_) (attribute : string)
    (b : bool) : Prop :=
  match Parsers p !! sectionType with
  | None => b = false
  | Some st =>
      ∃ name, range_first st name ∧ b = HasParser_at p sectionType attribute name
  end.

(** The inner loop of [writeParsers]: the lines of one parser appended
    to the builder [result]. *)
Fixpoint writeLines (lines : list ReturnResultLine) (useIndentation : bool)
    (result : string) : string :=
  match lines with
  | [] => result
  | line :: rest =>
      let result := if useIndentation then result +:+ "  " else result in
      let result := result +:+ Data line in
      let result :=
        if decide (Comment line = "") then result
        else (result +:+ " # ") +:+ Comment line in
      let result := result +:+ nl in
      writeLines rest useIndentation result
  end.

(** The outer loop of [writeParsers], with the flag [sectionNameWritten]
    and the builder as state. *)
Fixpoint writeParsers_loop (ps : list PT) (sectionName : string) (useIndentation : bool)
    (sectionNameWritten : bool) (result : string) : string :=
  match ps with
  | [] => result
  | parser :: rest =>
      match Result parser true with
      | Err _ => writeParsers_loop rest sectionName useIndentation sectionNameWritten result
      | Ok lines =>
          let result :=
            if sectionNameWritten then result
            else ((result +:+ nl) +:+ sectionName) +:+ (" " +:+ nl) in
          writeParsers_loop rest sectionName useIndentation true
            (writeLines lines useIndentation result)
      end
  end.

(** [writeParsers]: the builder after the call. *)
Definition writeParsers (sectionName : string) (ps : list PT) (result : string)
    (useIndentation : bool) : string :=
  writeParsers_loop ps sectionName useIndentation
    (bool_decide (sectionName = "")) result.

(** [getSortedList]: the names of a kind, sorted as [sort.Strings] sorts
    (bytewise lexicographic order); a missing map has no names. *)
Definition getSortedList (data : option (gmap string loc)) : list string :=
  merge_sort String.le (map_to_list (default ∅ data)).*1.

(** The sections of one kind written by [String], in sorted order. *)
Fixpoint writeSections (p : Parser PT) (section : Section_) (names : list string)
    (result : string) : option string :=
  match names with
  | [] => Some result
  | sectionName :: rest =>
      l ← lookup2 p section sectionName;
      writeSections p section rest
        (writeParsers (section +:+ " " +:+ sectionName) (parsers (deref p l)) result true)
  end.

Fixpoint writeKinds (p : Parser PT) (sections : list Section_) (result : string)
  : option string :=
  match sections with
  | [] => Some result
  | section :: rest =>
      result ← writeSections p section (getSortedList (Parsers p !! section)) result;
      writeKinds p rest result
  end.

(** The kinds [String] writes after the singletons, in its order: the
    multi-instance kinds. *)
Definition sections : list Section_ :=
  [UserList; Peers; Mailers; Resolvers; Cache; Frontends; Backends; Listen; Program].

(** [String]: the configuration as text; [None] when a singleton is
    missing from the registry (the nil pointer is dereferenced). *)
Definition Parser_String (p : Parser PT) : option string :=
  let result := "" in
  c ← lookup2 p Comments CommentsSectionName;
  let result := writeParsers "" (parsers (deref p c)) result false in
  d ← lookup2 p Defaults DefaultSectionName;
  let result := writeParsers "defaults" (parsers (deref p d)) result true in
  g ← lookup2 p Global GlobalSectionName;
  let result := writeParsers "global" (parsers (deref p g)) result true in
  writeKinds p sections result.

(** ** The format of the rendered text, as the specification words it *)

(** The strings of a list, one after the other. *)
Definition concatStrings (l : list string) : string := foldr String.append "" l.

(** One output line: the indentation, the data, the comment after [ # ]
    when there is one, and the line feed. *)
Definition render_line (useIndentation : bool) (line : ReturnResultLine) : string :=
  (if useIndentation then "  " else "")
  +:+ Data line
  +:+ (if decide (Comment line = "") then "" else " # " +:+ Comment line)
  +:+ nl.

(** The results of the parsers of a set that report one, in registration
    order. *)
Definition results (ps : list PT) : list (list ReturnResultLine) :=
  omap (fun parser =>
          match Result parser true with Ok lines => Some lines | Err _ => None end) ps.

(** The header of a section: a blank line, then the name followed by one
    space; nothing when the name is empty. *)
Definition render_header (sectionName : string) : string :=
  if decide (sectionName = "") then "" else nl +:+ sectionName +:+ " " +:+ nl.

(** One section: nothing when no parser of the set reports a result,
    else the header and the lines of the results. *)
Definition render_section (sectionName : string) (useIndentation : bool) (ps : list PT)
  : string :=
  match results ps with
  | [] => ""
  | rs =>
      render_header sectionName
      +:+ concatStrings (render_line useIndentation <$> concat rs)
  end.

(** The parsers registered under a kind and a name. *)
Definition registered (p : Parser PT) (kind : Section_) (name : string) : list PT :=
  match lookup2 p kind name with
  | Some l => parsers (deref p l)
  | None => []
  end.

(** The sections of one kind, by sorted name. *)
Definition render_kind (p : Parser PT) (kind : Section_) : string :=
  concatStrings
    ((fun name => render_section (kind +:+ " " +:+ name) true (registered p kind name))
       <$> getSortedList (Parsers p !! kind)).

(** The whole text: the three singletons, then the multi-instance kinds
    in the order of [sections]. *)
Definition render (p : Parser PT) : string :=
  render_section "" false (registered p Comments CommentsSectionName)
  +:+ render_section "defaults" true (registered p Defaults DefaultSectionName)
  +:+ render_section "global" true (registered p Global GlobalSectionName)
  +:+ concatStrings (render_kind p <$> sections).

(** The registry [ParseData] builds before it reads the first line. *)
Definition initParser : Parser PT * ConfiguredParsers :=
  let '(c, h) := alloc ∅ getStartParser in
  let '(d, h) := alloc h getDefaultParser in
  let '(g, h) := alloc h getGlobalParser in
  (mkParser
     (<[Program := ∅]> (<[Cache := ∅]> (<[Mailers := ∅]> (<[Peers := ∅]>
      (<[UserList := ∅]> (<[Resolvers := ∅]> (<[Listen := ∅]> (<[Backends := ∅]>
      (<[Frontends := ∅]> (<[Global := {[GlobalSectionName := g]}]>
      (<[Defaults := {[DefaultSectionName := d]}]>
      (<[Comments := {[CommentsSectionName := c]}]> ∅))))))))))))
     h,
   mkConfiguredParsers "" c (Some c) (Some d) (Some g)
     None None None None None None None None None).

(** The body of the loop of [ParseData] over the lines. *)
Definition ParseData_line (st : Parser PT * ConfiguredParsers * list string)
    (line : string) : option (Parser PT * ConfiguredParsers * list string) :=
  let '(p, parsers, previousLine) := st in
  if decide (line = "") then Some st
  else
    let '(parts, comment) := StringSplitWithCommentIgnoreEmpty line [SP; TAB] in
    let parts :=
      if bool_decide (length parts = 0%nat) && negb (bool_decide (comment = ""))
      then [""] else parts in
    if bool_decide (length parts = 0%nat) then Some st
    else
      '(p, parsers) ← ProcessLine p line parts previousLine comment parsers;
      Some (p, parsers, parts).

Fixpoint ParseData_loop (lines : list string)
    (st : Parser PT * ConfiguredParsers * list string)
  : option (Parser PT * ConfiguredParsers * list string) :=
  match lines with
  | [] => Some st
  | line :: rest => st ← ParseData_line st line; ParseData_loop rest st
  end.

(** [ParseData]: the receiver's registry is replaced, so the result
    depends on the text alone.  The parser after the call and the error
    returned. *)
Definition ParseData (dat : string) : option (Parser PT * option error) :=
  let '(p, parsers) := initParser in
  let lines := StringSplitIgnoreEmpty dat [LF] in
  let previousLine := [] in
  '(p, _, _) ← ParseData_loop lines (p, parsers, previousLine);
  Some (p, None).

(** ** Reading a rendered text again

    The definitions below view one run of [ParseData] from the parser set
    that is active: what it does to the lines it is given. *)

(** A text that is empty or ends a line. *)
Definition closed (t : string) : Prop := t = "" ∨ ∃ t', t = t' +:+ nl.

(** The lines of a text, as [ParseData] splits it. *)
Definition lines_of (t : string) : list string := StringSplitIgnoreEmpty t [LF].

(** The tokens and the comment [ParseData] passes on for a line; a line
    that is a comment alone has the empty token. *)
Definition tokens (line : string) : list string * string :=
  let '(parts, comment) := StringSplitWithCommentIgnoreEmpty line [SP; TAB] in
  (if bool_decide (length parts = 0%nat) && negb (bool_decide (comment = ""))
   then [""] else parts, comment).

(** One line of the loop of [ParseData], for the active parsers [ps] and
    the previous tokens: the parsers and the previous tokens after the
    line, and the parser that accepted it with the state it announced. *)
Definition read_line (st : list PT * list string) (line : string)
  : list PT * list string * option (PT * string) :=
  let '(ps, previousLine) := st in
  if decide (line = "") then (ps, previousLine, None)
  else
    let '(parts, comment) := tokens line in
    if bool_decide (length parts = 0%nat) then (ps, previousLine, None)
    else
      let '(ps', hit) := dispatch ps line parts previousLine comment in
      (ps', parts, hit).

(** Lines read with no change of state: [None] when a line announces
    one. *)
Fixpoint read_quiet (lines : list string) (st : list PT * list string)
  : option (list PT * list string) :=
  match lines with
  | [] => Some st
  | line :: rest =>
      match read_line st line with
      | (ps, previousLine, None) => read_quiet rest (ps, previousLine)
      | (ps, previousLine, Some (_, newState)) =>
          if decide (newState = "") then read_quiet rest (ps, previousLine) else None
      end
  end.

(** The parser set built for a section of a kind: by [ParseData] for the
    singletons, by [ProcessLine] for the other kinds. *)
Definition newParser (kind : Section_) : option (ParserTypes PT) :=
  if decide (kind = Comments) then Some getStartParser
  else if decide (kind = Defaults) then Some getDefaultParser
  else if decide (kind = Global) then Some getGlobalParser
  else if decide (kind = Frontends) then Some getFrontendParser
  else if decide (kind = Backends) then Some getBackendParser
  else if decide (kind = Listen) then Some getListenParser
  else if decide (kind = Resolvers) then Some getResolverParser
  else if decide (kind = UserList) then Some getUserlistParser
  else if decide (kind = Peers) then Some getPeersParser
  else if decide (kind = Mailers) then Some getMailersParser
  else if decide (kind = Cache) then Some getCacheParser
  else if decide (kind = Program) then Some getProgramParser
  else None.

(** The lines [String] writes for a parser set, without the header. *)
Definition render_body (useIndentation : bool) (ps : list PT) : string :=
  concatStrings (render_line useIndentation <$> concat (results ps)).

(** The sections of the comments singleton are written without
    indentation. *)
Definition indented (kind : Section_) : bool := negb (bool_decide (kind = Comments)).

(** Modelled from the spec: the directive parsers, the constructors of the
    parser sets and the tokenizer are not among the sources.  The
    specification takes them as given: a section declaration line
    [<kind-keyword> [<name>]] is recognised inside every section, a parser
    set starts with no value and renders nothing then.  [good kind ps]
    is the invariant of the parser sets of a kind and [clean] the names a
    declaration line can carry; reading a declaration leaves what the
    active set renders as it is. *)
Class RoundTrip := {
  good : Section_ → list PT → Prop;
  clean : string → Prop;
  newParser_good : ∀ kind F,
    newParser kind = Some F → good kind (parsers F) ∧ results (parsers F) = [];
  declaration_multi : ∀ kind0 ps previousLine kind name,
    good kind0 ps → kind ∈ sections → clean name →
    ∃ ps' parts a,
      read_line (ps, previousLine) ((kind +:+ " " +:+ name) +:+ " ")
      = (ps', parts, Some (a, kind))
      ∧ SectionName a = Some name ∧ good kind0 ps' ∧ results ps' = results ps;
  declaration_single : ∀ kind0 ps previousLine kind,
    good kind0 ps → kind = Defaults ∨ kind = Global →
    ∃ ps' parts a,
      read_line (ps, previousLine) (kind +:+ " ") = (ps', parts, Some (a, kind))
      ∧ good kind0 ps' ∧ results ps' = results ps;
  clean_no_LF : ∀ name, clean name → LF ∉ list_ascii_of_string name
}.

Context `{!RoundTrip}.

(** A parser set of a kind is read again: a new parser set of the kind,
    given the lines the set renders, takes them with no change of state
    and then renders the same. *)
Definition rereads (kind : Section_) (ps : list PT) : Prop :=
  ∀ F previousLine, newParser kind = Some F →
    ∃ ps' previousLine',
      read_quiet (lines_of (render_body (indented kind) ps)) (parsers F, previousLine)
      = Some (ps', previousLine')
      ∧ good kind ps' ∧ results ps' = results ps.

(** The parser with the parser set at [l] replaced. *)
Definition store (p : Parser PT) (l : loc) (ps : list PT) : Parser PT :=
  mkParser (Parsers p) (<[l := mkParserTypes ps]> (heap p)).

(** What [String] reads of a section: the results of its parsers. *)
Definition view_of (p : Parser PT) (k : Section_) (n : string)
  : option (list (list ReturnResultLine)) :=
  (fun l => results (parsers (deref p l))) <$> lookup2 p k n.

(** The invariant of the registry and of the parse session between two
    lines: the kinds are there, the pointers of the registry are distinct
    objects of the heap, the active parser set is one of them, and every
    parser set is good for its kind. *)
Record wf (p : Parser PT) (config : ConfiguredParsers) : Prop := mkWf {
  wf_kinds : ∀ kind, kind ∈ sections → is_Some (Parsers p !! kind);
  wf_heap : ∀ k n l, lookup2 p k n = Some l → is_Some (heap p !! l);
  wf_inj : ∀ k n k' n' l,
    lookup2 p k n = Some l → lookup2 p k' n' = Some l → k = k' ∧ n = n';
  wf_active : ∃ k n, lookup2 p k n = Some (Active config);
  wf_good : ∀ k n l, lookup2 p k n = Some l → good k (parsers (deref p l));
  wf_defaults : is_Some (Defaults_ config)
                ∧ Defaults_ config = lookup2 p Defaults DefaultSectionName;
  wf_global : is_Some (Global_ config)
              ∧ Global_ config = lookup2 p Global GlobalSectionName
}.

(** A section registered under a new object. *)
Definition register (p : Parser PT) (kind : Section_) (name : string)
    (st : gmap string loc) (F : ParserTypes PT) : Parser PT :=
  mkParser (<[kind := <[name := fresh (dom (heap p))]> st]> (Parsers p))
    (<[fresh (dom (heap p)) := F]> (heap p)).

(** The kinds and names [String] writes after the singletons, in order. *)
Definition keys_of (src : Parser PT) : list (string * string) :=
  sections ≫= fun kind => pair kind <$> getSortedList (Parsers src !! kind).

(** The lines of one section of a multi-instance kind. *)
Definition section_lines (src : Parser PT) (key : string * string) : list string :=
  lines_of (render_section (key.1 +:+ " " +:+ key.2) true (registered src key.1 key.2)).

End parser.

(** ** The attributes of a section

    [common.ParserData] is the value a directive parser holds.  The
    method [Get] of the interface [ParserType] and the methods [Get],
    [GetOne], [Set], [Delete] and [Insert] of [ParserTypes] are not among
    the sources: [parser.go] calls them on a parser and on the parser set
    of a section and returns what they return, so they are taken as
    given here.  A method that may change its receiver returns the
    receiver after the call. *)
Class ParserAccess (PT : Type) := {
  ParserData : Type;
  ParserType_Get : PT → bool → PT * res ParserData;
  ParserTypes_Get : ParserTypes PT → string → bool → ParserTypes PT * res ParserData;
  ParserTypes_GetOne : ParserTypes PT → string → Z → ParserTypes PT * res ParserData;
  ParserTypes_Set : ParserTypes PT → string → ParserData → Z → ParserTypes PT * option error;
  ParserTypes_Delete : ParserTypes PT → string → Z → ParserTypes PT * option error;
  ParserTypes_Insert :
    ParserTypes PT → string → ParserData → Z → ParserTypes PT * option error
}.

Section attributes.

Context {PT : Type} `{!ParserType PT} `{!ParserAccess PT}.

(** The object at a pointer replaced by the receiver after a call. *)
Definition update (p : Parser PT) (l : loc) (s : ParserTypes PT) : Parser PT :=
  mkParser (Parsers p) (<[l := s]> (heap p)).

(** The loop of [get] and of [getOrCreate] over the parsers of a set: the
    first parser of the name answers. *)
Fixpoint get_loop (ps : list PT) (attribute : string) (createIfNotExist : bool)
  : list PT * res ParserData :=
  match ps with
  | [] => ([], Err AttributeNotFoundErr)
  | parser :: rest =>
      if decide (GetParserName parser = attribute) then
        let '(parser, r) := ParserType_Get parser createIfNotExist in (parser :: rest, r)
      else
        let '(rest, r) := get_loop rest attribute createIfNotExist in (parser :: rest, r)
  end.

(** [get]: [data[key]] is the nil pointer when the key is missing, and
    reading its parsers panics. *)
Definition get (p : Parser PT) (data : gmap string loc) (key attribute : string)
  : option (Parser PT * res ParserData) :=
  l ← data !! key;
  let '(ps, r) := get_loop (parsers (deref p l)) attribute false in
  Some (update p l (mkParserTypes ps), r).

(** [getOrCreate]. *)
Definition getOrCreate (p : Parser PT) (data : gmap string loc) (key attribute : string)
    (createIfNotExist : bool) : option (Parser PT * res ParserData) :=
  l ← data !! key;
  let '(ps, r) := get_loop (parsers (deref p l)) attribute createIfNotExist in
  Some (update p l (mkParserTypes ps), r).

(** [len(createIfNotExist) > 0 && createIfNotExist[0]]. *)
Definition createNew (createIfNotExist : list bool) : bool :=
  match createIfNotExist with
  | b :: _ => b
  | [] => false
  end.

(** [setIndex]: the first index when there is one above [-1], else
    [-1]. *)
Definition setIndex (index : list Z) : Z :=
  match index with
  | i :: _ => if -1 <? i then i else -1
  | [] => -1
  end.

(** [Get]: the parser after the call, and the result. *)
Definition Parser_Get (p : Parser PT) (sectionType : Section_)
    (sectionName attribute : string) (createIfNotExist : list bool)
  : Parser PT * res ParserData :=
  match Parsers p !! sectionType with
  | None => (p, Err SectionMissingErr)
  | Some st =>
      match st !! sectionName with
      | None => (p, Err SectionMissingErr)
      | Some section =>
          let '(s, r) :=
            ParserTypes_Get (deref p section) attribute (createNew createIfNotExist) in
          (update p section s, r)
      end
  end.

(** [GetOne]. *)
Definition Parser_GetOne (p : Parser PT) (sectionType : Section_)
    (sectionName attribute : string) (index : list Z) : Parser PT * res ParserData :=
  match Parsers p !! sectionType with
  | None => (p, Err SectionMissingErr)
  | Some st =>
      match st !! sectionName with
      | None => (p, Err SectionMissingErr)
      | Some section =>
          let '(s, r) := ParserTypes_GetOne (deref p section) attribute (setIndex index) in
          (update p section s, r)
      end
  end.

(** [Set]. *)
Definition Parser_Set (p : Parser PT) (sectionType : Section_)
    (sectionName attribute : string) (data : ParserData) (index : list Z)
  : Parser PT * option error :=
  match Parsers p !! sectionType with
  | None => (p, Some SectionMissingErr)
  | Some st =>
      match st !! sectionName with
      | None => (p, Some SectionMissingErr)
      | Some section =>
          let '(s, r) := ParserTypes_Set (deref p section) attribute data (setIndex index) in
          (update p section s, r)
      end
  end.

(** [Delete]. *)
Definition Parser_Delete (p : Parser PT) (sectionType : Section_)
    (sectionName attribute : string) (index : list Z) : Parser PT * option error :=
  match Parsers p !! sectionType with
  | None => (p, Some SectionMissingErr)
  | Some st =>
      match st !! sectionName with
      | None => (p, Some SectionMissingErr)
      | Some section =>
          let '(s, r) := ParserTypes_Delete (deref p section) attribute (setIndex index) in
          (update p section s, r)
      end
  end.

(** [Insert]. *)
Definition Parser_Insert (p : Parser PT) (sectionType : Section_)
    (sectionName attribute : string) (data : ParserData) (index : list Z)
  : Parser PT * option error :=
  match Parsers p !! sectionType with
  | None => (p, Some SectionMissingErr)
  | Some st =>
      match st !! sectionName with
      | None => (p, Some SectionMissingErr)
      | Some section =>
          let '(s, r) :=
            ParserTypes_Insert (deref p section) attribute data (setIndex index) in
          (update p section s, r)
      end
  end.

End attributes.

(** ** Files

    [ioutil.ReadFile] and [ioutil.WriteFile] act on the file system of
    the machine: [FS] is its state and [ioerror] the errors the two calls
    return.  A write takes the name, the bytes and the permission
    bits. *)
Class FileSystem := {
  FS : Type;
  ioerror : Type;
  ReadFile : FS → string → ioerror + string;
  WriteFile : FS → string → string → Z → FS * option ioerror
}.

Section files.

Context {PT : Type} `{!ParserType PT} `{!Rosters PT} `{!Tokenizer} `{!FileSystem}.

(** [Save]: the file system after the call and the error of the write;
    [None] when [String] panics.  The permission is [0644]. *)
Definition Save (fs : FS) (p : Parser PT) (filename : string)
  : option (FS * option ioerror) :=
  d1 ← Parser_String p;
  Some (WriteFile fs filename d1 420).

(** [LoadData]: the receiver after the call, and the error: the one of
    the read, or the one of [ParseData]. *)
Definition LoadData (fs : FS) (p : Parser PT) (filename : string)
  : option (Parser PT * option (ioerror + error)) :=
  match ReadFile fs filename with
  | inl err => Some (p, Some (inl err))
  | inr dat =>
      match ParseData dat with
      | Some (p, err) => Some (p, inr <$> err)
      | None => None
      end
  end.

End files.

(** The session of [ParseData] between two lines, as far as a change of
    state reads it: the multi-instance kinds are in the registry, and the
    pointers to the defaults and the global singleton are set. *)
Definition session_ok {PT : Type} (p : Parser PT) (config : ConfiguredParsers) : Prop :=
  (∀ kind, kind ∈ sections → is_Some (Parsers p !! kind))
  ∧ is_Some (Defaults_ config) ∧ is_Some (Global_ config).

(** What the digit loop of [ParseUint] returns for the digits of [x]. *)
Definition in_uint64 (x : Z) : strconv.NumErr + Z :=
  if strconv.maxUint64 <? x then inl strconv.ErrRange else inr x.

(** ** A concrete configuration of the package

    The directive parsers other than [MaxConn], the constructors of the
    parser sets and the tokenizer are not among the sources; the general
    results below hold for every instance of [ParserType], [Rosters] and
    [Tokenizer].  The instances of this module are the ones the results
    are evaluated at. *)

Module Demo.

(** Modelled from the spec: [extra.Section] is not among the sources.  A
    section declaration line has the shape [<kind-keyword> [<name>]]; the
    parser of a kind accepts a line whose first token is its keyword,
    keeps the name when there is one, and announces the kind as the new
    state.  [MaxConn] is the parser of the sources; its [Parse] takes the
    line, the whole line and the previous line as strings, and is called
    here with the tokens of the line joined by one space, the raw line,
    and the tokens of the previous line joined by one space. *)
Inductive Directive :=
| DSection (Name : string) (data : option string)
| DMaxConn (m : MaxConn.MaxConn).

#[global] Instance Directive_eq_dec : EqDecision Directive.
Proof. solve_decision. Defined.

Definition Directive_Parse (d : Directive) (line : string) (parts previousParts : list string)
    (comment : string) : Directive * res string :=
  match d with
  | DSection Name data =>
      match parts with
      | kw :: rest =>
          if decide (kw = Name) then
            (DSection Name (match rest with name :: _ => Some name | [] => data end), Ok Name)
          else (d, Err (ParseErr (mkParseError "Section" line "")))
      | [] => (d, Err (ParseErr (mkParseError "Section" line "")))
      end
  | DMaxConn m =>
      let '(m', r) :=
        MaxConn.Parse m (String.concat " " parts) line (String.concat " " previousParts) in
      (DMaxConn m', r)
  end.

(** Modelled from the spec: a directive renders no line when it holds no
    value, else one line per value; a section declaration renders
    nothing, the header being written by [writeParsers]. *)
Definition Directive_Result (d : Directive) (_ : bool) : res (list ReturnResultLine) :=
  match d with
  | DSection _ _ => Err AttributeNotFoundErr
  | DMaxConn m =>
      if MaxConn.Valid m then Ok [mkLine ("maxconn " +:+ fmt_d (MaxConn.Value m)) ""]
      else Err AttributeNotFoundErr
  end.

#[global] Instance Directive_ParserType : ParserType Directive := {|
  GetParserName d :=
    match d with
    | DSection Name _ => Name
    | DMaxConn m => MaxConn.GetParserName m
    end;
  Parse := Directive_Parse;
  Result := Directive_Result;
  SectionName d :=
    match d with
    | DSection _ data => data
    | DMaxConn _ => None
    end
|}.

(** The section declarations every parser set recognises. *)
Definition sectionParsers : list Directive :=
  map (fun kind => DSection kind None)
    [Defaults; Global; Frontends; Backends; Listen; Resolvers; UserList; Peers;
     Mailers; Cache; Program].

(** The [maxconn] parser before any line is read. *)
Definition maxconn0 : MaxConn.MaxConn := MaxConn.Init (MaxConn.mkMaxConn 0 false).

Definition withMaxConn : ParserTypes Directive :=
  mkParserTypes (DMaxConn maxconn0 :: sectionParsers).

Definition plain : ParserTypes Directive := mkParserTypes sectionParsers.

#[global] Instance Directive_Rosters : Rosters Directive := {|
  getStartParser := plain;
  getDefaultParser := withMaxConn;
  getGlobalParser := withMaxConn;
  getFrontendParser := withMaxConn;
  getBackendParser := withMaxConn;
  getListenParser := withMaxConn;
  getResolverParser := plain;
  getUserlistParser := plain;
  getPeersParser := plain;
  getMailersParser := plain;
  getCacheParser := plain;
  getProgramParser := plain
|}.

(** Modelled from the spec: the tokenizer splits a raw line into its
    tokens, separated by runs of the separators, and the trailing
    comment a [#] introduces, without the blanks around it. *)
Fixpoint split_comment (s : string) : string * option string :=
  match s with
  | EmptyString => (EmptyString, None)
  | String c s' =>
      if Ascii.eqb c "#"%char then (EmptyString, Some s')
      else let '(d, k) := split_comment s' in (String c d, k)
  end.

Definition is_blank (c : ascii) : bool := Ascii.eqb c SP || Ascii.eqb c TAB.

Fixpoint trim_left (s : string) : string :=
  match s with
  | String c s' => if is_blank c then trim_left s' else s
  | EmptyString => EmptyString
  end.

Definition trim (s : string) : string :=
  String.rev (trim_left (String.rev (trim_left s))).

#[global] Instance Demo_Tokenizer : Tokenizer := {|
  StringSplitWithCommentIgnoreEmpty s separators :=
    let '(d, k) := split_comment s in
    (StringSplitIgnoreEmpty d separators, trim (default "" k))
|}.

(** The text of [lines], one per line. *)
Definition text (lines : list string) : string :=
  foldr (fun l t => l +:+ nl +:+ t) "" lines.

(** The registry after [ParseData] has read [lines]. *)
Definition loaded (lines : list string) : Parser Directive :=
  from_option fst (mkParser ∅ ∅) (ParseData (text lines)).

(** A parser set with two [maxconn] parsers after a section parser, as the
    one object of a heap. *)
Definition twoMaxConn : Parser Directive :=
  mkParser ∅
    {[ 0%nat := mkParserTypes
                  [DSection "global" None; DMaxConn maxconn0; DMaxConn maxconn0] ]}.

Definition session0 : ConfiguredParsers :=
  mkConfiguredParsers "" 0%nat (Some 0%nat) None None
    None None None None None None None None None.

(** A registry with two backends and a frontend. *)
Definition threeSections : Parser Directive :=
  loaded ["global"; "maxconn 2000"; "frontend fe2"; "maxconn 2"; "backend b1";
          "maxconn 3"; "backend b2"; "frontend fe1"; "maxconn 1"].

(** The kinds of the section parsers of a parser set, in their order. *)
Definition sectionKinds : list string :=
  [Defaults; Global; Frontends; Backends; Listen; Resolvers; UserList; Peers;
   Mailers; Cache; Program].

(** A parser set of the configuration: [maxconn] parsers, then the
    section parsers. *)
Definition good_demo (kind : string) (ps : list Directive) : Prop :=
  ∃ ms secs, ps = (DMaxConn <$> ms) ++ secs ∧ GetParserName <$> secs = sectionKinds.

(** A name is clean when it is one token of a line. *)
Definition clean_demo (name : string) : Prop :=
  name ≠ ""
  ∧ Forall (fun c => c ≠ SP ∧ c ≠ TAB ∧ c ≠ "#"%char ∧ c ≠ LF) (list_ascii_of_string name).

(** The separators of the tokens of a line. *)
Definition is_sep (c : ascii) : bool := existsb (Ascii.eqb c) [SP; TAB].

(** The section parsers among the directives. *)
Definition is_section (q : Directive) : Prop :=
  match q with DSection _ _ => True | DMaxConn _ => False end.

(** The sections of a registry, as a list. *)
Definition registry_keys (p : Parser Directive) : list (string * string) :=
  map_to_list (Parsers p) ≫= fun entry => pair entry.1 <$> (map_to_list entry.2).*1.

(** Modelled from the spec: the value of a [maxconn] directive is its
    number, and a section declaration holds no value.  The parser set of
    a section answers for the first of its parsers of the name, stores a
    value in its parsers of the name, and takes it from them. *)
Definition Directive_Get (d : Directive) (createIfNotExist : bool) : Directive * res Z :=
  match d with
  | DSection _ _ => (d, Err AttributeNotFoundErr)
  | DMaxConn m =>
      if MaxConn.Valid m then (d, Ok (MaxConn.Value m))
      else if createIfNotExist then (DMaxConn (MaxConn.mkMaxConn 0 true), Ok 0)
      else (d, Err AttributeNotFoundErr)
  end.

Definition Directive_read (s : ParserTypes Directive) (attribute : string)
  : ParserTypes Directive * res Z :=
  match filter (fun d => GetParserName d = attribute) (parsers s) with
  | d :: _ => (s, (Directive_Get d false).2)
  | [] => (s, Err AttributeNotFoundErr)
  end.

Definition Directive_write (m : MaxConn.MaxConn) (s : ParserTypes Directive)
    (attribute : string) : ParserTypes Directive * option error :=
  if ParserTypes_HasParser s attribute then
    (mkParserTypes
       ((fun d => match d with
                  | DMaxConn _ => if decide (attribute = "maxconn") then DMaxConn m else d
                  | DSection _ _ => d
                  end) <$> parsers s), None)
  else (s, Some AttributeNotFoundErr).

#[global] Instance Directive_ParserAccess : ParserAccess Directive := {|
  ParserData := Z;
  ParserType_Get := Directive_Get;
  ParserTypes_Get s attribute _ := Directive_read s attribute;
  ParserTypes_GetOne s attribute _ := Directive_read s attribute;
  ParserTypes_Set s attribute data _ :=
    Directive_write (MaxConn.mkMaxConn data true) s attribute;
  ParserTypes_Delete s attribute _ := Directive_write maxconn0 s attribute;
  ParserTypes_Insert s attribute data _ :=
    Directive_write (MaxConn.mkMaxConn data true) s attribute
|}.

(** The files of a directory by name: a read of a name that is not there
    fails, a write does not. *)
#[global] Instance Demo_FileSystem : FileSystem := {|
  FS := gmap string string;
  ioerror := string;
  ReadFile fs filename :=
    match fs !! filename with
    | Some dat => inr dat
    | None => inl "no such file or directory"
    end;
  WriteFile fs filename dat _ := (<[filename := dat]> fs, None)
|}.

(** The directory with no file. *)
Definition noFiles : @FS Demo_FileSystem := (∅ : gmap string string).

(** A registry with one frontend, and the session of [ParseData] inside
    that frontend. *)
Definition oneFrontend : Parser Directive := loaded ["frontend fe1"; "maxconn 5"].

Definition sessionFrontend : ConfiguredParsers :=
  mkConfiguredParsers "frontend" 3%nat (Some 0%nat) (Some 1%nat) (Some 2%nat)
    (Some 3%nat) None None None None None None None None.

(** The registry and the session after the frontend is declared a second
    time. *)
Definition redeclared : Parser Directive * ConfiguredParsers :=
  from_option id (oneFrontend, sessionFrontend)
    (ProcessLine oneFrontend "frontend fe1" ["frontend"; "fe1"] ["maxconn"; "5"] ""
       sessionFrontend).

(** The parsers of the frontend before the [frontend] section parser,
    and after it. *)
Definition beforeFrontend : list Directive :=
  [DMaxConn (MaxConn.mkMaxConn 5 true); DSection "defaults" None; DSection "global" None].

Definition afterFrontend : list Directive :=
  map (fun kind => DSection kind None)
    [Backends; Listen; Resolvers; UserList; Peers; Mailers; Cache; Program].

(** The registry after a frontend is created in the empty
    configuration. *)
Definition created : Parser Directive :=
  from_option fst (loaded []) (SectionsCreate (loaded []) Frontends "fe1").

(** A parser set as [ParseData] leaves it: the parsers of a roster in
    their order, the [maxconn] parser holding a 64-bit integer. *)
Definition loaded_as (F : ParserTypes Directive) (ps : list Directive) : Prop :=
  Forall2 (fun q0 q =>
             match q0, q with
             | DMaxConn _, DMaxConn m => - 2 ^ 63 ≤ MaxConn.Value m < 2 ^ 63
             | DSection Name _, DSection Name' _ => Name' = Name
             | _, _ => False
             end) (parsers F) ps.

End Demo.

(** * Properties *)

Section parser_properties.

Context {PT : Type} `{!ParserType PT} `{!Rosters PT} `{!Tokenizer}.

Implicit Types (p : Parser PT) (config : ConfiguredParsers) (ps : list PT).

(** ** The registry: [SectionsDelete] and [HasParser] *)

Lemma lookup2_Some p k n l :
  lookup2 p k n = Some l ↔ ∃ st, Parsers p !! k = Some st ∧ st !! n = Some l.
Proof.
  unfold lookup2. destruct (Parsers p !! k) as [st|]; simpl.
  - split; [by exists st|]. by intros (st' & [= <-] & Hn).
  - split; [done|]. by intros (st' & [=] & _).
Qed.

Lemma lookup2_delete_other p k n st k' n' :
  Parsers p !! k = Some st → (k', n') ≠ (k, n) →
  lookup2 (mkParser (<[k := delete n st]> (Parsers p)) (heap p)) k' n' = lookup2 p k' n'.
Proof.
  intros Hk Hne. unfold lookup2; simpl.
  destruct (decide (k = k')) as [<-|Hkk].
  - rewrite lookup_insert_eq, Hk; simpl.
    apply lookup_delete_ne. congruence.
  - by rewrite lookup_insert_ne.
Qed.

(** C8. [SectionsDelete] returns [SectionMissingErr] exactly when the kind
    is not in the registry, and then leaves the parser as it is; when the
    kind is known and the name is not, it returns no error and the
    parser is unchanged; when the section exists, it returns no error and
    the entry is gone. *)
Theorem SectionsDelete_spec p sectionType sectionName :
  (snd (SectionsDelete p sectionType sectionName) = Some SectionMissingErr
     ↔ Parsers p !! sectionType = None)
  ∧ (Parsers p !! sectionType = None →
       SectionsDelete p sectionType sectionName = (p, Some SectionMissingErr))
  ∧ (∀ st, Parsers p !! sectionType = Some st → st !! sectionName = None →
       SectionsDelete p sectionType sectionName = (p, None))
  ∧ (∀ st l, Parsers p !! sectionType = Some st → st !! sectionName = Some l →
       snd (SectionsDelete p sectionType sectionName) = None
       ∧ lookup2 (fst (SectionsDelete p sectionType sectionName))
           sectionType sectionName = None
       ∧ Parsers (fst (SectionsDelete p sectionType sectionName)) !! sectionType
         = Some (delete sectionName st)).
Proof.
  unfold SectionsDelete.
  destruct (Parsers p !! sectionType) as [st|] eqn:Hk; simpl.
  - split; [split; congruence|]. split; [congruence|]. split.
    + intros st' [= <-] Hn. destruct p as [reg h]; simpl in *. f_equal.
      f_equal. rewrite delete_id by done. by apply insert_id.
    + intros st' l [= <-] Hn. split; [done|]. unfold lookup2; simpl.
      rewrite lookup_insert_eq; simpl. by rewrite lookup_delete_eq.
  - split; [done|]. split; [done|]. split; intros; congruence.
Qed.

(** C9. [SectionsDelete] leaves every other section as it was: a section
    of another kind, or of the same kind under another name, is
    registered under the same pointer as before, and no parser set of
    the heap changes. *)
Theorem SectionsDelete_frame p sectionType sectionName otherType otherName :
  (otherType, otherName) ≠ (sectionType, sectionName) →
  lookup2 (fst (SectionsDelete p sectionType sectionName)) otherType otherName
    = lookup2 p otherType otherName
  ∧ heap (fst (SectionsDelete p sectionType sectionName)) = heap p.
Proof.
  intros Hne. unfold SectionsDelete.
  destruct (Parsers p !! sectionType) as [st|] eqn:Hk; simpl; [|done].
  split; [|done]. by apply lookup2_delete_other.
Qed.

(** C10. For a kind that has no section, and for a kind that is not in
    the registry, [HasParser] returns [false] whatever the attribute:
    [false] is a result of the call, and the only one. *)
Theorem HasParser_no_instance p sectionType attribute b :
  Parsers p !! sectionType = Some ∅ ∨ Parsers p !! sectionType = None →
  HasParser p sectionType attribute b ↔ b = false.
Proof.
  unfold HasParser, HasParser_at. intros [Hk|Hk]; rewrite Hk; [|done].
  split.
  - intros (name & _ & ->). by rewrite lookup_empty.
  - intros ->. exists "". split; [by left|]. by rewrite lookup_empty.
Qed.

(** ** The line dispatcher: first match wins *)

Lemma dispatch_reject q rest line parts prev comment :
  rejects line parts prev comment q →
  dispatch (q :: rest) line parts prev comment
  = (parsed line parts prev comment q :: (dispatch rest line parts prev comment).1,
     (dispatch rest line parts prev comment).2).
Proof.
  unfold rejects, parsed. simpl.
  destruct (Parse q line parts prev comment) as [q' [st|e]]; simpl; [done|].
  intros _. by destruct (dispatch rest line parts prev comment).
Qed.

Lemma dispatch_first_match pre a post line parts prev comment a' newState :
  Forall (rejects line parts prev comment) pre →
  Parse a line parts prev comment = (a', Ok newState) →
  dispatch (pre ++ a :: post) line parts prev comment
  = ((parsed line parts prev comment <$> pre) ++ a' :: post, Some (a', newState)).
Proof.
  intros Hpre Ha. induction Hpre as [|q pre Hq _ IH]; simpl.
  - by rewrite Ha.
  - change (dispatch (q :: (pre ++ a :: post)) line parts prev comment = 
            (parsed line parts prev comment q
               :: (parsed line parts prev comment <$> pre) ++ a' :: post,
             Some (a', newState))).
    rewrite dispatch_reject by done. by rewrite IH.
Qed.

Lemma dispatch_no_match ps line parts prev comment :
  Forall (rejects line parts prev comment) ps →
  dispatch ps line parts prev comment = (parsed line parts prev comment <$> ps, None).
Proof.
  induction 1 as [|q ps Hq _ IH]; [done|].
  rewrite dispatch_reject by done. by rewrite IH.
Qed.

(** C2. When the parsers before [a] in the active set reject the line and
    [a] accepts it, [ProcessLine] stores the result of [a] and leaves
    every parser registered after [a] as it was, whether it would accept
    the line or not: the parsers before [a] have been asked, in order,
    the ones after it have not.  What follows depends on the state [a]
    announced alone. *)
Theorem ProcessLine_first_match p line parts prev comment config pre a post a' newState :
  parsers (deref p (Active config)) = pre ++ a :: post →
  Forall (rejects line parts prev comment) pre →
  Parse a line parts prev comment = (a', Ok newState) →
  ProcessLine p line parts prev comment config
  = let stored :=
      mkParser (Parsers p)
        (<[Active config :=
             mkParserTypes ((parsed line parts prev comment <$> pre) ++ a' :: post)]>
           (heap p)) in
    if decide (newState = "") then Some (stored, config)
    else changeState stored config a' newState.
Proof.
  intros Hps Hpre Ha. unfold ProcessLine.
  rewrite Hps, (dispatch_first_match _ _ _ _ _ _ _ _ _ Hpre Ha). done.
Qed.

(** ** [ParseData] reports no error *)

Lemma ParseData_loop_app l1 l2 (st : Parser PT * ConfiguredParsers * list string) :
  ParseData_loop (l1 ++ l2) st = ParseData_loop l1 st ≫= ParseData_loop l2.
Proof.
  revert st. induction l1 as [|line l1 IH]; intros st; simpl; [done|].
  destruct (ParseData_line st line) as [st'|]; simpl; [apply IH|done].
Qed.

(** C4, as the code has it.  [ParseData] never returns an error: it
    returns [nil], unless the run panics.  An error of a directive
    parser, with a message or without one, makes the dispatcher try the
    next parser of the active set, and the lines after such a line are
    read like the ones before it. *)
Theorem ParseData_returns_nil dat :
  (ParseData dat = None ∨ ∃ p, ParseData dat = Some (p, None))
  ∧ (∀ q rest line parts prev comment q' e,
       Parse q line parts prev comment = (q', Err e) →
       dispatch (q :: rest) line parts prev comment
       = (q' :: (dispatch rest line parts prev comment).1,
          (dispatch rest line parts prev comment).2))
  ∧ (∀ l1 l2 st, ParseData_loop (l1 ++ l2) st
                 = ParseData_loop l1 st ≫= ParseData_loop l2).
Proof.
  split; [|split].
  - unfold ParseData. destruct initParser as [p0 c0].
    destruct (ParseData_loop _ _) as [[[p c] prev]|]; simpl; eauto.
  - intros q rest line parts prev comment q' e Hq.
    rewrite dispatch_reject by (unfold rejects; by rewrite Hq).
    unfold parsed. by rewrite Hq.
  - apply ParseData_loop_app.
Qed.

(** ** [SectionsCreate] *)

Lemma fresh_heap_ne (h : gmap loc (ParserTypes PT)) l o :
  fresh (dom (<[l := o]> h)) ≠ l.
Proof.
  intros Heq. apply (is_fresh (dom (<[l := o]> h))).
  rewrite Heq at 1. rewrite dom_insert_L. set_solver.
Qed.

Lemma enter_registers p config parser kind roster slot name st :
  SectionName parser = Some name → Parsers p !! kind = Some st →
  ∃ l, enter p config parser kind roster slot
       = Some (mkParser (<[kind := <[name := l]> st]> (Parsers p))
                 (<[l := roster]> (heap p)),
               set_Active l (slot l config))
       ∧ l = fresh (dom (heap p)).
Proof.
  intros Hn Hk. unfold enter, alloc. rewrite Hn, Hk; simpl. eauto.
Qed.

Lemma changeState_multi p config parser kind name st :
  kind ∈ sections → SectionName parser = Some name → Parsers p !! kind = Some st →
  ∃ l roster config',
    changeState p config parser kind
    = Some (mkParser (<[kind := <[name := l]> st]> (Parsers p))
              (<[l := roster]> (heap p)), config')
    ∧ l = fresh (dom (heap p)) ∧ Active config' = l.
Proof.
  intros Hkind Hn Hk. unfold sections in Hkind.
  unfold changeState; simpl State.
  repeat (apply elem_of_cons in Hkind as [->|Hkind]);
    [..|by apply elem_of_nil in Hkind].
  all: repeat (rewrite decide_False by discriminate).
  all: rewrite decide_True by reflexivity.
  all: edestruct (enter_registers p) as (l & -> & Hl); [exact Hn|exact Hk|].
  all: eexists _, _, _; (split; [reflexivity|]); split; done.
Qed.

Lemma sections_nonempty_name kind : kind ∈ sections → kind ≠ "".
Proof.
  unfold sections. intros Hkind ->.
  repeat (apply elem_of_cons in Hkind as [Hkind|Hkind]; [discriminate|]).
  by apply elem_of_nil in Hkind.
Qed.

Lemma SectionsCreate_taken p sectionType sectionName st l :
  Parsers p !! sectionType = Some st → st !! sectionName = Some l →
  SectionsCreate p sectionType sectionName = Some (p, Some SectionAlreadyExistsErr).
Proof. intros Hk Hn. unfold SectionsCreate. by rewrite Hk, Hn. Qed.

Lemma SectionsCreate_fresh p sectionType sectionName st c ps a :
  sectionType ∈ sections →
  Parsers p !! sectionType = Some st →
  st !! sectionName = None →
  lookup2 p Comments CommentsSectionName = Some c →
  dispatch (parsers (deref p c)) (sectionType +:+ " " +:+ sectionName)
    [sectionType; sectionName] [] "" = (ps, Some (a, sectionType)) →
  SectionName a = Some sectionName →
  ∃ l roster,
    SectionsCreate p sectionType sectionName
    = Some (mkParser (<[sectionType := <[sectionName := l]> st]> (Parsers p))
              (<[l := roster]> (<[c := mkParserTypes ps]> (heap p))), None).
Proof.
  intros Hkind Hk Hn Hc Hd Ha.
  pose proof (sections_nonempty_name _ Hkind) as Hne.
  unfold SectionsCreate. rewrite Hk, Hn, Hc; simpl.
  unfold ProcessLine; simpl Active. rewrite Hd.
  rewrite decide_False by done.
  edestruct (changeState_multi
               (mkParser (Parsers p) (<[c := mkParserTypes ps]> (heap p))))
    as (l & roster & config' & -> & _ & _); [done..|]; simpl.
  by eexists _, _.
Qed.

(** C6, as the code has it.  For a multi-instance kind and a name that is
    not taken, when the parsers of the comments singleton take the line
    [<kind> <name>] as the declaration of a section of that kind and name,
    [SectionsCreate] returns no error and registers a section under the
    kind and the name, and a second call with the same kind and name
    fails with [SectionAlreadyExistsErr] and changes nothing. *)
Theorem SectionsCreate_twice p sectionType sectionName st c ps a :
  sectionType ∈ sections →
  Parsers p !! sectionType = Some st →
  st !! sectionName = None →
  lookup2 p Comments CommentsSectionName = Some c →
  dispatch (parsers (deref p c)) (sectionType +:+ " " +:+ sectionName)
    [sectionType; sectionName] [] "" = (ps, Some (a, sectionType)) →
  SectionName a = Some sectionName →
  ∃ p', SectionsCreate p sectionType sectionName = Some (p', None)
        ∧ is_Some (lookup2 p' sectionType sectionName)
        ∧ SectionsCreate p' sectionType sectionName
          = Some (p', Some SectionAlreadyExistsErr).
Proof.
  intros Hkind Hk Hn Hc Hd Ha.
  destruct (SectionsCreate_fresh p _ _ _ _ _ _ Hkind Hk Hn Hc Hd Ha)
    as (l & roster & Hcreate).
  eexists. split; [exact Hcreate|]. split.
  - exists l. unfold lookup2; simpl. rewrite lookup_insert_eq; simpl.
    apply lookup_insert_eq.
  - apply (SectionsCreate_taken _ _ _ (<[sectionName := l]> st) l); simpl.
    + apply lookup_insert_eq.
    + apply lookup_insert_eq.
Qed.

End parser_properties.

(** ** The [maxconn] directive *)

(** C7, as the code has it.  [MaxConn.Parse] accepts a line only if the
    line begins with [maxconn] and its second token is a decimal 64-bit
    integer; it then stores that integer, marks itself valid and
    announces no state change.  A line that begins with [maxconn], whose
    first token is [maxconn] and whose second token is such an integer is
    accepted.  A line that does not begin with [maxconn] gets the error
    without a message, and on every error the parser is left as it
    was. *)
Theorem MaxConn_Parse_spec (m : MaxConn.MaxConn) (line wholeLine previousLine : string) :
  (∀ m' st, MaxConn.Parse m line wholeLine previousLine = (m', Ok st) →
     strings.HasPrefix line "maxconn" = true ∧ st = ""
     ∧ ∃ tok0 tok1 rest,
         StringSplitIgnoreEmpty line [SP] = tok0 :: tok1 :: rest
         ∧ strconv.ParseInt tok1 = inr (MaxConn.Value m')
         ∧ MaxConn.valid m' = true)
  ∧ (∀ tok1 rest num,
       strings.HasPrefix line "maxconn" = true →
       StringSplitIgnoreEmpty line [SP] = "maxconn" :: tok1 :: rest →
       strconv.ParseInt tok1 = inr num →
       MaxConn.Parse m line wholeLine previousLine = (MaxConn.mkMaxConn num true, Ok ""))
  ∧ (strings.HasPrefix line "maxconn" = false →
       MaxConn.Parse m line wholeLine previousLine
       = (m, Err (ParseErr (mkParseError "SectionName" line ""))))
  ∧ (∀ m' e, MaxConn.Parse m line wholeLine previousLine = (m', Err e) →
       m' = m ∧ ∃ msg, e = ParseErr (mkParseError "SectionName" line msg)).
Proof.
  unfold MaxConn.Parse. split; [|split; [|split]].
  - intros m' st.
    destruct (strings.HasPrefix line "maxconn"); [|intros; simplify_eq].
    destruct (StringSplitIgnoreEmpty line [SP]) as [|tok0 [|tok1 rest]] eqn:Hs;
      [intros; simplify_eq..|].
    destruct (strconv.ParseInt tok1) as [err|num] eqn:Hp; [intros; simplify_eq|].
    intros [= <- <-]. split; [done|]. split; [done|].
    exists tok0, tok1, rest. by rewrite Hp.
  - by intros tok1 rest num -> -> ->.
  - by intros ->.
  - intros m' e.
    destruct (strings.HasPrefix line "maxconn"); [|intros; simplify_eq; eauto].
    destruct (StringSplitIgnoreEmpty line [SP]) as [|? [|tok1 rest]];
      [intros; simplify_eq; eauto..|].
    destruct (strconv.ParseInt tok1); intros; simplify_eq; eauto.
Qed.

(** ** The serializer *)

Section serializer_properties.

Context {PT : Type} `{!ParserType PT}.

Implicit Types (p : Parser PT) (ps : list PT) (result : string).

Lemma string_app_String (x : ascii) (a b : string) :
  String x a +:+ b = String x (a +:+ b).
Proof. done. Qed.

Lemma string_app_assoc (a b c : string) : (a +:+ b) +:+ c = a +:+ (b +:+ c).
Proof.
  induction a as [|x a IH]; [done|]. by rewrite !string_app_String, IH.
Qed.

Lemma string_app_nil_r (a : string) : a +:+ "" = a.
Proof.
  induction a as [|x a IH]; [done|]. by rewrite string_app_String, IH.
Qed.

Lemma concatStrings_cons (s : string) (l : list string) :
  concatStrings (s :: l) = s +:+ concatStrings l.
Proof. done. Qed.

Lemma concatStrings_app (l1 l2 : list string) :
  concatStrings (l1 ++ l2) = concatStrings l1 +:+ concatStrings l2.
Proof.
  induction l1 as [|s l1 IH]; [done|].
  rewrite <- app_comm_cons, !concatStrings_cons, IH.
  by rewrite string_app_assoc.
Qed.

Lemma writeLines_spec lines useIndentation result :
  writeLines lines useIndentation result
  = result +:+ concatStrings (render_line useIndentation <$> lines).
Proof.
  revert result. induction lines as [|line lines IH]; intros result.
  - cbn. by rewrite string_app_nil_r.
  - cbn [writeLines]. rewrite IH. cbn [fmap list_fmap concatStrings foldr].
    unfold render_line.
    destruct useIndentation; destruct (decide (Comment line = ""));
      by rewrite ?string_app_assoc.
Qed.

(** The loop of [writeParsers] once the header is written, or when there
    is none to write. *)
Lemma writeParsers_loop_written ps sectionName useIndentation result :
  writeParsers_loop ps sectionName useIndentation true result
  = result +:+ concatStrings (render_line useIndentation <$> concat (results ps)).
Proof.
  revert result. induction ps as [|parser ps IH]; intros result.
  - cbn. by rewrite string_app_nil_r.
  - cbn [writeParsers_loop]. unfold results; cbn [omap list_omap].
    destruct (Result parser true) as [lines|e]; [|apply IH].
    rewrite IH, writeLines_spec. cbn [concat].
    rewrite fmap_app, concatStrings_app. by rewrite string_app_assoc.
Qed.

Lemma writeParsers_spec sectionName ps result useIndentation :
  writeParsers sectionName ps result useIndentation
  = result +:+ render_section sectionName useIndentation ps.
Proof.
  unfold writeParsers, render_section, render_header.
  destruct (decide (sectionName = "")) as [->|Hne].
  - rewrite bool_decide_eq_true_2 by done. rewrite writeParsers_loop_written.
    destruct (results ps); [done|]. done.
  - rewrite bool_decide_eq_false_2 by done.
    revert result. induction ps as [|parser ps IH]; intros result.
    + cbn. by rewrite string_app_nil_r.
    + cbn [writeParsers_loop]. unfold results; cbn [omap list_omap].
      destruct (Result parser true) as [lines|e]; [|apply IH].
      rewrite writeParsers_loop_written, writeLines_spec. cbn [concat].
      rewrite fmap_app, concatStrings_app. by rewrite !string_app_assoc.
Qed.

Lemma getSortedList_elem (data : option (gmap string loc)) name :
  name ∈ getSortedList data ↔ is_Some (default ∅ data !! name).
Proof.
  unfold getSortedList. rewrite merge_sort_Permutation.
  rewrite list_elem_of_fmap. split.
  - intros ([n l] & -> & Hin). apply elem_of_map_to_list in Hin. by exists l.
  - intros [l Hl]. exists (name, l). split; [done|]. by apply elem_of_map_to_list.
Qed.

Lemma getSortedList_sorted (data : option (gmap string loc)) :
  StronglySorted String.le (getSortedList data) ∧ NoDup (getSortedList data).
Proof.
  unfold getSortedList. split.
  - apply StronglySorted_merge_sort; apply _.
  - rewrite merge_sort_Permutation. apply NoDup_fst_map_to_list.
Qed.

Lemma writeSections_spec p section names result :
  (∀ name, name ∈ names → is_Some (lookup2 p section name)) →
  writeSections p section names result
  = Some (result +:+ concatStrings
            ((fun name =>
                render_section (section +:+ " " +:+ name) true (registered p section name))
               <$> names)).
Proof.
  revert result. induction names as [|name names IH]; intros result Hreg.
  - cbn. by rewrite string_app_nil_r.
  - cbn [writeSections]. destruct (Hreg name) as [l Hl]; [by left|].
    rewrite Hl; cbn. rewrite IH by (intros; apply Hreg; by right).
    rewrite writeParsers_spec. unfold registered at 2. rewrite Hl.
    by rewrite string_app_assoc.
Qed.

Lemma writeKinds_spec p kinds result :
  writeKinds p kinds result = Some (result +:+ concatStrings (render_kind p <$> kinds)).
Proof.
  revert result. induction kinds as [|kind kinds IH]; intros result.
  - cbn. by rewrite string_app_nil_r.
  - cbn [writeKinds]. rewrite writeSections_spec.
    + cbn. rewrite IH. by rewrite string_app_assoc.
    + intros name Hin. apply getSortedList_elem in Hin as [l Hl].
      exists l. unfold lookup2. destruct (Parsers p !! kind); simpl in *; [done|].
      by rewrite lookup_empty in Hl.
Qed.

(** C5, as the code has it.  When the three singletons are registered,
    [String] returns the text [render] describes: the lines of the
    comments singleton without a header; the defaults and the global
    singleton, each as a blank line, the header [defaults ] or [global ]
    (the name and one space) and its lines indented by two spaces; then
    the kinds in the order of [sections], the names of a kind in sorted
    order, each section as a blank line, the header [<kind> <name> ] and
    its indented lines.  A parser whose [Result] is an error contributes
    nothing, and a section all of whose parsers do contributes no
    character.  The names of a kind are written once each, in ascending
    bytewise order. *)
Theorem Parser_String_format p c d g :
  lookup2 p Comments CommentsSectionName = Some c →
  lookup2 p Defaults DefaultSectionName = Some d →
  lookup2 p Global GlobalSectionName = Some g →
  Parser_String p = Some (render p)
  ∧ (∀ kind,
       StronglySorted String.le (getSortedList (Parsers p !! kind))
       ∧ NoDup (getSortedList (Parsers p !! kind))
       ∧ ∀ name, name ∈ getSortedList (Parsers p !! kind)
                 ↔ is_Some (lookup2 p kind name))
  ∧ (∀ sectionName useIndentation ps,
       Forall (fun parser => is_ok (Result parser true) = false) ps →
       render_section sectionName useIndentation ps = "").
Proof.
  intros Hc Hd Hg. split; [|split].
  - unfold Parser_String, render, registered. rewrite Hc, Hd, Hg.
    cbn [mbind option_bind].
    rewrite writeKinds_spec, !writeParsers_spec.
    by rewrite !string_app_assoc.
  - intros kind. destruct (getSortedList_sorted (Parsers p !! kind)) as [Hs Hn].
    split; [done|]. split; [done|]. intros name.
    rewrite getSortedList_elem. unfold lookup2.
    destruct (Parsers p !! kind); cbn; [done|].
    rewrite lookup_empty. split; by intros [? ?].
  - intros sectionName useIndentation ps Hps. unfold render_section.
    assert (results ps = []) as ->; [|done].
    unfold results. induction Hps as [|parser ps Hp _ IH]; [done|].
    cbn. destruct (Result parser true); [done|]. apply IH.
Qed.

End serializer_properties.

(** ** The singletons *)

Section singleton_properties.

Context {PT : Type} `{!ParserType PT} `{!Rosters PT} `{!Tokenizer}.

Implicit Types (p : Parser PT) (config : ConfiguredParsers) (ps : list PT).

Lemma enter_Parsers_other p config parser kind roster slot p' config' k :
  enter p config parser kind roster slot = Some (p', config') →
  k ≠ kind → Parsers p' !! k = Parsers p !! k.
Proof.
  unfold enter, alloc. intros Henter Hne.
  destruct (SectionName parser) as [name|]; [|done]; simpl in Henter.
  destruct (Parsers p !! kind) as [st|]; [|done]; simpl in Henter.
  injection Henter as <- <-. simpl. by rewrite lookup_insert_ne.
Qed.

Lemma changeState_Parsers_other p config parser newState p' config' k :
  changeState p config parser newState = Some (p', config') →
  k ∉ sections → Parsers p' !! k = Parsers p !! k.
Proof.
  unfold changeState. intros Hchange Hk.
  assert (∀ kind, kind ∈ sections → k ≠ kind) as Hne by (intros kind ? ->; done).
  repeat case_decide;
    [destruct (Comments_ _); simplify_eq/=; done
    |destruct (Defaults_ _); simplify_eq/=; done
    |destruct (Global_ _); simplify_eq/=; done
    |..|by simplify_eq];
    (eapply enter_Parsers_other; [exact Hchange|]);
    apply Hne; unfold sections; rewrite !elem_of_cons; tauto.
Qed.

Lemma ProcessLine_Parsers_other p line parts prev comment config p' config' k :
  ProcessLine p line parts prev comment config = Some (p', config') →
  k ∉ sections → Parsers p' !! k = Parsers p !! k.
Proof.
  unfold ProcessLine. intros Hproc Hk.
  destruct (dispatch _ _ _ _ _) as [ps [[parser newState]|]]; [|by simplify_eq].
  case_decide; [by simplify_eq|].
  by apply (changeState_Parsers_other _ _ _ _ _ _ _ Hproc).
Qed.

Lemma ParseData_loop_Parsers_other lines p config prev p' config' prev' k :
  ParseData_loop lines (p, config, prev) = Some (p', config', prev') →
  k ∉ sections → Parsers p' !! k = Parsers p !! k.
Proof.
  intros Hloop Hk. revert p config prev Hloop.
  induction lines as [|line lines IH]; intros p config prev Hloop.
  - by simplify_eq/=.
  - cbn [ParseData_loop] in Hloop.
    destruct (ParseData_line (p, config, prev) line) as [[[p1 config1] prev1]|] eqn:Hline;
      cbn [mbind option_bind] in Hloop; [|done].
    rewrite (IH _ _ _ Hloop). unfold ParseData_line in Hline.
    case_decide; [by simplify_eq|].
    destruct (StringSplitWithCommentIgnoreEmpty line [SP; TAB]) as [parts comment].
    destruct (bool_decide _) in Hline; [by simplify_eq|].
    destruct (ProcessLine _ _ _ _ _ _) as [[p2 config2]|] eqn:Hproc; [|done].
    simplify_eq/=. by eapply ProcessLine_Parsers_other.
Qed.

Lemma not_in_sections_Global : Global ∉ sections.
Proof.
  unfold sections. rewrite !not_elem_of_cons.
  repeat (split; [discriminate|]). apply not_elem_of_nil.
Qed.

Lemma Parser_String_no_Global p :
  lookup2 p Global GlobalSectionName = None → Parser_String p = None.
Proof.
  intros Hg. unfold Parser_String.
  destruct (lookup2 p Comments CommentsSectionName); [|done]; cbn [mbind option_bind].
  destruct (lookup2 p Defaults DefaultSectionName); [|done]; cbn [mbind option_bind].
  by rewrite Hg.
Qed.

(** After [ParseData] the global singleton is the one section of its
    kind, under the name [data]. *)
Lemma ParseData_Global dat p e :
  ParseData dat = Some (p, e) →
  ∃ g, Parsers p !! Global = Some {[GlobalSectionName := g]}.
Proof.
  unfold ParseData.
  destruct initParser as [p0 config0] eqn:Hinit.
  destruct (ParseData_loop _ _) as [[[p1 config1] prev1]|] eqn:Hloop; [|done].
  intros [= <- <-].
  rewrite (ParseData_loop_Parsers_other _ _ _ _ _ _ _ _ Hloop not_in_sections_Global).
  unfold initParser, alloc in Hinit. injection Hinit as <- _. simpl.
  eexists. by repeat (rewrite lookup_insert_ne by done); rewrite lookup_insert_eq.
Qed.

(** C3, at the input where the code departs from it.  After [ParseData]
    the global singleton is the one section of its kind.
    [SectionsDelete] on it returns no error and removes it: the kind is
    left with no section, and [String] then dereferences the nil pointer
    the registry gives for it. *)
Theorem SectionsDelete_singleton dat p e :
  ParseData dat = Some (p, e) →
  SectionsGet p Global = Ok [GlobalSectionName]
  ∧ snd (SectionsDelete p Global GlobalSectionName) = None
  ∧ SectionsGet (fst (SectionsDelete p Global GlobalSectionName)) Global = Ok []
  ∧ Parser_String (fst (SectionsDelete p Global GlobalSectionName)) = None.
Proof.
  intros Hparse. destruct (ParseData_Global _ _ _ Hparse) as [g Hg].
  unfold SectionsGet, SectionsDelete. rewrite Hg. simpl.
  rewrite lookup_insert_eq, delete_singleton_eq, map_to_list_empty, map_to_list_singleton.
  repeat split; try done.
  apply Parser_String_no_Global. unfold lookup2; simpl.
  by rewrite lookup_insert_eq.
Qed.

End singleton_properties.

(** ** Further properties of the dispatcher and of [SectionsCreate] *)

Section further_properties.

Context {PT : Type} `{!ParserType PT} `{!Rosters PT} `{!Tokenizer}.

Implicit Types (p : Parser PT) (config : ConfiguredParsers) (ps : list PT).

(** A line that no parser of the active set accepts is dropped: the
    registry and the session stay as they are, and the parsers of the
    active set keep the state their [Parse] left. *)
Theorem ProcessLine_no_match p line parts prev comment config :
  Forall (rejects line parts prev comment) (parsers (deref p (Active config))) →
  ProcessLine p line parts prev comment config
  = Some (mkParser (Parsers p)
            (<[Active config :=
                 mkParserTypes (parsed line parts prev comment
                                  <$> parsers (deref p (Active config)))]> (heap p)),
          config).
Proof.
  intros Hall. unfold ProcessLine. by rewrite (dispatch_no_match _ _ _ _ _ Hall).
Qed.

(** [SectionsCreate] never adds a section to a kind that is not one of
    the nine multi-instance kinds: for a singleton kind the sections of
    the kind are the same after the call, whatever the name. *)
Theorem SectionsCreate_other_kind p sectionType sectionName p' e :
  sectionType ∉ sections →
  SectionsCreate p sectionType sectionName = Some (p', e) →
  Parsers p' !! sectionType = Parsers p !! sectionType.
Proof.
  intros Hkind. unfold SectionsCreate.
  destruct (Parsers p !! sectionType) as [st|] eqn:Hst; [|by intros [= <- _]].
  destruct (st !! sectionName); [by intros [= <- _]|].
  destruct (lookup2 p Comments CommentsSectionName) as [c|]; [|done].
  cbn [mbind option_bind].
  destruct (ProcessLine _ _ _ _ _ _) as [[p1 config1]|] eqn:Hproc; [|done].
  cbn [mbind option_bind]. intros [= <- _].
  by rewrite (ProcessLine_Parsers_other _ _ _ _ _ _ _ _ _ Hproc Hkind).
Qed.

End further_properties.

(** ** Lines of a text *)

Section lines.

Implicit Types (f : ascii → bool) (s t : string) (w : list ascii).

Lemma fields_from_app_sep f s c t cur :
  f c = true →
  strings.fields_from f (s +:+ String c t) cur
  = strings.fields_from f (s +:+ String c "") cur ++ strings.fields_from f t None.
Proof.
  intros Hc. revert cur. induction s as [|x s IH]; intros cur.
  - change ("" +:+ String c t) with (String c t).
    change ("" +:+ String c "") with (String c "").
    cbn. rewrite Hc. by destruct cur.
  - rewrite !string_app_String. cbn. destruct (f x), cur; by rewrite ?IH.
Qed.

Lemma closed_app s t : closed s → closed t → closed (s +:+ t).
Proof.
  intros Hs [->|[t' ->]].
  - by rewrite string_app_nil_r.
  - right. exists (s +:+ t'). by rewrite string_app_assoc.
Qed.

Lemma closed_concatStrings (l : list string) :
  Forall closed l → closed (concatStrings l).
Proof.
  induction 1 as [|s l Hs _ IH]; [by left|].
  rewrite concatStrings_cons. by apply closed_app.
Qed.

Lemma LF_is_sep : existsb (Ascii.eqb LF) [LF] = true.
Proof. done. Qed.

Lemma lines_of_app s t :
  closed s → lines_of (s +:+ t) = lines_of s ++ lines_of t.
Proof.
  intros [->|[s' ->]]; [done|].
  unfold lines_of, StringSplitIgnoreEmpty, strings.FieldsFunc, nl.
  rewrite string_app_assoc. change (String LF "" +:+ t) with (String LF t).
  by apply fields_from_app_sep.
Qed.

Lemma lines_of_concatStrings (l : list string) :
  Forall closed l → lines_of (concatStrings l) = concat (lines_of <$> l).
Proof.
  induction 1 as [|s l Hs Hl IH]; [done|].
  rewrite concatStrings_cons, lines_of_app by done. by rewrite IH.
Qed.

Lemma fields_from_no_sep f s t w :
  Forall (fun c => f c = false) (list_ascii_of_string s) →
  strings.fields_from f (s +:+ t) (Some w)
  = strings.fields_from f t (Some (rev (list_ascii_of_string s) ++ w)).
Proof.
  revert w. induction s as [|x s IH]; intros w Hs; [done|].
  rewrite string_app_String. cbn in Hs. apply Forall_cons in Hs as [Hx Hs].
  cbn. rewrite Hx, IH by done. by rewrite <- app_assoc.
Qed.

Lemma fields_from_line f c x s :
  f c = true → f x = false →
  Forall (fun y => f y = false) (list_ascii_of_string s) →
  strings.fields_from f (String c (String x (s +:+ String c ""))) None = [String x s].
Proof.
  intros Hc Hx Hs. cbn [strings.fields_from]. rewrite Hc, Hx.
  rewrite fields_from_no_sep by done. cbn [strings.fields_from]. rewrite Hc.
  rewrite rev_app_distr, rev_involutive. cbn.
  by rewrite string_of_list_ascii_of_string.
Qed.

(** The line of a header: one line, the text before the line feed. *)
Lemma lines_of_line s :
  s ≠ "" → LF ∉ list_ascii_of_string s → lines_of (nl +:+ s +:+ nl) = [s].
Proof.
  intros Hne HLF. destruct s as [|x s]; [done|].
  unfold lines_of, StringSplitIgnoreEmpty, strings.FieldsFunc, nl.
  change (String LF "" +:+ String x s +:+ String LF "")
    with (String LF (String x (s +:+ String LF ""))).
  assert (Forall (fun c => existsb (Ascii.eqb c) [LF] = false)
            (list_ascii_of_string (String x s))) as Hall.
  { apply Forall_forall. intros c Hc. cbn.
    destruct (Ascii.eqb_spec c LF) as [->|]; [|done]. by destruct HLF. }
  change (list_ascii_of_string (String x s)) with (x :: list_ascii_of_string s) in Hall.
  apply Forall_cons in Hall as [Hx Hs].
  by apply (fields_from_line (fun c => existsb (Ascii.eqb c) [LF])).
Qed.

Lemma list_ascii_of_string_app s t :
  list_ascii_of_string (s +:+ t) = list_ascii_of_string s ++ list_ascii_of_string t.
Proof.
  induction s as [|x s IH]; [done|]. rewrite string_app_String. cbn. by rewrite IH.
Qed.

End lines.

(** ** One run of [ParseData], seen from the active parser set *)

Section reading.

Context {PT : Type} `{!ParserType PT} `{!Rosters PT} `{!Tokenizer}.

Implicit Types (p : Parser PT) (config : ConfiguredParsers) (ps : list PT).

Lemma store_same p l ps :
  heap p !! l = Some (mkParserTypes ps) → store p l ps = p.
Proof.
  intros Hl. destruct p as [reg h]. unfold store; simpl in *.
  by rewrite insert_id.
Qed.

Lemma store_store p l ps ps' : store (store p l ps) l ps' = store p l ps'.
Proof. unfold store; simpl. by rewrite insert_insert_eq. Qed.

Lemma deref_store p l ps : parsers (deref (store p l ps) l) = ps.
Proof. unfold deref, store; simpl. by rewrite lookup_total_insert_eq. Qed.

Lemma deref_lookup p l ps :
  heap p !! l = Some (mkParserTypes ps) → parsers (deref p l) = ps.
Proof. intros Hl. unfold deref. by rewrite (lookup_total_correct _ _ _ Hl). Qed.

(** [ParseData_line] is [read_line] on the active parser set, followed
    by the change of state when one is announced. *)
Lemma ParseData_line_read p config prev line ps :
  heap p !! Active config = Some (mkParserTypes ps) →
  ParseData_line (p, config, prev) line
  = match read_line (ps, prev) line with
    | (ps', prev', hit) =>
        match hit with
        | Some (a, newState) =>
            if decide (newState = "") then Some (store p (Active config) ps', config, prev')
            else
              '(p2, config2) ← changeState (store p (Active config) ps') config a newState;
              Some (p2, config2, prev')
        | None => Some (store p (Active config) ps', config, prev')
        end
    end.
Proof.
  intros Hl. unfold ParseData_line, read_line, tokens.
  case_decide; [by rewrite store_same|].
  destruct (StringSplitWithCommentIgnoreEmpty line [SP; TAB]) as [parts comment].
  set (parts' := if bool_decide (length parts = 0%nat) && negb (bool_decide (comment = ""))
                 then [""] else parts).
  destruct (bool_decide (length parts' = 0%nat)); [by rewrite store_same|].
  unfold ProcessLine. rewrite (deref_lookup _ _ _ Hl).
  destruct (dispatch ps line parts' prev comment) as [ps' [[a newState]|]]; [|done].
  fold (store p (Active config) ps').
  case_decide; [done|]. done.
Qed.

(** Lines read with no change of state change the active parser set
    alone. *)
Lemma ParseData_loop_quiet lines p config prev ps ps' prev' :
  heap p !! Active config = Some (mkParserTypes ps) →
  read_quiet lines (ps, prev) = Some (ps', prev') →
  ParseData_loop lines (p, config, prev) = Some (store p (Active config) ps', config, prev').
Proof.
  revert p prev ps. induction lines as [|line lines IH]; intros p prev ps Hl Hq.
  - injection Hq as <- <-. by rewrite store_same.
  - cbn [ParseData_loop read_quiet] in *. rewrite (ParseData_line_read _ _ _ _ _ Hl).
    destruct (read_line (ps, prev) line) as [[ps1 prev1] [[a newState]|]].
    + case_decide; [|done]. cbn [mbind option_bind].
      rewrite (IH _ _ ps1); [by rewrite store_store| |done].
      unfold store; simpl. apply lookup_insert_eq.
    + cbn [mbind option_bind].
      rewrite (IH _ _ ps1); [by rewrite store_store| |done].
      unfold store; simpl. apply lookup_insert_eq.
Qed.

End reading.

(** ** The registry while a rendered text is read *)

Section registry_invariant.

Context {PT : Type} `{!ParserType PT} `{!Rosters PT} `{!Tokenizer} `{!RoundTrip}.

Implicit Types (p : Parser PT) (config : ConfiguredParsers) (ps : list PT).

Lemma lookup2_store p l ps k n : lookup2 (store p l ps) k n = lookup2 p k n.
Proof. done. Qed.

Lemma deref_store_ne p l ps l' : l' ≠ l → deref (store p l ps) l' = deref p l'.
Proof. intros Hne. unfold deref, store; simpl. by rewrite lookup_total_insert_ne. Qed.

(** Storing a good parser set in place of the active one keeps the
    invariant. *)
Lemma wf_store p config k n ps :
  wf p config → lookup2 p k n = Some (Active config) → good k ps →
  wf (store p (Active config) ps) config.
Proof.
  intros [Hk Hh Hi Ha Hg Hd Hgl] Hl Hps. split; try done.
  - intros k' n' l Hl'. rewrite lookup2_store in Hl'. unfold store; simpl.
    destruct (decide (l = Active config)) as [->|Hne].
    + rewrite lookup_insert_eq. eauto.
    + rewrite lookup_insert_ne by done. eauto.
  - intros k' n' l Hl'. rewrite lookup2_store in Hl'.
    destruct (decide (l = Active config)) as [->|Hne].
    + rewrite deref_store. by destruct (Hi _ _ _ _ _ Hl Hl') as [-> ->].
    + rewrite deref_store_ne by done. eauto.
Qed.

Lemma view_of_store p config k n ps k' n' :
  wf p config → lookup2 p k n = Some (Active config) →
  view_of (store p (Active config) ps) k' n'
  = if decide (k' = k ∧ n' = n) then Some (results ps) else view_of p k' n'.
Proof.
  intros Hwf Hl. unfold view_of. rewrite lookup2_store.
  case_decide as Hkn.
  - destruct Hkn as [-> ->]. rewrite Hl; simpl. by rewrite deref_store.
  - destruct (lookup2 p k' n') as [l|] eqn:Hl'; [|done]; simpl.
    rewrite deref_store_ne; [done|]. intros ->.
    destruct (wf_inj _ _ Hwf _ _ _ _ _ Hl Hl') as [-> ->]. by destruct Hkn.
Qed.

Lemma lookup2_register p kind name st F k n :
  Parsers p !! kind = Some st →
  lookup2 (register p kind name st F) k n
  = if decide (k = kind ∧ n = name) then Some (fresh (dom (heap p))) else lookup2 p k n.
Proof.
  intros Hst. unfold lookup2, register; simpl.
  destruct (decide (k = kind)) as [->|Hk].
  - rewrite lookup_insert_eq, Hst; simpl.
    destruct (decide (n = name)) as [->|Hn].
    + rewrite lookup_insert_eq. by rewrite decide_True.
    + rewrite lookup_insert_ne by done. rewrite decide_False; [done|]. by intros [_ ?].
  - rewrite lookup_insert_ne by done. rewrite decide_False; [done|]. by intros [? _].
Qed.

Lemma fresh_not_registered p l : is_Some (heap p !! l) → l ≠ fresh (dom (heap p)).
Proof.
  intros Hl ->. apply (is_fresh (dom (heap p))). by apply elem_of_dom.
Qed.

Lemma deref_register_old p kind name st F l :
  is_Some (heap p !! l) → deref (register p kind name st F) l = deref p l.
Proof.
  intros Hl. unfold deref, register; simpl.
  rewrite lookup_total_insert_ne; [done|]. intros Heq. by apply (fresh_not_registered p l).
Qed.

Lemma deref_register_new p kind name st F :
  deref (register p kind name st F) (fresh (dom (heap p))) = F.
Proof. unfold deref, register; simpl. by rewrite lookup_total_insert_eq. Qed.

Lemma sections_not_singleton kind :
  kind ∈ sections → kind ≠ Comments ∧ kind ≠ Defaults ∧ kind ≠ Global.
Proof.
  unfold sections. rewrite !elem_of_cons, elem_of_nil.
  intros Hkind. repeat split; intros ->; repeat destruct Hkind as [Hkind|Hkind]; done.
Qed.

(** Registering a new parser set and making it active keeps the
    invariant. *)
Lemma wf_register p config config2 kind name st F :
  wf p config → Parsers p !! kind = Some st → kind ∈ sections →
  newParser kind = Some F →
  Active config2 = fresh (dom (heap p)) →
  Defaults_ config2 = Defaults_ config → Global_ config2 = Global_ config →
  wf (register p kind name st F) config2.
Proof.
  intros [Hk Hh Hi Ha Hg Hd Hgl] Hst Hkind HF Hact Hdef Hglo.
  destruct (sections_not_singleton _ Hkind) as (_ & HnD & HnG).
  split.
  - intros kind' Hkind'. unfold register; simpl.
    destruct (decide (kind' = kind)) as [->|Hne].
    + rewrite lookup_insert_eq. eauto.
    + rewrite lookup_insert_ne by done. eauto.
  - intros k n l. rewrite lookup2_register by done. unfold register; simpl.
    case_decide.
    + intros [= <-]. rewrite lookup_insert_eq. eauto.
    + intros Hl. rewrite lookup_insert_ne; [eauto|].
      intros <-. by eapply fresh_not_registered; eauto.
  - intros k n k' n' l. rewrite !lookup2_register by done.
    destruct (decide (k = kind ∧ n = name)) as [[-> ->]|Hkn];
      destruct (decide (k' = kind ∧ n' = name)) as [[-> ->]|Hkn'];
      intros Hl Hl'; simplify_eq.
    + done.
    + exfalso. by eapply fresh_not_registered; eauto.
    + exfalso. by eapply fresh_not_registered; eauto.
    + eauto.
  - exists kind, name. rewrite lookup2_register by done. rewrite decide_True by done.
    by rewrite Hact.
  - intros k n l. rewrite lookup2_register by done. case_decide as Hkn.
    + intros [= <-]. destruct Hkn as [-> ->]. rewrite deref_register_new.
      by apply newParser_good.
    + intros Hl. rewrite deref_register_old by eauto. eauto.
  - rewrite Hdef. rewrite lookup2_register by done.
    rewrite decide_False; [done|]. by intros [? _].
  - rewrite Hglo. rewrite lookup2_register by done.
    rewrite decide_False; [done|]. by intros [? _].
Qed.

Lemma view_of_register p config kind name st F k n :
  wf p config → Parsers p !! kind = Some st → newParser kind = Some F →
  view_of (register p kind name st F) k n
  = if decide (k = kind ∧ n = name) then Some [] else view_of p k n.
Proof.
  intros Hwf Hst HF. unfold view_of. rewrite lookup2_register by done.
  case_decide.
  - simpl. rewrite deref_register_new. f_equal.
    by destruct (newParser_good _ _ HF).
  - destruct (lookup2 p k n) as [l|] eqn:Hl; [|done]; simpl.
    rewrite deref_register_old; [done|]. by eapply wf_heap.
Qed.

End registry_invariant.

(** ** Reading one rendered section *)

Section reading_sections.

Context {PT : Type} `{!ParserType PT} `{!Rosters PT} `{!Tokenizer} `{!RoundTrip}.

Implicit Types (p : Parser PT) (config : ConfiguredParsers) (ps : list PT).

Lemma changeState_sections p config a kind name st :
  kind ∈ sections → SectionName a = Some name → Parsers p !! kind = Some st →
  ∃ F config2,
    newParser kind = Some F
    ∧ changeState p config a kind = Some (register p kind name st F, config2)
    ∧ Active config2 = fresh (dom (heap p))
    ∧ Defaults_ config2 = Defaults_ config ∧ Global_ config2 = Global_ config.
Proof.
  intros Hkind Hn Hk. unfold sections in Hkind.
  unfold changeState, enter, alloc, register; simpl State.
  repeat (apply elem_of_cons in Hkind as [->|Hkind]);
    [..|by apply elem_of_nil in Hkind].
  all: repeat (rewrite decide_False by discriminate).
  all: rewrite decide_True by reflexivity.
  all: rewrite Hn, Hk; simpl.
  all: eexists _, _; repeat split; reflexivity.
Qed.

Lemma changeState_single p config a kind l :
  (kind = Defaults ∧ Defaults_ config = Some l)
  ∨ (kind = Global ∧ Global_ config = Some l) →
  changeState p config a kind = Some (p, set_Active l (set_State kind config)).
Proof.
  unfold changeState; simpl State.
  intros [[-> Hl]|[-> Hl]]; repeat (rewrite decide_False by discriminate);
    rewrite decide_True by reflexivity; simpl; by rewrite Hl.
Qed.

(** The active parser set, by the invariant. *)
Lemma wf_active_set p config :
  wf p config →
  ∃ k n ps, lookup2 p k n = Some (Active config)
            ∧ heap p !! Active config = Some (mkParserTypes ps) ∧ good k ps.
Proof.
  intros Hwf. destruct (wf_active _ _ Hwf) as (k & n & Hl).
  destruct (wf_heap _ _ Hwf _ _ _ Hl) as [[ps] Hps].
  exists k, n, ps. split; [done|]. split; [done|].
  rewrite <- (deref_lookup _ _ _ Hps). by eapply wf_good.
Qed.

(** The declaration line of a section of a multi-instance kind: a new
    parser set is registered under the name and made active; what the
    other sections render is as before. *)
Lemma read_declaration p config prev kind name :
  wf p config → kind ∈ sections → clean name →
  ∃ p2 config2 prev2 F,
    ParseData_line (p, config, prev) ((kind +:+ " " +:+ name) +:+ " ")
    = Some (p2, config2, prev2)
    ∧ wf p2 config2 ∧ newParser kind = Some F
    ∧ lookup2 p2 kind name = Some (Active config2)
    ∧ heap p2 !! Active config2 = Some F
    ∧ ∀ k n, view_of p2 k n
             = if decide (k = kind ∧ n = name) then Some [] else view_of p k n.
Proof.
  intros Hwf Hkind Hclean.
  destruct (wf_active_set _ _ Hwf) as (ka & na & ps & Hla & Hps & Hgood).
  destruct (declaration_multi ka ps prev kind name Hgood Hkind Hclean)
    as (ps' & parts & a & Hread & Ha & Hgood' & Hres).
  rewrite (ParseData_line_read _ _ _ _ _ Hps), Hread.
  rewrite decide_False by (by apply sections_nonempty_name).
  pose proof (wf_store _ _ _ _ _ Hwf Hla Hgood') as Hwf1.
  destruct (wf_kinds _ _ Hwf1 _ Hkind) as [st Hst].
  destruct (changeState_sections (store p (Active config) ps') config a kind name st
              Hkind Ha Hst) as (F & config2 & HF & -> & Hact & Hd & Hg).
  cbn [mbind option_bind].
  eexists _, _, _, F. split; [done|].
  split; [by eapply wf_register|]. split; [done|].
  split; [by rewrite lookup2_register, decide_True, Hact|].
  split.
  - rewrite Hact. unfold register; simpl. rewrite lookup_insert_eq. by destruct F.
  - intros k n. rewrite (view_of_register _ _ _ _ _ _ _ _ Hwf1 Hst HF).
    case_decide; [done|].
    rewrite (view_of_store _ _ _ _ _ _ _ Hwf Hla).
    case_decide as Hkn; [|done]. destruct Hkn as [-> ->].
    unfold view_of. rewrite Hla; simpl. by rewrite (deref_lookup _ _ _ Hps), Hres.
Qed.

(** The lines of a section read by the new parser set of its kind. *)
Lemma read_body p config prev kind name F ps_src :
  wf p config → lookup2 p kind name = Some (Active config) →
  heap p !! Active config = Some F → newParser kind = Some F →
  rereads kind ps_src →
  ∃ ps' prev2,
    ParseData_loop (lines_of (render_body (indented kind) ps_src)) (p, config, prev)
    = Some (store p (Active config) ps', config, prev2)
    ∧ wf (store p (Active config) ps') config
    ∧ results ps' = results ps_src
    ∧ ∀ k n, view_of (store p (Active config) ps') k n
             = if decide (k = kind ∧ n = name) then Some (results ps_src)
               else view_of p k n.
Proof.
  intros Hwf Hl HF Hnew Hre.
  destruct (Hre F prev Hnew) as (ps' & prev2 & Hq & Hgood & Hres).
  exists ps', prev2. split; [|split; [|split]].
  - apply (ParseData_loop_quiet _ _ _ _ (parsers F)); [by destruct F|done].
  - by eapply wf_store.
  - done.
  - intros k n. rewrite (view_of_store _ _ _ _ _ _ _ Hwf Hl). by rewrite Hres.
Qed.

Lemma render_section_empty sectionName useIndentation ps :
  results ps = [] → render_section sectionName useIndentation ps = "".
Proof. intros Hres. unfold render_section. by rewrite Hres. Qed.

Lemma render_section_nonempty sectionName useIndentation ps :
  results ps ≠ [] →
  render_section sectionName useIndentation ps
  = render_header sectionName +:+ render_body useIndentation ps.
Proof. intros Hres. unfold render_section, render_body. by destruct (results ps). Qed.

Lemma closed_render_body useIndentation ps : closed (render_body useIndentation ps).
Proof.
  unfold render_body. apply closed_concatStrings, Forall_fmap, Forall_forall.
  intros line _. right. unfold render_line.
  eexists. by rewrite <- !string_app_assoc.
Qed.

Lemma closed_render_header sectionName : closed (render_header sectionName).
Proof.
  unfold render_header. case_decide; [by left|]. right.
  eexists. by rewrite <- !string_app_assoc.
Qed.

Lemma closed_render_section sectionName useIndentation ps :
  closed (render_section sectionName useIndentation ps).
Proof.
  destruct (decide (results ps = [])) as [Hres|Hres].
  - rewrite render_section_empty by done. by left.
  - rewrite render_section_nonempty by done.
    apply closed_app; [apply closed_render_header|apply closed_render_body].
Qed.

(** The header of a section is one line: the name and a space. *)
Lemma lines_of_header sectionName :
  sectionName ≠ "" → LF ∉ list_ascii_of_string sectionName →
  lines_of (render_header sectionName) = [sectionName +:+ " "].
Proof.
  intros Hne HLF. unfold render_header. rewrite decide_False by done.
  rewrite <- (string_app_assoc sectionName). apply lines_of_line.
  - by destruct sectionName.
  - rewrite list_ascii_of_string_app, elem_of_app. intros [?|Hin]; [done|].
    cbn in Hin. apply list_elem_of_singleton in Hin. discriminate.
Qed.

Lemma sections_no_LF kind : kind ∈ sections → LF ∉ list_ascii_of_string kind.
Proof.
  unfold sections. intros Hkind.
  repeat (apply elem_of_cons in Hkind as [->|Hkind]).
  all: try (apply elem_of_nil in Hkind; done).
  all: cbn; rewrite !not_elem_of_cons; repeat (split; [discriminate|]).
  all: apply not_elem_of_nil.
Qed.

(** One section of a multi-instance kind, as [String] writes it, read by
    [ParseData]: when the section renders no line, nothing is read; else
    it is registered, and renders the same. *)
Lemma read_section p config prev kind name ps_src :
  wf p config → kind ∈ sections → rereads kind ps_src →
  (results ps_src ≠ [] → clean name) →
  ∃ p2 config2 prev2,
    ParseData_loop (lines_of (render_section (kind +:+ " " +:+ name) true ps_src))
      (p, config, prev) = Some (p2, config2, prev2)
    ∧ wf p2 config2
    ∧ ∀ k n, view_of p2 k n
             = if decide (k = kind ∧ n = name ∧ results ps_src ≠ [])
               then Some (results ps_src) else view_of p k n.
Proof.
  intros Hwf Hkind Hre Hclean.
  destruct (decide (results ps_src = [])) as [Hres|Hres].
  - rewrite render_section_empty by done. exists p, config, prev.
    split; [done|]. split; [done|]. intros k n.
    rewrite decide_False; [done|]. by intros (_ & _ & ?).
  - rewrite render_section_nonempty by done.
    rewrite lines_of_app by apply closed_render_header.
    rewrite lines_of_header; first last.
    { rewrite !list_ascii_of_string_app, !elem_of_app.
      intros [Hin|[Hin|Hin]].
      - by apply (sections_no_LF kind).
      - cbn in Hin. apply list_elem_of_singleton in Hin. discriminate.
      - by apply (clean_no_LF name); auto. }
    { by destruct kind. }
    destruct (read_declaration p config prev kind name Hwf Hkind (Hclean Hres))
      as (p1 & config1 & prev1 & F & Hline & Hwf1 & HF & Hl1 & Hh1 & Hv1).
    assert (indented kind = true) as Hind.
    { unfold indented. rewrite bool_decide_eq_false_2; [done|].
      by apply sections_not_singleton. }
    destruct (read_body p1 config1 prev1 kind name F ps_src Hwf1 Hl1 Hh1 HF Hre)
      as (ps' & prev2 & Hloop & Hwf2 & _ & Hv2).
    rewrite Hind in Hloop.
    eexists _, _, _. split; [|split; [exact Hwf2|]].
    + change ([?x] ++ ?l) with (x :: l). cbn [ParseData_loop].
      rewrite Hline. cbn [mbind option_bind]. exact Hloop.
    + intros k n. rewrite Hv2, Hv1.
      destruct (decide (k = kind ∧ n = name)) as [Hkn|Hkn].
      * rewrite decide_True; [done|]. by destruct Hkn.
      * rewrite decide_False; [done|]. intros (? & ? & _). by apply Hkn.
Qed.

Lemma wf_set_Active p config config2 k n :
  wf p config → lookup2 p k n = Some (Active config2) →
  Defaults_ config2 = Defaults_ config → Global_ config2 = Global_ config →
  wf p config2.
Proof.
  intros [Hk Hh Hi Ha Hg Hd Hgl] Hl Hdef Hglo. split; try done.
  - by exists k, n.
  - by rewrite Hdef.
  - by rewrite Hglo.
Qed.

(** The defaults or the global singleton, as [String] writes it, read by
    [ParseData] while the parser set of the singleton is still as it was
    built. *)
Lemma read_singleton p config prev kind l F ps_src :
  wf p config → kind = Defaults ∨ kind = Global →
  lookup2 p kind "data" = Some l → heap p !! l = Some F → newParser kind = Some F →
  Active config ≠ l → rereads kind ps_src →
  ∃ p2 config2 prev2,
    ParseData_loop (lines_of (render_section kind true ps_src)) (p, config, prev)
    = Some (p2, config2, prev2)
    ∧ wf p2 config2
    ∧ (∀ k n, view_of p2 k n
              = if decide (k = kind ∧ n = "data") then Some (results ps_src)
                else view_of p k n)
    ∧ (∀ l', l' ≠ Active config → l' ≠ l → heap p2 !! l' = heap p !! l')
    ∧ (Active config2 = Active config ∨ Active config2 = l)
    ∧ Parsers p2 = Parsers p.
Proof.
  intros Hwf Hkind Hl HF Hnew Hne Hre.
  destruct (decide (results ps_src = [])) as [Hres|Hres].
  - rewrite render_section_empty by done. exists p, config, prev.
    split; [done|]. split; [done|]. split; [|split; [done|split; [by left|done]]].
    intros k n. case_decide as Hkn; [|done]. destruct Hkn as [-> ->].
    unfold view_of. rewrite Hl; simpl. rewrite Hres. f_equal.
    unfold deref. rewrite (lookup_total_correct _ _ _ HF).
    by destruct (newParser_good _ _ Hnew).
  - rewrite render_section_nonempty by done.
    rewrite lines_of_app by apply closed_render_header.
    rewrite lines_of_header; first last.
    { destruct Hkind as [-> | ->]; cbn; rewrite !not_elem_of_cons;
        repeat (split; [discriminate|]); apply not_elem_of_nil. }
    { by destruct Hkind as [-> | ->]. }
    destruct (wf_active_set _ _ Hwf) as (ka & na & ps & Hla & Hps & Hgood).
    destruct (declaration_single ka ps prev kind Hgood Hkind)
      as (ps' & parts & a & Hread & Hgood' & Hres').
    pose proof (wf_store _ _ _ _ _ Hwf Hla Hgood') as Hwf1.
    assert (changeState (store p (Active config) ps') config a kind
            = Some (store p (Active config) ps', set_Active l (set_State kind config)))
      as Hchange.
    { apply changeState_single. destruct Hkind as [-> | ->]; [left|right].
      - split; [done|]. destruct (wf_defaults _ _ Hwf) as [_ ->]. exact Hl.
      - split; [done|]. destruct (wf_global _ _ Hwf) as [_ ->]. exact Hl. }
    assert (wf (store p (Active config) ps') (set_Active l (set_State kind config)))
      as Hwf2.
    { apply (wf_set_Active _ config _ kind "data"); [done| |done..].
      by rewrite lookup2_store. }
    assert (indented kind = true) as Hind.
    { unfold indented. rewrite bool_decide_eq_false_2; [done|].
      by destruct Hkind as [-> | ->]. }
    edestruct (read_body (store p (Active config) ps')
                 (set_Active l (set_State kind config)) parts kind "data" F ps_src)
      as (ps'' & prev2 & Hloop & Hwf3 & _ & Hv3); [done|by rewrite lookup2_store| |done..|].
    { unfold store; simpl. by rewrite lookup_insert_ne. }
    rewrite Hind in Hloop.
    eexists _, _, _. split; [|split; [exact Hwf3|split; [|split; [|split; [|done]]]]].
    + change ([?x] ++ ?t) with (x :: t). cbn [ParseData_loop].
      rewrite (ParseData_line_read _ _ _ _ _ Hps), Hread.
      rewrite decide_False by (by destruct Hkind as [-> | ->]).
      rewrite Hchange. cbn [mbind option_bind]. exact Hloop.
    + intros k n. rewrite Hv3. case_decide; [done|].
      rewrite (view_of_store _ _ _ _ _ _ _ Hwf Hla).
      case_decide as Hkn; [|done]. destruct Hkn as [-> ->].
      unfold view_of. rewrite Hla; simpl. by rewrite (deref_lookup _ _ _ Hps), Hres'.
    + intros l' Hl1 Hl2. unfold store; simpl.
      by rewrite !lookup_insert_ne.
    + by right.
Qed.

Lemma elem_of_cons_pair (k n kind name : string) (keys : list (string * string)) :
  (k, n) ∈ (kind, name) :: keys ↔ (k = kind ∧ n = name) ∨ (k, n) ∈ keys.
Proof.
  rewrite elem_of_cons. split; (intros [Heq|?]; [left|by right]).
  - by injection Heq.
  - by destruct Heq as [-> ->].
Qed.

(** The sections of the multi-instance kinds, in the order [String]
    writes them, read one after the other. *)
Lemma read_sections (src : Parser PT) (keys : list (string * string)) p config prev :
  wf p config →
  (∀ k n, (k, n) ∈ keys →
     k ∈ sections ∧ rereads k (registered src k n)
     ∧ (results (registered src k n) ≠ [] → clean n)) →
  ∃ p2 config2 prev2,
    ParseData_loop
      (concat ((fun key => lines_of (render_section (key.1 +:+ " " +:+ key.2) true
                                       (registered src key.1 key.2))) <$> keys))
      (p, config, prev) = Some (p2, config2, prev2)
    ∧ wf p2 config2
    ∧ ∀ k n, view_of p2 k n
             = if decide ((k, n) ∈ keys ∧ results (registered src k n) ≠ [])
               then Some (results (registered src k n)) else view_of p k n.
Proof.
  revert p config prev. induction keys as [|[kind name] keys IH];
    intros p config prev Hwf Hkeys.
  - exists p, config, prev. split; [done|]. split; [done|]. intros k n.
    rewrite decide_False; [done|]. intros [Hin _]. by apply elem_of_nil in Hin.
  - destruct (Hkeys kind name) as (Hkind & Hre & Hclean); [by left|].
    destruct (read_section p config prev kind name _ Hwf Hkind Hre Hclean)
      as (p1 & config1 & prev1 & Hloop1 & Hwf1 & Hv1).
    destruct (IH p1 config1 prev1 Hwf1) as (p2 & config2 & prev2 & Hloop2 & Hwf2 & Hv2).
    { intros k n Hin. apply Hkeys. by right. }
    exists p2, config2, prev2. split; [|split; [done|]].
    + cbn [fmap list_fmap concat]. rewrite ParseData_loop_app.
      cbn [fst snd]. rewrite Hloop1. exact Hloop2.
    + intros k n. rewrite Hv2, Hv1.
      destruct (decide (k = kind ∧ n = name)) as [[-> ->]|Hkn].
      * repeat case_decide; try done; exfalso;
          rewrite ?elem_of_cons_pair in *; tauto.
      * repeat case_decide; try done; exfalso;
          rewrite ?elem_of_cons_pair in *; tauto.
Qed.

End reading_sections.

(** ** The round trip *)

Section round_trip.

Context {PT : Type} `{!ParserType PT} `{!Rosters PT} `{!Tokenizer} `{!RoundTrip}.

Implicit Types (p : Parser PT) (config : ConfiguredParsers) (ps : list PT).

(** The registry of a parser that holds the three singletons at [c], [d]
    and [g] and no other section. *)
Lemma lookup2_init (c d g : loc) (h : gmap loc (ParserTypes PT)) k n :
  lookup2
    (mkParser
       (<[Program := ∅]> (<[Cache := ∅]> (<[Mailers := ∅]> (<[Peers := ∅]>
        (<[UserList := ∅]> (<[Resolvers := ∅]> (<[Listen := ∅]> (<[Backends := ∅]>
        (<[Frontends := ∅]> (<[Global := {[GlobalSectionName := g]}]>
        (<[Defaults := {[DefaultSectionName := d]}]>
        (<[Comments := {[CommentsSectionName := c]}]> ∅)))))))))))) h) k n
  = if decide (k = Comments ∧ n = "data") then Some c
    else if decide (k = Defaults ∧ n = "data") then Some d
    else if decide (k = Global ∧ n = "data") then Some g
    else None.
Proof.
  unfold lookup2; simpl.
  repeat (rewrite lookup_insert; destruct (decide _) as [<-|?];
          [simpl; rewrite ?lookup_empty;
           repeat (rewrite decide_False by (intros [? _]; discriminate));
           try done|]).
  all: rewrite ?lookup_singleton, ?lookup_empty; simpl.
  all: unfold GlobalSectionName, DefaultSectionName, CommentsSectionName in *.
  all: repeat case_decide; try done; exfalso; intuition congruence.
Qed.

(** The parser and the session [ParseData] starts from. *)
Lemma initParser_spec :
  ∃ c d g p0 config0,
    initParser = (p0, config0)
    ∧ wf p0 config0 ∧ Active config0 = c
    ∧ lookup2 p0 Comments "data" = Some c
    ∧ lookup2 p0 Defaults "data" = Some d
    ∧ lookup2 p0 Global "data" = Some g
    ∧ c ≠ d ∧ c ≠ g ∧ d ≠ g
    ∧ heap p0 !! c = Some getStartParser
    ∧ heap p0 !! d = Some getDefaultParser
    ∧ heap p0 !! g = Some getGlobalParser
    ∧ ∀ k n, view_of p0 k n
             = if decide ((k = Comments ∨ k = Defaults ∨ k = Global) ∧ n = "data")
               then Some [] else None.
Proof.
  unfold initParser, alloc.
  set (c := fresh (dom (∅ : gmap loc (ParserTypes PT)))).
  set (h1 := <[c := getStartParser]> (∅ : gmap loc (ParserTypes PT))).
  set (d := fresh (dom h1)).
  set (h2 := <[d := getDefaultParser]> h1).
  set (g := fresh (dom h2)).
  set (h3 := <[g := getGlobalParser]> h2).
  assert (d ≠ c) as Hdc.
  { intros Heq. apply (is_fresh (dom h1)). fold d. rewrite Heq.
    unfold h1. rewrite dom_insert_L. apply elem_of_union_l. by apply elem_of_singleton. }
  assert (g ≠ d) as Hgd.
  { intros Heq. apply (is_fresh (dom h2)). fold g. rewrite Heq.
    unfold h2. rewrite dom_insert_L. apply elem_of_union_l. by apply elem_of_singleton. }
  assert (g ≠ c) as Hgc.
  { intros Heq. apply (is_fresh (dom h2)). fold g. rewrite Heq.
    unfold h2, h1. rewrite !dom_insert_L. apply elem_of_union_r, elem_of_union_l.
    by apply elem_of_singleton. }
  assert (h3 !! c = Some getStartParser) as Hc.
  { unfold h3, h2, h1. rewrite !lookup_insert_ne by done. apply lookup_insert_eq. }
  assert (h3 !! d = Some getDefaultParser) as Hd.
  { unfold h3, h2. rewrite lookup_insert_ne by done. apply lookup_insert_eq. }
  assert (h3 !! g = Some getGlobalParser) as Hg.
  { unfold h3. apply lookup_insert_eq. }
  exists c, d, g. eexists _, _. split; [reflexivity|].
  assert (∀ k n l,
            (if decide (k = Comments ∧ n = "data") then Some c
             else if decide (k = Defaults ∧ n = "data") then Some d
             else if decide (k = Global ∧ n = "data") then Some g else None) = Some l →
            (k = Comments ∧ n = "data" ∧ l = c) ∨ (k = Defaults ∧ n = "data" ∧ l = d)
            ∨ (k = Global ∧ n = "data" ∧ l = g)) as Hcases.
  { intros k n l. repeat case_decide; intros; simplify_eq; tauto. }
  split; [split|].
  - intros kind Hkind. unfold sections in Hkind. simpl.
    repeat (apply elem_of_cons in Hkind as [->|Hkind]);
      [..|by apply elem_of_nil in Hkind].
    all: repeat (rewrite lookup_insert_ne by discriminate).
    all: rewrite lookup_insert_eq; eauto.
  - intros k n l. rewrite lookup2_init. intros Hl.
    destruct (Hcases _ _ _ Hl) as [(_ & _ & ->)|[(_ & _ & ->)|(_ & _ & ->)]]; simpl; eauto.
  - intros k n k' n' l. rewrite !lookup2_init. intros Hl Hl'.
    destruct (Hcases _ _ _ Hl) as [(-> & -> & ->)|[(-> & -> & ->)|(-> & -> & ->)]];
    destruct (Hcases _ _ _ Hl') as [(-> & -> & ?)|[(-> & -> & ?)|(-> & -> & ?)]];
      try done; exfalso; congruence.
  - exists Comments, "data". rewrite lookup2_init. by rewrite decide_True.
  - intros k n l. rewrite lookup2_init. intros Hl. unfold deref; simpl.
    destruct (Hcases _ _ _ Hl) as [(-> & -> & ->)|[(-> & -> & ->)|(-> & -> & ->)]].
    + rewrite (lookup_total_correct _ _ _ Hc). by apply newParser_good.
    + rewrite (lookup_total_correct _ _ _ Hd). by apply newParser_good.
    + rewrite (lookup_total_correct _ _ _ Hg). by apply newParser_good.
  - simpl. split; [eauto|]. rewrite lookup2_init.
    rewrite decide_False by (intros [? _]; discriminate). by rewrite decide_True.
  - simpl. split; [eauto|]. rewrite lookup2_init.
    repeat (rewrite decide_False by (intros [? _]; discriminate)). by rewrite decide_True.
  - split; [done|]. rewrite !lookup2_init.
    split; [by rewrite decide_True|].
    split; [rewrite decide_False by (intros [? _]; discriminate); by rewrite decide_True|].
    split; [repeat (rewrite decide_False by (intros [? _]; discriminate));
            by rewrite decide_True|].
    repeat (split; [done|]).
    intros k n. unfold view_of. rewrite lookup2_init. unfold deref; simpl.
    repeat case_decide; simpl;
      rewrite ?(lookup_total_correct _ _ _ Hc), ?(lookup_total_correct _ _ _ Hd),
        ?(lookup_total_correct _ _ _ Hg).
    all: try (f_equal; by apply (newParser_good Comments _ eq_refl)).
    all: try (f_equal; by apply (newParser_good Defaults _ eq_refl)).
    all: try (f_equal; by apply (newParser_good Global _ eq_refl)).
    all: try done; exfalso; tauto.
Qed.

(** *** The text and its lines *)

Lemma closed_render_kind (src : Parser PT) kind : closed (render_kind src kind).
Proof.
  unfold render_kind. apply closed_concatStrings, Forall_fmap, Forall_forall.
  intros name _. apply closed_render_section.
Qed.

Lemma lines_of_render_kind (src : Parser PT) kind :
  lines_of (render_kind src kind)
  = concat (section_lines src <$> (pair kind <$> getSortedList (Parsers src !! kind))).
Proof.
  unfold render_kind. rewrite lines_of_concatStrings.
  - by rewrite <- !list_fmap_compose.
  - apply Forall_fmap, Forall_forall. intros name _. apply closed_render_section.
Qed.

Lemma lines_of_kinds (src : Parser PT) (kinds : list string) :
  lines_of (concatStrings (render_kind src <$> kinds))
  = concat (section_lines src
              <$> (kinds ≫= fun kind => pair kind <$> getSortedList (Parsers src !! kind))).
Proof.
  induction kinds as [|kind kinds IH]; [done|].
  rewrite fmap_cons, concatStrings_cons, lines_of_app by apply closed_render_kind.
  rewrite bind_cons, fmap_app, concat_app, IH. by rewrite lines_of_render_kind.
Qed.

Lemma render_section_no_header useIndentation ps :
  render_section "" useIndentation ps = render_body useIndentation ps.
Proof.
  unfold render_section, render_body. destruct (results ps) as [|r rs] eqn:Hres; [done|].
  done.
Qed.

Lemma lines_of_render (src : Parser PT) :
  lines_of (render src)
  = lines_of (render_body false (registered src Comments CommentsSectionName))
    ++ lines_of (render_section Defaults true (registered src Defaults DefaultSectionName))
    ++ lines_of (render_section Global true (registered src Global GlobalSectionName))
    ++ concat (section_lines src <$> keys_of src).
Proof.
  unfold render. rewrite render_section_no_header.
  change "defaults" with Defaults. change "global" with Global.
  rewrite lines_of_app by apply closed_render_body.
  rewrite lines_of_app by apply closed_render_section.
  rewrite lines_of_app by apply closed_render_section.
  by rewrite lines_of_kinds.
Qed.

Lemma elem_of_keys_of (src : Parser PT) k n :
  (k, n) ∈ keys_of src ↔ k ∈ sections ∧ is_Some (lookup2 src k n).
Proof.
  unfold keys_of. rewrite list_elem_of_bind. split.
  - intros (kind & Hin & Hkind). apply list_elem_of_fmap in Hin as (name & [= -> ->] & Hin).
    split; [done|]. apply getSortedList_elem in Hin. unfold lookup2.
    destruct (Parsers src !! kind); [done|]. simpl in Hin. by rewrite lookup_empty in Hin.
  - intros [Hkind Hl]. exists k. split; [|done]. apply list_elem_of_fmap.
    exists n. split; [done|]. apply getSortedList_elem. unfold lookup2 in Hl.
    destruct (Parsers src !! k); [done|]. by destruct Hl.
Qed.

(** *** What is rendered depends on the results alone *)

Lemma results_registered p k n :
  results (registered p k n) = default [] (view_of p k n).
Proof. unfold registered, view_of. by destruct (lookup2 p k n). Qed.

Lemma render_section_ext sectionName useIndentation ps ps' :
  results ps = results ps' →
  render_section sectionName useIndentation ps
  = render_section sectionName useIndentation ps'.
Proof. intros Hres. unfold render_section. by rewrite Hres. Qed.

Lemma view_of_is_Some p k n : is_Some (view_of p k n) ↔ is_Some (lookup2 p k n).
Proof. unfold view_of. by rewrite fmap_is_Some. Qed.

Lemma getSortedList_lookup2 p kind name :
  name ∈ getSortedList (Parsers p !! kind) ↔ is_Some (lookup2 p kind name).
Proof.
  rewrite getSortedList_elem. unfold lookup2.
  destruct (Parsers p !! kind); simpl; [done|].
  rewrite lookup_empty. split; by intros [? ?].
Qed.

Lemma StronglySorted_filter {A} (R : relation A) (P : A → Prop)
    `{∀ x, Decision (P x)} (l : list A) :
  StronglySorted R l → StronglySorted R (filter P l).
Proof.
  induction 1 as [|x l Hl IH Hx]; [constructor|].
  rewrite filter_cons. case_decide; [|done].
  constructor; [done|]. apply Forall_forall. intros y Hy.
  apply list_elem_of_filter in Hy as [_ Hy].
  by apply (proj1 (Forall_forall _ _) Hx).
Qed.

Lemma concatStrings_filter {A} (f : A → string) (P : A → Prop)
    `{∀ x, Decision (P x)} (l : list A) :
  (∀ x, ¬ P x → f x = "") →
  concatStrings (f <$> filter P l) = concatStrings (f <$> l).
Proof.
  intros Hf. induction l as [|x l IH]; [done|].
  rewrite filter_cons. case_decide as Hx.
  - by rewrite !fmap_cons, !concatStrings_cons, IH.
  - by rewrite fmap_cons, concatStrings_cons, IH, (Hf _ Hx).
Qed.

(** A kind is rendered the same by two registries when the second holds
    the sections of the first that render a line, with the same
    results. *)
Lemma render_kind_view (src p' : Parser PT) kind :
  (∀ n, view_of p' kind n
        = if decide (is_Some (lookup2 src kind n) ∧ results (registered src kind n) ≠ [])
          then Some (results (registered src kind n)) else None) →
  render_kind p' kind = render_kind src kind.
Proof.
  intros Hview. unfold render_kind.
  set (P := fun n : string => results (registered src kind n) ≠ []).
  assert (getSortedList (Parsers p' !! kind)
          = filter P (getSortedList (Parsers src !! kind))) as ->.
  { destruct (getSortedList_sorted (Parsers p' !! kind)) as [Hs' Hn'].
    destruct (getSortedList_sorted (Parsers src !! kind)) as [Hs Hn].
    apply (StronglySorted_unique String.le); [done|by apply StronglySorted_filter|].
    apply NoDup_Permutation; [done|by apply NoDup_filter|].
    intros n. rewrite list_elem_of_filter, !getSortedList_lookup2.
    rewrite <- (view_of_is_Some p'), Hview. unfold P.
    case_decide as Hc.
    - split; [tauto|]. eauto.
    - split; [by intros [? ?]|]. intros [? ?]. exfalso. tauto. }
  rewrite <- (concatStrings_filter
                (fun name => render_section (kind +:+ " " +:+ name) true
                               (registered src kind name)) P).
  - f_equal. apply Forall_fmap_ext, Forall_forall. intros n Hn.
    apply list_elem_of_filter in Hn as [HP Hn]. apply getSortedList_lookup2 in Hn.
    apply render_section_ext. rewrite (results_registered p'), Hview.
    by rewrite decide_True.
  - intros n Hn. apply render_section_empty. unfold P in Hn.
    by destruct (decide (results (registered src kind n) = [])).
Qed.

Lemma Parser_String_render p :
  is_Some (lookup2 p Comments CommentsSectionName) →
  is_Some (lookup2 p Defaults DefaultSectionName) →
  is_Some (lookup2 p Global GlobalSectionName) →
  Parser_String p = Some (render p).
Proof.
  intros [c Hc] [d Hd] [g Hg].
  unfold Parser_String, render, registered. rewrite Hc, Hd, Hg.
  cbn [mbind option_bind].
  rewrite writeKinds_spec, !writeParsers_spec.
  by rewrite !string_app_assoc.
Qed.

(** C1, as the code has it.  Let the text [T] be what [String] returns
    for a registry in which every section is read again by the parser
    set of its kind (a new parser set of the kind, given the lines the
    section renders, takes them with no change of state and then renders
    the same) and every section of a multi-instance kind that renders a
    line has a clean name (one token of a line).  Then [ParseData] reads
    [T] without an error, and [String] returns the same text [T] for the
    registry it has built.  Neither condition can be dropped: the
    registry does not check the names it is given, and what a section
    renders is the matter of its directive parsers. *)
Theorem ParseData_String_round_trip p T :
  Parser_String p = Some T →
  rereads Comments (registered p Comments CommentsSectionName) →
  rereads Defaults (registered p Defaults DefaultSectionName) →
  rereads Global (registered p Global GlobalSectionName) →
  (∀ kind name, kind ∈ sections → is_Some (lookup2 p kind name) →
     rereads kind (registered p kind name)
     ∧ (results (registered p kind name) ≠ [] → clean name)) →
  ∃ p', ParseData T = Some (p', None) ∧ Parser_String p' = Some T.
Proof.
  intros HT Hrc Hrd Hrg Hsec.
  assert (is_Some (lookup2 p Comments CommentsSectionName)
          ∧ is_Some (lookup2 p Defaults DefaultSectionName)
          ∧ is_Some (lookup2 p Global GlobalSectionName)) as (Hc & Hd & Hg).
  { unfold Parser_String in HT.
    destruct (lookup2 p Comments CommentsSectionName); [|done].
    destruct (lookup2 p Defaults DefaultSectionName); [|done].
    destruct (lookup2 p Global GlobalSectionName); [|done]. eauto. }
  rewrite (Parser_String_render p Hc Hd Hg) in HT. injection HT as <-.
  destruct initParser_spec
    as (c0 & d0 & g0 & p0 & config0 & Hinit & Hwf0 & Hact0 & Hlc & Hld & Hlg
        & Hcd & Hcg & Hdg & Hhc & Hhd & Hhg & Hv0).
  (* the comments singleton *)
  destruct (read_body p0 config0 [] Comments "data" getStartParser
              (registered p Comments CommentsSectionName))
    as (psc & prev1 & Hloop1 & Hwf1 & _ & Hv1);
    [done|by rewrite Hact0|by rewrite Hact0|done|done|].
  rewrite Hact0 in *.
  change (indented Comments) with false in Hloop1.
  set (p1 := store p0 c0 psc) in *.
  (* the defaults singleton *)
  destruct (read_singleton p1 config0 prev1 Defaults d0 getDefaultParser
              (registered p Defaults DefaultSectionName))
    as (p2 & config2 & prev2 & Hloop2 & Hwf2 & Hv2 & Hframe2 & Hact2 & Hreg2);
    [done|by left|done| |done|by rewrite Hact0|done|].
  { unfold p1, store; simpl. by rewrite lookup_insert_ne. }
  (* the global singleton *)
  destruct (read_singleton p2 config2 prev2 Global g0 getGlobalParser
              (registered p Global GlobalSectionName))
    as (p3 & config3 & prev3 & Hloop3 & Hwf3 & Hv3 & _ & _ & Hreg3);
    [done|by right| | |done| |done|].
  { unfold lookup2. rewrite Hreg2. exact Hlg. }
  { rewrite Hframe2; [|by rewrite Hact0|done].
    unfold p1, store; simpl. by rewrite lookup_insert_ne. }
  { destruct Hact2 as [-> | ->]; [by rewrite Hact0|done]. }
  (* the sections of the other kinds *)
  destruct (read_sections p (keys_of p) p3 config3 prev3 Hwf3)
    as (p4 & config4 & prev4 & Hloop4 & Hwf4 & Hv4).
  { intros k n Hin. apply elem_of_keys_of in Hin as [Hk Hl].
    destruct (Hsec k n Hk Hl) as [? ?]. done. }
  exists p4. split.
  - unfold ParseData. rewrite Hinit. fold (lines_of (render p)).
    rewrite lines_of_render.
    rewrite ParseData_loop_app, Hloop1. cbn [mbind option_bind].
    rewrite ParseData_loop_app, Hloop2. cbn [mbind option_bind].
    rewrite ParseData_loop_app, Hloop3. cbn [mbind option_bind].
    change (fun key : string * string => _) with (section_lines p) in Hloop4.
    by rewrite Hloop4.
  - assert (∀ k n, view_of p4 k n
                   = if decide (k ∈ sections ∧ is_Some (lookup2 p k n)
                                ∧ results (registered p k n) ≠ [])
                     then Some (results (registered p k n))
                     else if decide ((k = Comments ∨ k = Defaults ∨ k = Global)
                                     ∧ n = "data")
                          then Some (results (registered p k n)) else None) as Hview.
    { intros k n. rewrite Hv4, Hv3, Hv2, Hv1, Hv0.
      pose proof (elem_of_keys_of p k n) as Hkeys.
      destruct (decide (k ∈ sections)) as [Hk|Hk].
      - destruct (sections_not_singleton _ Hk) as (? & ? & ?).
        repeat case_decide; try done; exfalso; tauto.
      - repeat case_decide; try done; try (exfalso; tauto).
        all: repeat match goal with H : _ ∧ _ |- _ => destruct H end; subst; try done.
        all: exfalso; intuition congruence. }
    assert (∀ k, (k = Comments ∨ k = Defaults ∨ k = Global) →
                 view_of p4 k "data" = Some (results (registered p k "data"))) as Hsing.
    { intros k Hk. rewrite Hview. rewrite decide_False.
      - by rewrite decide_True.
      - intros [Hin _]. destruct (sections_not_singleton _ Hin) as (? & ? & ?).
        destruct Hk as [-> | [-> | ->]]; done. }
    rewrite Parser_String_render.
    + f_equal. unfold render. f_equal; [|f_equal; [|f_equal]].
      * apply render_section_ext. rewrite (results_registered p4).
        unfold CommentsSectionName. rewrite Hsing; [done|tauto].
      * apply render_section_ext. rewrite (results_registered p4).
        unfold DefaultSectionName. rewrite Hsing; [done|tauto].
      * apply render_section_ext. rewrite (results_registered p4).
        unfold GlobalSectionName. rewrite Hsing; [done|tauto].
      * f_equal. apply Forall_fmap_ext, Forall_forall. intros kind Hkind.
        apply render_kind_view. intros n. rewrite Hview.
        destruct (sections_not_singleton _ Hkind) as (? & ? & ?).
        repeat case_decide; try done; exfalso; tauto.
    + apply view_of_is_Some. unfold CommentsSectionName. rewrite Hsing; [eauto|tauto].
    + apply view_of_is_Some. unfold DefaultSectionName. rewrite Hsing; [eauto|tauto].
    + apply view_of_is_Some. unfold GlobalSectionName. rewrite Hsing; [eauto|tauto].
Qed.

End round_trip.

(** * Further properties of the package *)

(** ** What one line does to the registry *)

Section registry_growth.

Context {PT : Type} `{!ParserType PT} `{!Rosters PT} `{!Tokenizer}.

Implicit Types (p : Parser PT) (config : ConfiguredParsers) (ps : list PT).

Lemma enter_cases p config parser kind roster slot p' config' :
  enter p config parser kind roster slot = Some (p', config') →
  ∃ name st,
    SectionName parser = Some name ∧ Parsers p !! kind = Some st
    ∧ p' = register p kind name st roster
    ∧ config' = set_Active (fresh (dom (heap p))) (slot (fresh (dom (heap p))) config).
Proof.
  unfold enter, alloc, register. intros Henter.
  destruct (SectionName parser) as [name|]; [|done]; simpl in Henter.
  destruct (Parsers p !! kind) as [st|]; [|done]; simpl in Henter.
  injection Henter as <- <-. by eexists _, _.
Qed.

Lemma changeState_cases p config parser newState p' config' :
  changeState p config parser newState = Some (p', config') →
  (p' = p ∧ newState ∉ sections)
  ∨ ∃ name st roster,
      newState ∈ sections ∧ SectionName parser = Some name
      ∧ Parsers p !! newState = Some st ∧ newParser newState = Some roster
      ∧ p' = register p newState name st roster
      ∧ Active config' = fresh (dom (heap p)).
Proof.
  unfold changeState. simpl State. intros Hchange.
  repeat case_decide; subst.
  1-3: left; split; [destruct (_ (set_State _ config)); by simplify_eq/=|].
  1-3: intros Hin; unfold sections in Hin;
       rewrite !elem_of_cons, elem_of_nil in Hin; intuition discriminate.
  10: { left. split; [by simplify_eq|].
        intros Hin; unfold sections in Hin.
        rewrite !elem_of_cons, elem_of_nil in Hin. intuition congruence. }
  all: right; apply enter_cases in Hchange as (name & st & Hn & Hst & -> & ->).
  all: eexists name, st, _; split; [unfold sections; rewrite !elem_of_cons; tauto|].
  all: do 2 (split; [done|]); split; [|done].
  all: unfold newParser; repeat (rewrite decide_False by discriminate).
  all: by rewrite decide_True by reflexivity.
Qed.

Lemma changeState_State p config parser newState p' config' :
  changeState p config parser newState = Some (p', config') →
  State config' = newState.
Proof.
  unfold changeState. simpl State. intros Hchange.
  repeat case_decide.
  1-3: destruct (_ (set_State _ config)); by simplify_eq/=.
  10: by simplify_eq.
  all: apply enter_cases in Hchange as (name & st & _ & _ & _ & ->); done.
Qed.

(** What [ProcessLine] returns: the registry with the parsers of the
    active set after their calls, and over it at most one section
    registered under a new object. *)
Lemma ProcessLine_cases p line parts prev comment config p' config' :
  ProcessLine p line parts prev comment config = Some (p', config') →
  ∃ ps,
    p' = store p (Active config) ps
    ∨ ∃ kind name st roster,
        kind ∈ sections ∧ Parsers p !! kind = Some st
        ∧ newParser kind = Some roster
        ∧ p' = register (store p (Active config) ps) kind name st roster
        ∧ Active config' = fresh (dom (heap (store p (Active config) ps))).
Proof.
  unfold ProcessLine. intros Hproc.
  destruct (dispatch _ _ _ _ _) as [ps [[parser newState]|]]; exists ps;
    [|left; by simplify_eq].
  case_decide; [left; by simplify_eq|].
  apply changeState_cases in Hproc
    as [[-> _]|(name & st & roster & Hk & Hn & Hst & Hr & -> & Ha)]; [by left|].
  right. by eexists newState, name, st, roster.
Qed.

Lemma fresh_store p l ps :
  heap p !! fresh (dom (heap (store p l ps))) = None
  ∧ fresh (dom (heap (store p l ps))) ≠ l.
Proof.
  pose proof (is_fresh (dom (heap (store p l ps)))) as Hfresh.
  revert Hfresh. unfold store; simpl. rewrite dom_insert_L.
  generalize (fresh ({[l]} ∪ dom (heap p))). intros l' Hfresh.
  rewrite elem_of_union, elem_of_singleton in Hfresh. split.
  - apply not_elem_of_dom. tauto.
  - tauto.
Qed.

Lemma ProcessLine_dom p line parts prev comment config p' config' :
  ProcessLine p line parts prev comment config = Some (p', config') →
  dom (Parsers p') = dom (Parsers p).
Proof.
  intros Hproc.
  apply ProcessLine_cases in Hproc
    as [ps [->|(kind & name & st & roster & Hkind & Hst & Hr & -> & Ha)]]; [done|].
  simpl. by apply dom_insert_lookup_L.
Qed.

(** Reading one line keeps the kinds of the registry and every section
    that is registered, and registers at most one section: of a
    multi-instance kind, under an object that is new, which becomes the
    active parser set. *)
Theorem ProcessLine_registry p line parts prev comment config p' config' :
  ProcessLine p line parts prev comment config = Some (p', config') →
  dom (Parsers p') = dom (Parsers p)
  ∧ (∀ k n, is_Some (lookup2 p k n) → is_Some (lookup2 p' k n))
  ∧ (Parsers p' = Parsers p
     ∨ ∃ kind name st l,
         kind ∈ sections ∧ Parsers p !! kind = Some st
         ∧ heap p !! l = None ∧ l ≠ Active config
         ∧ Active config' = l
         ∧ Parsers p' = <[kind := <[name := l]> st]> (Parsers p)).
Proof.
  intros Hproc. split; [by eapply ProcessLine_dom|].
  apply ProcessLine_cases in Hproc
    as [ps [->|(kind & name & st & roster & Hkind & Hst & Hr & -> & Ha)]].
  - simpl. split; [|by left].
    intros k n. by rewrite lookup2_store.
  - destruct (fresh_store p (Active config) ps) as [Hfresh Hne]. split.
    + intros k n Hkn. rewrite lookup2_register by done.
      case_decide; [done|]. by rewrite lookup2_store.
    + right. eexists kind, name, st, _. rewrite Ha. by repeat split.
Qed.

(** Reading one line changes no object of the heap other than the active
    parser set: the parsers of every other section stay as they are. *)
Theorem ProcessLine_frame p line parts prev comment config p' config' l :
  ProcessLine p line parts prev comment config = Some (p', config') →
  l ≠ Active config → is_Some (heap p !! l) →
  heap p' !! l = heap p !! l.
Proof.
  intros Hproc Hne Hl.
  apply ProcessLine_cases in Hproc
    as [ps [->|(kind & name & st & roster & Hkind & Hst & Hr & -> & Ha)]].
  - simpl. by rewrite lookup_insert_ne.
  - destruct (fresh_store p (Active config) ps) as [Hfresh Hne'].
    simpl. rewrite lookup_insert_ne.
    + by rewrite lookup_insert_ne.
    + intros Heq. change (fresh (dom (heap (store p (Active config) ps))) = l) in Heq.
      rewrite <- Heq, Hfresh in Hl. by destruct Hl.
Qed.

Lemma set_Active_same config : set_Active (Active config) config = config.
Proof. by destruct config. Qed.

(** A line that the first accepting parser announces as the declaration
    of a section of a multi-instance kind registers the name under a new
    parser set of the kind, which becomes active: whether the name was
    registered before or not.  A section declared a second time is
    replaced by an empty one. *)
Theorem ProcessLine_declaration p line parts prev comment config pre a post a' kind name st :
  parsers (deref p (Active config)) = pre ++ a :: post →
  Forall (rejects line parts prev comment) pre →
  Parse a line parts prev comment = (a', Ok kind) →
  kind ∈ sections → SectionName a' = Some name → Parsers p !! kind = Some st →
  ∃ p' config' roster,
    ProcessLine p line parts prev comment config = Some (p', config')
    ∧ newParser kind = Some roster
    ∧ State config' = kind
    ∧ lookup2 p' kind name = Some (Active config')
    ∧ heap p' !! Active config' = Some roster
    ∧ heap p !! Active config' = None.
Proof.
  intros Hps Hpre Ha Hkind Hname Hst.
  pose proof (sections_nonempty_name _ Hkind) as Hne.
  unfold ProcessLine. rewrite Hps, (dispatch_first_match _ _ _ _ _ _ _ _ _ Hpre Ha).
  rewrite decide_False by done.
  set (ps := (parsed line parts prev comment <$> pre) ++ a' :: post).
  change (mkParser (Parsers p) (<[Active config := mkParserTypes ps]> (heap p)))
    with (store p (Active config) ps).
  destruct (changeState_sections (store p (Active config) ps) config a' kind name st)
    as (F & config2 & HF & Hchange & Hact & _); [done..|].
  exists (register (store p (Active config) ps) kind name st F), config2, F.
  split; [done|]. split; [done|].
  split; [by apply changeState_State in Hchange|].
  rewrite Hact. split; [|split].
  - rewrite lookup2_register by done. by rewrite decide_True.
  - simpl. by rewrite lookup_insert_eq.
  - apply fresh_store.
Qed.

(** A state that is not a multi-instance kind registers nothing: the new
    state is recorded, the defaults or the global singleton of the
    session becomes active when the state names it (a panic when the
    session has no pointer to it), and for any other state the active
    parser set stays. *)
Theorem ProcessLine_retarget p line parts prev comment config pre a post a' newState :
  parsers (deref p (Active config)) = pre ++ a :: post →
  Forall (rejects line parts prev comment) pre →
  Parse a line parts prev comment = (a', Ok newState) →
  newState ≠ "" → newState ∉ sections →
  ProcessLine p line parts prev comment config
  = l ← (if decide (newState = "defaults") then Defaults_ config
         else if decide (newState = "global") then Global_ config
         else Some (Active config));
    Some (store p (Active config) ((parsed line parts prev comment <$> pre) ++ a' :: post),
          set_Active l (set_State newState config)).
Proof.
  intros Hps Hpre Ha Hne Hkind.
  unfold ProcessLine. rewrite Hps, (dispatch_first_match _ _ _ _ _ _ _ _ _ Hpre Ha).
  rewrite decide_False by done.
  unfold changeState. simpl State. rewrite decide_False by done.
  unfold sections in Hkind. rewrite !not_elem_of_cons in Hkind.
  destruct Hkind as (?&?&?&?&?&?&?&?&?&_).
  case_decide; [done|]. case_decide; [done|].
  repeat (rewrite decide_False by done).
  cbn [mbind option_bind]. unfold store.
  by rewrite <- (set_Active_same (set_State newState config)) at 1.
Qed.

End registry_growth.

(** ** The registry after [ParseData] *)

Section after_ParseData.

Context {PT : Type} `{!ParserType PT} `{!Rosters PT} `{!Tokenizer}.

Implicit Types (p : Parser PT) (config : ConfiguredParsers) (ps : list PT).

(** [SectionsGet] fails with [SectionMissingErr] exactly when the kind is
    not in the registry; otherwise it lists the names registered under
    the kind, each once. *)
Theorem SectionsGet_names p sectionType :
  (SectionsGet p sectionType = Err SectionMissingErr ↔ Parsers p !! sectionType = None)
  ∧ ∀ names, SectionsGet p sectionType = Ok names →
      NoDup names
      ∧ (∀ name, name ∈ names ↔ is_Some (lookup2 p sectionType name))
      ∧ ∃ st, Parsers p !! sectionType = Some st ∧ length names = size st.
Proof.
  unfold SectionsGet, lookup2.
  destruct (Parsers p !! sectionType) as [st|]; (split; [done|]); [|done].
  intros names [= <-]. cbn [mbind option_bind]. split; [|split].
  - apply NoDup_fst_map_to_list.
  - intros name. rewrite list_elem_of_fmap. split.
    + intros [[n l] [-> Hin]]. apply elem_of_map_to_list in Hin. by exists l.
    + intros [l Hl]. exists (name, l). split; [done|]. by apply elem_of_map_to_list.
  - exists st. split; [done|]. by rewrite length_fmap, length_map_to_list.
Qed.

(** An invariant of [ProcessLine] is an invariant of the loop of
    [ParseData]. *)
Lemma ParseData_loop_inv (I : Parser PT → ConfiguredParsers → Prop) :
  (∀ p config line parts prev comment p' config',
     I p config → ProcessLine p line parts prev comment config = Some (p', config') →
     I p' config') →
  ∀ lines p config prev p' config' prev',
    I p config → ParseData_loop lines (p, config, prev) = Some (p', config', prev') →
    I p' config'.
Proof.
  intros Hstep lines.
  induction lines as [|line lines IH]; intros p config prev p' config' prev' HI Hloop.
  - by simplify_eq/=.
  - cbn [ParseData_loop] in Hloop.
    destruct (ParseData_line (p, config, prev) line) as [[[p1 config1] prev1]|] eqn:Hline;
      cbn [mbind option_bind] in Hloop; [|done].
    apply (IH _ _ _ _ _ _) in Hloop; [done|]. unfold ParseData_line in Hline.
    case_decide; [by simplify_eq|].
    destruct (StringSplitWithCommentIgnoreEmpty line [SP; TAB]) as [parts comment].
    destruct (bool_decide _) in Hline; [by simplify_eq|].
    destruct (ProcessLine _ _ _ _ _ _) as [[p2 config2]|] eqn:Hproc; [|done].
    simplify_eq/=. by eapply Hstep.
Qed.

Lemma not_in_sections_singleton k :
  k = Comments ∨ k = Defaults ∨ k = Global → k ∉ sections.
Proof.
  intros Hk Hin. apply sections_not_singleton in Hin. tauto.
Qed.

(** After [ParseData] the registry has the twelve kinds, and each
    singleton kind its one section. *)
Lemma ParseData_registry dat p e :
  ParseData dat = Some (p, e) →
  dom (Parsers p) = list_to_set (Comments :: Defaults :: Global :: sections)
  ∧ ∃ c d g,
      Parsers p !! Comments = Some {[CommentsSectionName := c]}
      ∧ Parsers p !! Defaults = Some {[DefaultSectionName := d]}
      ∧ Parsers p !! Global = Some {[GlobalSectionName := g]}.
Proof.
  unfold ParseData.
  destruct initParser as [p0 config0] eqn:Hinit.
  destruct (ParseData_loop _ _) as [[[p1 config1] prev1]|] eqn:Hloop; [|done].
  intros [= <- <-].
  split.
  - assert (dom (Parsers p1) = dom (Parsers p0)) as ->.
    { apply (ParseData_loop_inv (fun p _ => dom (Parsers p) = dom (Parsers p0)))
        in Hloop; [done| |done].
      intros p config line parts prev comment p' config' HI Hproc.
      by rewrite (ProcessLine_dom _ _ _ _ _ _ _ _ Hproc). }
    unfold initParser, alloc in Hinit. injection Hinit as <- <-.
    simpl. rewrite !dom_insert_L, dom_empty_L. unfold sections. simpl.
    apply set_eq. intros k. rewrite !elem_of_union, !elem_of_singleton, elem_of_empty.
    tauto.
  - rewrite !(ParseData_loop_Parsers_other _ _ _ _ _ _ _ _ Hloop)
      by (apply not_in_sections_singleton; tauto).
    unfold initParser, alloc in Hinit. injection Hinit as <- <-.
    simpl. eexists _, _, _.
    repeat split; by repeat (rewrite lookup_insert_ne by done); rewrite lookup_insert_eq.
Qed.

(** After [ParseData], whatever the text, the registry has the twelve
    kinds and no other: [SectionsGet] succeeds for them alone, and the
    three singleton kinds have the one section [data]. *)
Theorem ParseData_kinds dat p e :
  ParseData dat = Some (p, e) →
  (∀ kind, is_ok (SectionsGet p kind) = true
           ↔ kind ∈ Comments :: Defaults :: Global :: sections)
  ∧ SectionsGet p Comments = Ok [CommentsSectionName]
  ∧ SectionsGet p Defaults = Ok [DefaultSectionName]
  ∧ SectionsGet p Global = Ok [GlobalSectionName].
Proof.
  intros Hparse.
  destruct (ParseData_registry _ _ _ Hparse) as (Hdom & c & d & g & Hc & Hd & Hg).
  split.
  - intros kind. rewrite <- (elem_of_list_to_set (C := gset string)), <- Hdom, elem_of_dom.
    unfold SectionsGet. destruct (Parsers p !! kind); simpl.
    + split; [by eauto|done].
    + split; [done|]. by intros [? ?].
  - unfold SectionsGet. rewrite Hc, Hd, Hg, !map_to_list_singleton. done.
Qed.

Lemma closed_render p : closed (render p).
Proof.
  unfold render.
  repeat (apply closed_app; [apply closed_render_section|]).
  apply closed_concatStrings, Forall_fmap, Forall_forall.
  intros kind _. apply closed_render_kind.
Qed.

Lemma Parser_String_Some p T :
  Parser_String p = Some T →
  T = render p
  ∧ is_Some (lookup2 p Comments CommentsSectionName)
  ∧ is_Some (lookup2 p Defaults DefaultSectionName)
  ∧ is_Some (lookup2 p Global GlobalSectionName).
Proof.
  intros HT.
  assert (is_Some (lookup2 p Comments CommentsSectionName)
          ∧ is_Some (lookup2 p Defaults DefaultSectionName)
          ∧ is_Some (lookup2 p Global GlobalSectionName)) as (Hc & Hd & Hg).
  { unfold Parser_String in HT.
    destruct (lookup2 p Comments CommentsSectionName); [|done].
    destruct (lookup2 p Defaults DefaultSectionName); [|done].
    destruct (lookup2 p Global GlobalSectionName); [|done]. by eauto. }
  rewrite (Parser_String_render _ Hc Hd Hg) in HT. by simplify_eq.
Qed.

(** [String] panics exactly when one of the three singletons is missing
    from the registry; the multi-instance kinds and the heap never make
    it panic. *)
Theorem Parser_String_panics p :
  Parser_String p = None
  ↔ lookup2 p Comments CommentsSectionName = None
    ∨ lookup2 p Defaults DefaultSectionName = None
    ∨ lookup2 p Global GlobalSectionName = None.
Proof.
  split.
  - intros Hnone.
    destruct (lookup2 p Comments CommentsSectionName) as [c|] eqn:Hc; [|by left].
    destruct (lookup2 p Defaults DefaultSectionName) as [d|] eqn:Hd; [|by right; left].
    destruct (lookup2 p Global GlobalSectionName) as [g|] eqn:Hg; [|by right; right].
    rewrite Parser_String_render in Hnone by (by rewrite ?Hc, ?Hd, ?Hg). done.
  - intros Hmiss. destruct (Parser_String p) as [T|] eqn:HT; [|done].
    apply Parser_String_Some in HT as (_ & [c Hc] & [d Hd] & [g Hg]).
    rewrite Hc, Hd, Hg in Hmiss. by destruct Hmiss as [?|[?|?]].
Qed.

(** The text [String] returns is empty or ends with a line feed: every
    line it writes is terminated. *)
Theorem Parser_String_closed p T :
  Parser_String p = Some T → closed T.
Proof.
  intros HT. apply Parser_String_Some in HT as (-> & _). apply closed_render.
Qed.

(** After [ParseData], whatever the text, [String] does not panic: it
    returns the rendering of the registry. *)
Theorem ParseData_then_String dat p e :
  ParseData dat = Some (p, e) → Parser_String p = Some (render p).
Proof.
  intros Hparse.
  destruct (ParseData_registry _ _ _ Hparse) as (_ & c & d & g & Hc & Hd & Hg).
  apply Parser_String_render; unfold lookup2.
  - rewrite Hc. simpl. by rewrite lookup_singleton_eq.
  - rewrite Hd. simpl. by rewrite lookup_singleton_eq.
  - rewrite Hg. simpl. by rewrite lookup_singleton_eq.
Qed.

End after_ParseData.

(** ** How the operations on the registry compose *)

Section registry_operations.

Context {PT : Type} `{!ParserType PT} `{!Rosters PT} `{!Tokenizer}.

Implicit Types (p : Parser PT) (config : ConfiguredParsers) (ps : list PT).

(** A section that [SectionsCreate] has created is removed by
    [SectionsDelete] with no error, and the registry is then the one
    before the creation. *)
Theorem SectionsCreate_then_SectionsDelete p sectionType sectionName st c ps a :
  sectionType ∈ sections →
  Parsers p !! sectionType = Some st →
  st !! sectionName = None →
  lookup2 p Comments CommentsSectionName = Some c →
  dispatch (parsers (deref p c)) (sectionType +:+ " " +:+ sectionName)
    [sectionType; sectionName] [] "" = (ps, Some (a, sectionType)) →
  SectionName a = Some sectionName →
  ∃ p', SectionsCreate p sectionType sectionName = Some (p', None)
        ∧ snd (SectionsDelete p' sectionType sectionName) = None
        ∧ Parsers (fst (SectionsDelete p' sectionType sectionName)) = Parsers p.
Proof.
  intros Hkind Hk Hn Hc Hd Ha.
  destruct (SectionsCreate_fresh p _ _ _ _ _ _ Hkind Hk Hn Hc Hd Ha)
    as (l & roster & Hcreate).
  eexists. split; [exact Hcreate|].
  unfold SectionsDelete. simpl. rewrite lookup_insert_eq. simpl. split; [done|].
  rewrite insert_insert_eq, delete_insert_id by done. by apply insert_id.
Qed.

(** Deleting a section twice is deleting it once, and two deletions give
    the same parser in either order. *)
Theorem SectionsDelete_compose p k1 n1 k2 n2 :
  fst (SectionsDelete (fst (SectionsDelete p k1 n1)) k1 n1) = fst (SectionsDelete p k1 n1)
  ∧ fst (SectionsDelete (fst (SectionsDelete p k1 n1)) k2 n2)
    = fst (SectionsDelete (fst (SectionsDelete p k2 n2)) k1 n1).
Proof.
  unfold SectionsDelete. split.
  - destruct (Parsers p !! k1) as [st1|] eqn:H1; simpl; [|by rewrite H1].
    rewrite lookup_insert_eq. simpl. by rewrite insert_insert_eq, delete_delete_eq.
  - destruct (decide (k1 = k2)) as [->|Hne].
    + destruct (Parsers p !! k2) as [st|] eqn:Hst; simpl; [|by rewrite Hst].
      rewrite !lookup_insert_eq. simpl.
      by rewrite !insert_insert_eq, delete_delete.
    + destruct (Parsers p !! k1) as [st1|] eqn:H1;
        destruct (Parsers p !! k2) as [st2|] eqn:H2; simpl;
        rewrite ?lookup_insert_ne by done; rewrite ?H1, ?H2; simpl; try done.
      by rewrite insert_insert_ne.
Qed.

(** When no parser of the comments singleton accepts the line
    [<kind> <name>], [SectionsCreate] returns no error all the same, and
    no section is registered. *)
Theorem SectionsCreate_rejected p sectionType sectionName st c :
  Parsers p !! sectionType = Some st →
  st !! sectionName = None →
  lookup2 p Comments CommentsSectionName = Some c →
  Forall (rejects (sectionType +:+ " " +:+ sectionName) [sectionType; sectionName] [] "")
    (parsers (deref p c)) →
  ∃ p', SectionsCreate p sectionType sectionName = Some (p', None)
        ∧ Parsers p' = Parsers p
        ∧ lookup2 p' sectionType sectionName = None.
Proof.
  intros Hk Hn Hc Hall.
  unfold SectionsCreate. rewrite Hk, Hn, Hc. cbn [mbind option_bind].
  unfold ProcessLine. simpl Active. rewrite (dispatch_no_match _ _ _ _ _ Hall).
  cbn [mbind option_bind]. eexists. split; [done|]. split; [done|].
  unfold lookup2. simpl. by rewrite Hk.
Qed.

(** [SectionsDelete] removes the comments singleton with no error, and
    [SectionsCreate] then panics for every name that is free: it
    dereferences the pointer to the comments singleton. *)
Theorem SectionsCreate_without_Comments dat p e sectionType sectionName :
  ParseData dat = Some (p, e) →
  sectionType ∈ sections →
  lookup2 p sectionType sectionName = None →
  snd (SectionsDelete p Comments CommentsSectionName) = None
  ∧ SectionsCreate (fst (SectionsDelete p Comments CommentsSectionName))
      sectionType sectionName = None.
Proof.
  intros Hparse Hkind Hfree.
  destruct (ParseData_registry _ _ _ Hparse) as (Hdom & c & _ & _ & Hc & _ & _).
  assert (is_Some (Parsers p !! sectionType)) as [st Hst].
  { apply elem_of_dom. rewrite Hdom, elem_of_list_to_set, !elem_of_cons. tauto. }
  apply sections_not_singleton in Hkind as (Hne & _ & _).
  unfold SectionsDelete. rewrite Hc. simpl. split; [done|].
  unfold SectionsCreate, lookup2 in *. simpl.
  rewrite lookup_insert_ne by done. rewrite Hst in *. simpl in Hfree. rewrite Hfree.
  rewrite lookup_insert_eq. simpl. by rewrite lookup_delete_eq.
Qed.

(** Whatever key the loop of [HasParser] takes, the answer is the one of
    a section registered under the kind, when the kind has a section; and
    when it has exactly one, the answer is the one of that section. *)
Theorem HasParser_answer p sectionType attribute :
  (∀ st, Parsers p !! sectionType = Some st → st ≠ ∅ →
     ∀ b, HasParser p sectionType attribute b →
       ∃ name l, st !! name = Some l
                 ∧ b = ParserTypes_HasParser (deref p l) attribute)
  ∧ (∀ name l, Parsers p !! sectionType = Some {[name := l]} →
       ∀ b, HasParser p sectionType attribute b
            ↔ b = ParserTypes_HasParser (deref p l) attribute).
Proof.
  split.
  - intros st Hst Hne b. unfold HasParser, HasParser_at. rewrite Hst.
    intros (name & [[-> _]|[l Hl]] & ->); [done|].
    exists name, l. by rewrite Hl.
  - intros name l Hst b. unfold HasParser, HasParser_at. rewrite Hst. split.
    + intros (name' & [[Hemp _]|[l' Hl']] & ->).
      * by apply (f_equal (lookup name)) in Hemp; rewrite lookup_singleton_eq in Hemp.
      * apply lookup_singleton_Some in Hl' as [<- <-]. by rewrite lookup_singleton_eq.
    + intros ->. exists name. split.
      * right. rewrite lookup_singleton_eq. by eauto.
      * by rewrite lookup_singleton_eq.
Qed.

(** [SectionsCreate] keeps every section that is registered, and changes
    no parser-set object other than the one of the comments singleton,
    whose parsers it asks. *)
Theorem SectionsCreate_frame p sectionType sectionName p' e :
  SectionsCreate p sectionType sectionName = Some (p', e) →
  (∀ k n, is_Some (lookup2 p k n) → is_Some (lookup2 p' k n))
  ∧ (∀ l, lookup2 p Comments CommentsSectionName ≠ Some l → is_Some (heap p !! l) →
       heap p' !! l = heap p !! l).
Proof.
  unfold SectionsCreate.
  destruct (Parsers p !! sectionType) as [st|] eqn:Hst; [|by intros [= <- _]].
  destruct (st !! sectionName); [by intros [= <- _]|].
  destruct (lookup2 p Comments CommentsSectionName) as [c|]; [|done].
  cbn [mbind option_bind].
  destruct (ProcessLine _ _ _ _ _ _) as [[p1 config1]|] eqn:Hproc; [|done].
  cbn [mbind option_bind]. intros [= <- _].
  apply ProcessLine_cases in Hproc
    as [ps [->|(kind & name & st' & roster & Hkind & Hst' & Hr & -> & Ha)]];
    simpl Active in *.
  - split.
    + intros k n. by rewrite lookup2_store.
    + intros l Hne Hl. simpl. rewrite lookup_insert_ne; [done|]. by intros ->.
  - destruct (fresh_store p c ps) as [Hfresh Hne']. split.
    + intros k n Hkn. rewrite lookup2_register by done.
      case_decide; [done|]. by rewrite lookup2_store.
    + intros l Hne Hl. simpl. rewrite lookup_insert_ne.
      * rewrite lookup_insert_ne; [done|]. by intros ->.
      * intros Heq. change (fresh (dom (heap (store p c ps))) = l) in Heq.
        rewrite <- Heq, Hfresh in Hl. by destruct Hl.
Qed.

End registry_operations.

(** ** Deleting a section and rendering *)

Section deleting_and_rendering.

Context {PT : Type} `{!ParserType PT} `{!Rosters PT} `{!Tokenizer}.

Implicit Types (p : Parser PT) (config : ConfiguredParsers) (ps : list PT).

Lemma registered_delete_other p k n st k' n' :
  Parsers p !! k = Some st → (k', n') ≠ (k, n) →
  registered (mkParser (<[k := delete n st]> (Parsers p)) (heap p)) k' n'
  = registered p k' n'.
Proof.
  intros Hst Hne. unfold registered. by rewrite lookup2_delete_other.
Qed.

Lemma getSortedList_delete (st : gmap string loc) name l1 l2 :
  getSortedList (Some st) = l1 ++ name :: l2 →
  getSortedList (Some (delete name st)) = l1 ++ l2.
Proof.
  intros Hsplit.
  destruct (getSortedList_sorted (Some st)) as [Hs Hn].
  destruct (getSortedList_sorted (Some (delete name st))) as [Hs' Hn'].
  rewrite Hsplit in Hs, Hn.
  assert (NoDup (l1 ++ l2)) as Hn2.
  { apply NoDup_app in Hn as (H1 & H12 & H2). apply NoDup_cons in H2 as [Hx H2].
    apply NoDup_app. split; [done|]. split; [|done].
    intros x Hx1 Hx2. apply (H12 x Hx1). by right. }
  apply (StronglySorted_unique String.le); [done| |].
  - apply StronglySorted_app in Hs as (H12 & H1 & H2).
    apply StronglySorted_cons in H2 as [_ H2].
    apply StronglySorted_app. split; [|done].
    intros x y Hx Hy. apply H12; [done|by right].
  - apply NoDup_Permutation; [done|done|].
    intros n. rewrite getSortedList_elem. simpl.
    pose proof (getSortedList_elem (Some st) n) as Hel. rewrite Hsplit in Hel. simpl in Hel.
    rewrite elem_of_app, elem_of_cons in Hel. rewrite elem_of_app.
    apply NoDup_app in Hn as (H1 & H12 & H2). apply NoDup_cons in H2 as [Hx H2].
    destruct (decide (n = name)) as [->|Hne].
    + rewrite lookup_delete_eq. split; [by intros [? ?]|].
      intros [Hin|Hin]; [|done]. exfalso. apply (H12 name Hin). by left.
    + rewrite lookup_delete_ne by done. rewrite <- Hel. split; [|tauto].
      intros [?|[?|?]]; [tauto|done|tauto].
Qed.


(** The block of a section in the rendered text. *)
Lemma render_kind_delete p kind name st :
  Parsers p !! kind = Some st → is_Some (st !! name) →
  ∃ A1 A2,
    render_kind p kind
    = A1 +:+ render_section (kind +:+ " " +:+ name) true (registered p kind name) +:+ A2
    ∧ render_kind (mkParser (<[kind := delete name st]> (Parsers p)) (heap p)) kind
      = A1 +:+ A2.
Proof.
  intros Hst Hname.
  assert (name ∈ getSortedList (Some st)) as Hin by (by apply getSortedList_elem).
  apply list_elem_of_split in Hin as (l1 & l2 & Hsplit).
  destruct (getSortedList_sorted (Some st)) as [_ Hn]. rewrite Hsplit in Hn.
  apply NoDup_app in Hn as (_ & H12 & H2). apply NoDup_cons in H2 as [Hx _].
  set (f := fun n => render_section (kind +:+ " " +:+ n) true (registered p kind n)).
  exists (concatStrings (f <$> l1)), (concatStrings (f <$> l2)).
  unfold render_kind. simpl. rewrite lookup_insert_eq, Hst, Hsplit.
  rewrite (getSortedList_delete _ _ _ _ Hsplit). split.
  - by rewrite fmap_app, fmap_cons, concatStrings_app, concatStrings_cons.
  - rewrite fmap_app, concatStrings_app. f_equal; f_equal.
    all: apply Forall_fmap_ext, Forall_forall; intros n Hn; unfold f.
    all: rewrite (registered_delete_other p kind name st); [done|done|].
    all: intros [= ->].
    + apply (H12 name Hn). by left.
    + done.
Qed.

Lemma render_kind_delete_other p kind name st k :
  Parsers p !! kind = Some st → k ≠ kind →
  render_kind (mkParser (<[kind := delete name st]> (Parsers p)) (heap p)) k
  = render_kind p k.
Proof.
  intros Hst Hne. unfold render_kind. simpl. rewrite lookup_insert_ne by done.
  f_equal. apply Forall_fmap_ext, Forall_forall. intros n _.
  rewrite (registered_delete_other p kind name st) by (done || by intros [= -> _]).
  done.
Qed.

Lemma render_kinds_delete p kind name st kinds :
  Parsers p !! kind = Some st → is_Some (st !! name) →
  NoDup kinds → kind ∈ kinds →
  ∃ B1 B2,
    concatStrings (render_kind p <$> kinds)
    = B1 +:+ render_section (kind +:+ " " +:+ name) true (registered p kind name) +:+ B2
    ∧ concatStrings
        (render_kind (mkParser (<[kind := delete name st]> (Parsers p)) (heap p)) <$> kinds)
      = B1 +:+ B2.
Proof.
  intros Hst Hname Hnd Hin.
  induction kinds as [|k kinds IH]; [by apply elem_of_nil in Hin|].
  apply NoDup_cons in Hnd as [Hk Hnd]. rewrite !fmap_cons, !concatStrings_cons.
  destruct (decide (k = kind)) as [->|Hne].
  - destruct (render_kind_delete p kind name st Hst Hname) as (A1 & A2 & -> & ->).
    exists A1, (A2 +:+ concatStrings (render_kind p <$> kinds)). split.
    + by rewrite !string_app_assoc.
    + rewrite !string_app_assoc. do 3 f_equal.
      apply Forall_fmap_ext, Forall_forall. intros k Hin'.
      apply (render_kind_delete_other p kind name st); [done|]. by intros ->.
  - apply elem_of_cons in Hin as [->|Hin]; [done|].
    destruct (IH Hnd Hin) as (B1 & B2 & -> & ->).
    rewrite (render_kind_delete_other p kind name st) by done.
    exists (render_kind p k +:+ B1), B2. by rewrite !string_app_assoc.
Qed.

Lemma NoDup_sections : NoDup sections.
Proof.
  unfold sections. repeat (apply NoDup_cons; split;
    [rewrite ?not_elem_of_cons; repeat (split; [discriminate|]); apply not_elem_of_nil|]).
  apply NoDup_nil_2.
Qed.

(** Deleting a section of a multi-instance kind removes exactly the block
    of that section from the text [String] returns: what is written
    before the block and after it stays, in the same order. *)
Theorem SectionsDelete_then_String p kind name T :
  kind ∈ sections → is_Some (lookup2 p kind name) →
  Parser_String p = Some T →
  ∃ before after,
    T = before
        +:+ render_section (kind +:+ " " +:+ name) true (registered p kind name)
        +:+ after
    ∧ Parser_String (fst (SectionsDelete p kind name)) = Some (before +:+ after).
Proof.
  intros Hkind [l Hl] HT.
  apply lookup2_Some in Hl as (st & Hst & Hname).
  apply Parser_String_Some in HT as (-> & Hc & Hd & Hg).
  destruct (sections_not_singleton _ Hkind) as (Hnc & Hnd & Hng).
  unfold SectionsDelete. rewrite Hst. cbn [fst].
  set (p' := mkParser (<[kind := delete name st]> (Parsers p)) (heap p)).
  rewrite (Parser_String_render p');
    [|unfold p'; rewrite lookup2_delete_other by (done || by intros [= <- _]); done..].
  unfold render.
  destruct (render_kinds_delete p kind name st sections Hst) as (B1 & B2 & -> & HB);
    [by eauto|apply NoDup_sections|done|].
  fold p' in HB. rewrite HB.
  unfold p'. rewrite !(registered_delete_other p kind name st)
    by (done || by intros [= <- _]).
  exists (render_section "" false (registered p Comments CommentsSectionName)
          +:+ render_section "defaults" true (registered p Defaults DefaultSectionName)
          +:+ render_section "global" true (registered p Global GlobalSectionName)
          +:+ B1), B2.
  by rewrite !string_app_assoc.
Qed.

End deleting_and_rendering.

(** ** The number of a [maxconn] line *)

Section decimal.

Import strconv.

Implicit Types (d : Decimal.uint) (acc : positive).

Lemma of_uint_acc_ge d acc : Z.pos acc ≤ Z.pos (Pos.of_uint_acc d acc).
Proof.
  revert acc. induction d; intros acc; simpl; [lia|..];
    (etrans; [|apply IHd]); lia.
Qed.

Lemma maxUint64_eq : maxUint64 = 18446744073709551615.
Proof. reflexivity. Qed.

(** One round of the digit loop: the two range tests come to one. *)
Lemma parse_digits_step c s n k :
  is_digit c = true → digit_val c = k → 0 ≤ n → 0 ≤ k ≤ 9 →
  parse_digits (String c s) n
  = if maxUint64 <? n * 10 + k then inl ErrRange else parse_digits s (n * 10 + k).
Proof.
  intros Hc Hk Hn Hk9. cbn [parse_digits]. rewrite Hc, Hk. cbn [negb].
  rewrite maxUint64_eq.
  change (18446744073709551615 / 10 + 1) with 1844674407370955162.
  destruct (Z.leb_spec 1844674407370955162 n);
    destruct (Z.ltb_spec 18446744073709551615 (n * 10 + k)); try done; lia.
Qed.

Lemma parse_digits_acc d acc :
  Z.pos acc ≤ maxUint64 →
  parse_digits (NilEmpty.string_of_uint d) (Z.pos acc)
  = in_uint64 (Z.pos (Pos.of_uint_acc d acc)).
Proof.
  revert acc. unfold in_uint64.
  induction d as [|d IH|d IH|d IH|d IH|d IH|d IH|d IH|d IH|d IH|d IH];
    intros acc Hacc; cbn [NilEmpty.string_of_uint Pos.of_uint_acc].
  { cbn [parse_digits]. by destruct (Z.ltb_spec maxUint64 (Z.pos acc)); [lia|]. }
  all: match goal with
       | |- context [parse_digits (String ?c _) _] =>
           let k := eval vm_compute in (digit_val c) in
           rewrite (parse_digits_step c _ _ k eq_refl eq_refl) by lia
       end.
  all: match goal with
       | |- context [Pos.of_uint_acc ?d' ?a] =>
           pose proof (of_uint_acc_ge d' a) as Hge;
           match goal with
           | |- context [parse_digits _ ?n] => replace n with (Z.pos a) by lia
           end;
           destruct (Z.ltb_spec maxUint64 (Z.pos a)) as [Hlt|Hle];
           [destruct (Z.ltb_spec maxUint64 (Z.pos (Pos.of_uint_acc d' a))); [done|lia]
           |by apply IH]
       end.
Qed.

(** The digit loop on the digits of a number returns the number, or a
    range error when the number is above [maxUint64]. *)
Lemma parse_digits_uint d :
  parse_digits (NilEmpty.string_of_uint d) 0 = in_uint64 (Z.of_N (Pos.of_uint d)).
Proof.
  induction d as [|d IH|d IH|d IH|d IH|d IH|d IH|d IH|d IH|d IH|d IH];
    cbn [NilEmpty.string_of_uint Pos.of_uint]; [done|..].
  all: match goal with
       | |- context [parse_digits (String ?c _) _] =>
           let k := eval vm_compute in (digit_val c) in
           rewrite (parse_digits_step c _ _ k eq_refl eq_refl) by lia
       end.
  all: change (maxUint64 <? 0 * 10 + _) with false; cbv iota.
  { exact IH. }
  all: cbn [Z.of_N]; by rewrite <- parse_digits_acc by (rewrite maxUint64_eq; lia).
Qed.

Lemma string_of_uint_digits d :
  Forall (fun c => is_digit c = true) (list_ascii_of_string (NilEmpty.string_of_uint d)).
Proof. induction d; simpl; constructor; done. Qed.

Lemma ParseInt_uint d :
  d ≠ Decimal.Nil →
  ParseInt (NilEmpty.string_of_uint d)
  = if Z.of_N (Pos.of_uint d) <? 2 ^ 63 then inr (Z.of_N (Pos.of_uint d))
    else inl (mkNumError "ParseInt" (NilEmpty.string_of_uint d) ErrRange).
Proof.
  intros Hd. pose proof (parse_digits_uint d) as Hparse.
  destruct d; [done|..]; cbn [NilEmpty.string_of_uint] in *.
  all: unfold ParseInt, ParseUint; cbn [Ascii.eqb Bool.eqb orb andb negb].
  all: rewrite Hparse; unfold in_uint64; rewrite maxUint64_eq.
  all: match goal with
       | |- context [Z.ltb _ ?un] =>
           destruct (Z.ltb_spec 18446744073709551615 un);
           destruct (Z.leb_spec (2 ^ 63) un); destruct (Z.ltb_spec un (2 ^ 63));
           try done; lia
       end.
Qed.

Lemma ParseInt_neg d :
  d ≠ Decimal.Nil →
  ParseInt (String "-" (NilEmpty.string_of_uint d))
  = if Z.of_N (Pos.of_uint d) <=? 2 ^ 63 then inr (- Z.of_N (Pos.of_uint d))
    else inl (mkNumError "ParseInt" (String "-" (NilEmpty.string_of_uint d)) ErrRange).
Proof.
  intros Hd. pose proof (parse_digits_uint d) as Hparse.
  unfold ParseInt. cbn [Ascii.eqb Bool.eqb orb andb negb].
  replace (ParseUint (NilEmpty.string_of_uint d))
    with (in_uint64 (Z.of_N (Pos.of_uint d)))
    by (rewrite <- Hparse; by destruct d).
  unfold in_uint64; rewrite maxUint64_eq.
  destruct (Z.ltb_spec 18446744073709551615 (Z.of_N (Pos.of_uint d)));
    destruct (Z.ltb_spec (2 ^ 63) (Z.of_N (Pos.of_uint d)));
    destruct (Z.leb_spec (Z.of_N (Pos.of_uint d)) (2 ^ 63)); try done; lia.
Qed.

Lemma fmt_d_pos p : fmt_d (Z.pos p) = NilEmpty.string_of_uint (Pos.to_uint p).
Proof.
  unfold fmt_d. simpl. pose proof (DecimalPos.Unsigned.to_uint_nonnil p).
  by destruct (Pos.to_uint p).
Qed.

Lemma fmt_d_neg p : fmt_d (Z.neg p) = String "-" (NilEmpty.string_of_uint (Pos.to_uint p)).
Proof.
  unfold fmt_d. simpl. pose proof (DecimalPos.Unsigned.to_uint_nonnil p).
  by destruct (Pos.to_uint p).
Qed.

(** [ParseInt] reads the decimal form of a number back when the number
    is a 64-bit integer, and reports a range error otherwise. *)
Lemma ParseInt_fmt_d v :
  ParseInt (fmt_d v)
  = if (- 2 ^ 63 <=? v) && (v <? 2 ^ 63) then inr v
    else inl (mkNumError "ParseInt" (fmt_d v) ErrRange).
Proof.
  destruct v as [|p|p].
  - reflexivity.
  - rewrite fmt_d_pos, ParseInt_uint by apply DecimalPos.Unsigned.to_uint_nonnil.
    rewrite DecimalPos.Unsigned.of_to. cbn [Z.of_N].
    by destruct (Z.leb_spec (- 2 ^ 63) (Z.pos p)); [|lia].
  - rewrite fmt_d_neg, ParseInt_neg by apply DecimalPos.Unsigned.to_uint_nonnil.
    rewrite DecimalPos.Unsigned.of_to. cbn [Z.of_N].
    destruct (Z.leb_spec (Z.pos p) (2 ^ 63)); destruct (Z.leb_spec (- 2 ^ 63) (Z.neg p));
      destruct (Z.ltb_spec (Z.neg p) (2 ^ 63)); try done; lia.
Qed.

(** The decimal form of a number is one token. *)
Lemma fmt_d_token v :
  fmt_d v ≠ "" ∧ Forall (fun c => c ≠ SP) (list_ascii_of_string (fmt_d v)).
Proof.
  assert (∀ d, Forall (fun c => c ≠ SP)
                 (list_ascii_of_string (NilEmpty.string_of_uint d))) as Hsp.
  { intros d. eapply Forall_impl; [apply string_of_uint_digits|].
    by intros c Hc ->. }
  destruct v as [|p|p].
  - split; [done|]. by repeat constructor.
  - rewrite fmt_d_pos. split; [|done].
    pose proof (DecimalPos.Unsigned.to_uint_nonnil p). by destruct (Pos.to_uint p).
  - rewrite fmt_d_neg. split; [done|]. by constructor.
Qed.

Lemma fields_from_single f s :
  s ≠ "" → Forall (fun c => f c = false) (list_ascii_of_string s) →
  strings.fields_from f s None = [s].
Proof.
  destruct s as [|c s]; [done|]. intros _ Hall. apply Forall_cons in Hall as [Hc Hs].
  cbn [strings.fields_from]. rewrite Hc.
  rewrite <- (string_app_nil_r s) at 1. rewrite fields_from_no_sep by done.
  cbn [strings.fields_from]. rewrite rev_app_distr, rev_involutive. simpl.
  by rewrite string_of_list_ascii_of_string.
Qed.

(** The line [maxconn <token>]: its prefix and its tokens. *)
Lemma maxconn_line_tokens s :
  s ≠ "" → Forall (fun c => c ≠ SP) (list_ascii_of_string s) →
  strings.HasPrefix ("maxconn " +:+ s) "maxconn" = true
  ∧ StringSplitIgnoreEmpty ("maxconn " +:+ s) [SP] = ["maxconn"; s].
Proof.
  intros Hne Hsp. split; [done|].
  unfold StringSplitIgnoreEmpty, strings.FieldsFunc.
  rewrite !string_app_String. cbn [strings.fields_from existsb Ascii.eqb Bool.eqb orb andb].
  cbn [rev app string_of_list_ascii]. f_equal.
  change ("" +:+ s) with s. apply fields_from_single; [done|].
  eapply Forall_impl; [exact Hsp|]. intros c Hc. cbn [existsb].
  rewrite orb_false_r. by apply Ascii.eqb_neq.
Qed.

(** What [String] renders of a [MaxConn] is read back by [Parse]: the
    line is two spaces of indentation and then [maxconn <value>], and
    [Parse], given the line without the indentation, stores the same
    value and marks the parser valid, whatever it held; given the line
    with the indentation it rejects it. *)
Theorem MaxConn_String_Parse (m m0 : MaxConn.MaxConn) (wholeLine previousLine : string) :
  - 2 ^ 63 ≤ MaxConn.Value m < 2 ^ 63 →
  MaxConn.String_ m = ["  " +:+ ("maxconn " +:+ fmt_d (MaxConn.Value m))]
  ∧ MaxConn.Parse m0 ("maxconn " +:+ fmt_d (MaxConn.Value m)) wholeLine previousLine
    = (MaxConn.mkMaxConn (MaxConn.Value m) true, Ok "")
  ∧ MaxConn.Parse m0 ("  " +:+ ("maxconn " +:+ fmt_d (MaxConn.Value m)))
      wholeLine previousLine
    = (m0, Err (ParseErr (mkParseError "SectionName"
                            ("  " +:+ ("maxconn " +:+ fmt_d (MaxConn.Value m))) ""))).
Proof.
  intros Hrange. split; [done|]. split; [|done].
  destruct (fmt_d_token (MaxConn.Value m)) as [Hne Hsp].
  destruct (maxconn_line_tokens _ Hne Hsp) as [Hpre Htok].
  unfold MaxConn.Parse. rewrite Hpre, Htok, ParseInt_fmt_d.
  destruct (Z.leb_spec (- 2 ^ 63) (MaxConn.Value m)); [|lia].
  by destruct (Z.ltb_spec (MaxConn.Value m) (2 ^ 63)); [|lia].
Qed.

(** A [maxconn] line whose number is not a 64-bit integer is rejected
    with the range error of [ParseInt], and the parser keeps what it
    held. *)
Theorem MaxConn_Parse_out_of_range (m : MaxConn.MaxConn) (v : Z)
    (wholeLine previousLine : string) :
  v < - 2 ^ 63 ∨ 2 ^ 63 ≤ v →
  MaxConn.Parse m ("maxconn " +:+ fmt_d v) wholeLine previousLine
  = (m, Err (ParseErr (mkParseError "SectionName" ("maxconn " +:+ fmt_d v)
                         (NumError_Error (mkNumError "ParseInt" (fmt_d v) ErrRange))))).
Proof.
  intros Hrange.
  destruct (fmt_d_token v) as [Hne Hsp].
  destruct (maxconn_line_tokens _ Hne Hsp) as [Hpre Htok].
  unfold MaxConn.Parse. rewrite Hpre, Htok, ParseInt_fmt_d.
  destruct (Z.leb_spec (- 2 ^ 63) v); destruct (Z.ltb_spec v (2 ^ 63)); try done; lia.
Qed.

End decimal.

(** ** The attributes of a section *)

Section attribute_properties.

Context {PT : Type} `{!ParserType PT} `{!ParserAccess PT}.

Implicit Types (p : Parser PT) (ps : list PT).

Lemma lookup2_None p k n :
  lookup2 p k n = None ↔
  Parsers p !! k = None ∨ ∃ st, Parsers p !! k = Some st ∧ st !! n = None.
Proof.
  unfold lookup2. destruct (Parsers p !! k) as [st|]; simpl.
  - split; [by eauto|]. by intros [?|(? & [= <-] & ?)].
  - split; [by left|done].
Qed.

(** On a section that is not registered, be it the kind or the name that
    is missing, [Get], [GetOne], [Set], [Delete] and [Insert] fail with
    [SectionMissingErr] and leave the parser as it is. *)
Theorem accessors_missing_section p sectionType sectionName attribute data
    createIfNotExist index :
  lookup2 p sectionType sectionName = None →
  Parser_Get p sectionType sectionName attribute createIfNotExist
    = (p, Err SectionMissingErr)
  ∧ Parser_GetOne p sectionType sectionName attribute index = (p, Err SectionMissingErr)
  ∧ Parser_Set p sectionType sectionName attribute data index = (p, Some SectionMissingErr)
  ∧ Parser_Delete p sectionType sectionName attribute index = (p, Some SectionMissingErr)
  ∧ Parser_Insert p sectionType sectionName attribute data index
    = (p, Some SectionMissingErr).
Proof.
  intros Hmiss. apply lookup2_None in Hmiss as [Hk|(st & Hk & Hn)];
    unfold Parser_Get, Parser_GetOne, Parser_Set, Parser_Delete, Parser_Insert;
    by rewrite Hk, ?Hn.
Qed.

Lemma setIndex_negative i : i < 0 → setIndex [i] = setIndex [].
Proof. intros Hi. unfold setIndex. by destruct (Z.ltb_spec (-1) i); [lia|]. Qed.

(** Of the variadic arguments only the first counts: the flags and the
    indices after it are not read, a first flag [false] is as no flag,
    and a first index below zero is as no index. *)
Theorem accessors_variadic p sectionType sectionName attribute data b flags i index :
  Parser_Get p sectionType sectionName attribute (b :: flags)
    = Parser_Get p sectionType sectionName attribute [b]
  ∧ Parser_Get p sectionType sectionName attribute [false]
    = Parser_Get p sectionType sectionName attribute []
  ∧ Parser_GetOne p sectionType sectionName attribute (i :: index)
    = Parser_GetOne p sectionType sectionName attribute [i]
  ∧ Parser_Set p sectionType sectionName attribute data (i :: index)
    = Parser_Set p sectionType sectionName attribute data [i]
  ∧ Parser_Delete p sectionType sectionName attribute (i :: index)
    = Parser_Delete p sectionType sectionName attribute [i]
  ∧ Parser_Insert p sectionType sectionName attribute data (i :: index)
    = Parser_Insert p sectionType sectionName attribute data [i]
  ∧ (i < 0 →
       Parser_GetOne p sectionType sectionName attribute [i]
         = Parser_GetOne p sectionType sectionName attribute []
       ∧ Parser_Set p sectionType sectionName attribute data [i]
         = Parser_Set p sectionType sectionName attribute data []
       ∧ Parser_Delete p sectionType sectionName attribute [i]
         = Parser_Delete p sectionType sectionName attribute []
       ∧ Parser_Insert p sectionType sectionName attribute data [i]
         = Parser_Insert p sectionType sectionName attribute data []).
Proof.
  unfold Parser_Get, Parser_GetOne, Parser_Set, Parser_Delete, Parser_Insert.
  repeat (split; [done|]). intros Hi. by rewrite !(setIndex_negative i Hi).
Qed.

Lemma get_loop_first_match pre a post attribute createIfNotExist :
  Forall (fun q => GetParserName q ≠ attribute) pre →
  GetParserName a = attribute →
  get_loop (pre ++ a :: post) attribute createIfNotExist
  = (pre ++ (ParserType_Get a createIfNotExist).1 :: post,
     (ParserType_Get a createIfNotExist).2).
Proof.
  intros Hpre Ha. induction Hpre as [|q pre Hq _ IH]; simpl.
  - rewrite decide_True by done. by destruct (ParserType_Get a createIfNotExist).
  - rewrite decide_False by done. by rewrite IH.
Qed.

Lemma get_loop_not_found ps attribute createIfNotExist :
  Forall (fun q => GetParserName q ≠ attribute) ps →
  get_loop ps attribute createIfNotExist = (ps, Err AttributeNotFoundErr).
Proof.
  intros Hps. induction Hps as [|q ps Hq _ IH]; simpl; [done|].
  rewrite decide_False by done. by rewrite IH.
Qed.

(** [get] and [getOrCreate] ask the first parser of the set that has the
    name of the attribute, and that parser alone: the parsers before it
    and after it stay as they are, later parsers of the same name
    included.  [get] never asks for the value to be created. *)
Theorem get_first_match p data key attribute createIfNotExist l pre a post :
  data !! key = Some l →
  parsers (deref p l) = pre ++ a :: post →
  Forall (fun q => GetParserName q ≠ attribute) pre →
  GetParserName a = attribute →
  get p data key attribute
    = Some (update p l (mkParserTypes (pre ++ (ParserType_Get a false).1 :: post)),
            (ParserType_Get a false).2)
  ∧ getOrCreate p data key attribute createIfNotExist
    = Some (update p l
              (mkParserTypes (pre ++ (ParserType_Get a createIfNotExist).1 :: post)),
            (ParserType_Get a createIfNotExist).2).
Proof.
  intros Hkey Hps Hpre Ha. unfold get, getOrCreate. rewrite Hkey. simpl.
  by rewrite Hps, !get_loop_first_match.
Qed.

(** [get] and [getOrCreate] panic when the key is not in the map, and
    fail with [AttributeNotFoundErr], the parser left as it is, when no
    parser of the set has the name of the attribute. *)
Theorem get_not_found p data key attribute createIfNotExist :
  (data !! key = None →
     get p data key attribute = None
     ∧ getOrCreate p data key attribute createIfNotExist = None)
  ∧ (∀ l, data !! key = Some l → is_Some (heap p !! l) →
       Forall (fun q => GetParserName q ≠ attribute) (parsers (deref p l)) →
       get p data key attribute = Some (p, Err AttributeNotFoundErr)
       ∧ getOrCreate p data key attribute createIfNotExist
         = Some (p, Err AttributeNotFoundErr)).
Proof.
  split.
  - intros Hkey. unfold get, getOrCreate. by rewrite Hkey.
  - intros l Hkey [s Hs] Hall. unfold get, getOrCreate. rewrite Hkey. simpl.
    rewrite !get_loop_not_found by done.
    assert (update p l (mkParserTypes (parsers (deref p l))) = p) as ->; [|done].
    unfold update, deref. rewrite (lookup_total_correct _ _ _ Hs).
    destruct p as [P h], s as [ps]; simpl in *. by rewrite insert_id.
Qed.

End attribute_properties.

(** ** Files *)

Section file_properties.

Context {PT : Type} `{!ParserType PT} `{!Rosters PT} `{!Tokenizer} `{!FileSystem}.

Implicit Types (p : Parser PT) (fs : FS).

Lemma ParseData_error dat p (e : option error) :
  ParseData dat = Some (p, e) → e = None.
Proof.
  unfold ParseData. destruct initParser as [p0 config0].
  destruct (ParseData_loop _ _) as [[[p1 config1] prev1]|]; [|done].
  by intros [= _ <-].
Qed.

(** The only error [LoadData] returns is the one of the read of the
    file, and the receiver is then as it was: its registry is not
    replaced, and no line of a file that was read is ever reported. *)
Theorem LoadData_error fs p filename p' e :
  LoadData fs p filename = Some (p', Some e) →
  p' = p ∧ ∃ err, ReadFile fs filename = inl err ∧ e = inl err.
Proof.
  unfold LoadData. destruct (ReadFile fs filename) as [err|dat].
  - intros [= <- <-]. by eauto.
  - destruct (ParseData dat) as [[p1 e1]|] eqn:Hparse; [|done].
    apply ParseData_error in Hparse as ->. done.
Qed.

(** A parser that [ParseData] has filled can be saved: [Save] does not
    panic, and makes one write, of the rendering of the registry, to the
    file of the name with the permission [0644]; what it returns is the
    error of that write. *)
Theorem Save_after_ParseData fs dat p e filename :
  ParseData dat = Some (p, e) →
  Save fs p filename = Some (WriteFile fs filename (render p) 420).
Proof.
  intros Hparse.
  destruct (ParseData_registry _ _ _ Hparse) as (_ & c & d & g & Hc & Hd & Hg).
  unfold Save. rewrite Parser_String_render; [done|..]; unfold lookup2.
  - rewrite Hc. simpl. by rewrite lookup_singleton_eq.
  - rewrite Hd. simpl. by rewrite lookup_singleton_eq.
  - rewrite Hg. simpl. by rewrite lookup_singleton_eq.
Qed.

End file_properties.

(** ** [ParseData] returns *)

Section totality.

Context {PT : Type} `{!ParserType PT} `{!Rosters PT} `{!Tokenizer}.

Implicit Types (p : Parser PT) (config : ConfiguredParsers) (ps : list PT).

(** The parser [dispatch] reports is one of the set after its [Parse]. *)
Lemma dispatch_hit ps line parts prev comment ps' a newState :
  dispatch ps line parts prev comment = (ps', Some (a, newState)) →
  ∃ q, q ∈ ps ∧ Parse q line parts prev comment = (a, Ok newState).
Proof.
  revert ps'. induction ps as [|q ps IH]; intros ps' Hd; simpl in Hd; [done|].
  destruct (Parse q line parts prev comment) as [q' [s|e]] eqn:Hq.
  - injection Hd as <- <- <-. exists q. split; [by left|done].
  - destruct (dispatch ps line parts prev comment) as [rest hit].
    injection Hd as <- ->. destruct (IH _ eq_refl) as (q0 & Hin & Hq0).
    exists q0. split; [by right|done].
Qed.

Lemma changeState_total p config a newState :
  session_ok p config → newState ≠ "" →
  (newState ∈ sections → is_Some (SectionName a)) →
  ∃ p' config', changeState p config a newState = Some (p', config')
                ∧ session_ok p' config'.
Proof.
  intros (Hkinds & [d Hd] & [g Hg]) Hne Hname.
  destruct (decide (newState ∈ sections)) as [Hin|Hout].
  - destruct (Hname Hin) as [name Hn]. destruct (Hkinds _ Hin) as [st Hst].
    destruct (changeState_sections p config a newState name st)
      as (F & config2 & _ & -> & _ & Hd2 & Hg2); [done..|].
    eexists _, _. split; [done|]. split; [|by rewrite Hd2, Hg2, Hd, Hg; eauto].
    intros kind Hkind. simpl. destruct (decide (kind = newState)) as [->|Hk].
    + rewrite lookup_insert_eq. by eauto.
    + rewrite lookup_insert_ne by done. by apply Hkinds.
  - unfold changeState. simpl State. rewrite decide_False by done.
    unfold sections in Hout. rewrite !not_elem_of_cons in Hout.
    destruct Hout as (?&?&?&?&?&?&?&?&?&_).
    case_decide; [|case_decide]; simpl; rewrite ?Hd, ?Hg; simpl.
    1-2: eexists _, _; split; [done|]; split; [done|]; simpl; by rewrite Hd, Hg; eauto.
    repeat (rewrite decide_False by done).
    eexists _, _. split; [done|]. split; [done|]. simpl. by rewrite Hd, Hg; eauto.
Qed.

Lemma ParseData_line_total p config prev line :
  session_ok p config →
  (∀ q prev a kind,
     Parse q line (tokens line).1 prev (tokens line).2 = (a, Ok kind) →
     kind ∈ sections → is_Some (SectionName a)) →
  ∃ p' config' prev',
    ParseData_line (p, config, prev) line = Some (p', config', prev')
    ∧ session_ok p' config'.
Proof.
  intros Hok Hline. unfold ParseData_line. unfold tokens in Hline.
  case_decide; [by eauto|].
  destruct (StringSplitWithCommentIgnoreEmpty line [SP; TAB]) as [parts comment].
  simpl in Hline.
  set (parts' := if bool_decide (length parts = 0%nat) && negb (bool_decide (comment = ""))
                 then [""] else parts) in *.
  destruct (bool_decide (length parts' = 0%nat)); [by eauto|].
  unfold ProcessLine.
  destruct (dispatch _ _ _ _ _) as [ps [[a newState]|]] eqn:Hd; simpl; [|by eauto].
  apply dispatch_hit in Hd as (q & _ & Hq).
  case_decide; simpl; [by eauto|].
  destruct (changeState_total
              (mkParser (Parsers p) (<[Active config := mkParserTypes ps]> (heap p)))
              config a newState) as (p' & config' & -> & Hok'); [done|done|by eauto|].
  simpl. by eauto.
Qed.

Lemma ParseData_loop_total lines p config prev :
  session_ok p config →
  Forall (fun line =>
            ∀ q prev a kind,
              Parse q line (tokens line).1 prev (tokens line).2 = (a, Ok kind) →
              kind ∈ sections → is_Some (SectionName a)) lines →
  is_Some (ParseData_loop lines (p, config, prev)).
Proof.
  intros Hok Hlines. revert p config prev Hok.
  induction Hlines as [|line lines Hline _ IH]; intros p config prev Hok; [by eexists|].
  cbn [ParseData_loop].
  destruct (ParseData_line_total p config prev line Hok Hline)
    as (p' & config' & prev' & -> & Hok').
  cbn [mbind option_bind]. by apply IH.
Qed.

Lemma session_ok_init : session_ok (fst initParser) (snd initParser).
Proof.
  unfold initParser, alloc. simpl. split; [|by eauto].
  intros kind Hkind. unfold sections in Hkind.
  repeat (apply elem_of_cons in Hkind as [->|Hkind]);
    [..|by apply elem_of_nil in Hkind].
  all: cbv [UserList Peers Mailers Resolvers Cache Frontends Backends Listen Program].
  all: cbn [Parsers fst].
  all: repeat (rewrite lookup_insert_ne by done); rewrite lookup_insert_eq; by eauto.
Qed.

(** [ParseData] returns, with no error, on every text whose lines are
    such that a parser announcing a multi-instance kind on one of them
    is a section parser holding a name: the two type assertions of
    [ProcessLine] are the only way it can panic. *)
Theorem ParseData_total dat :
  (∀ line, line ∈ lines_of dat →
     ∀ q prev a kind,
       Parse q line (tokens line).1 prev (tokens line).2 = (a, Ok kind) →
       kind ∈ sections → is_Some (SectionName a)) →
  ∃ p, ParseData dat = Some (p, None).
Proof.
  intros Hlines. unfold ParseData.
  pose proof session_ok_init as Hok.
  destruct initParser as [p0 config0]. simpl in Hok.
  destruct (ParseData_loop_total (StringSplitIgnoreEmpty dat [LF]) p0 config0 [] Hok)
    as [[[p1 config1] prev1] ->].
  - apply Forall_forall. exact Hlines.
  - simpl. by eauto.
Qed.

Lemma ParseData_loop_blank lines (st : Parser PT * ConfiguredParsers * list string) :
  Forall (fun line => tokens line = ([], "")) lines →
  ParseData_loop lines st = Some st.
Proof.
  intros Hlines. induction Hlines as [|line lines Hline _ IH]; [done|].
  cbn [ParseData_loop].
  assert (ParseData_line st line = Some st) as ->; [|done].
  destruct st as [[p config] prev]. unfold ParseData_line. unfold tokens in Hline.
  case_decide; [done|].
  destruct (StringSplitWithCommentIgnoreEmpty line [SP; TAB]) as [parts comment].
  by injection Hline as -> ->.
Qed.

(** A text whose lines carry neither a token nor a comment, the empty
    text among them, gives the registry [ParseData] starts from: no line
    reaches a parser. *)
Theorem ParseData_blank dat :
  (∀ line, line ∈ lines_of dat → tokens line = ([], "")) →
  ParseData dat = Some (fst initParser, None).
Proof.
  intros Hlines. unfold ParseData. destruct initParser as [p0 config0].
  rewrite ParseData_loop_blank; [done|]. apply Forall_forall. exact Hlines.
Qed.

End totality.

(** * The results at concrete inputs *)

Module Examples.

Import Demo.

Lemma SectionsDelete_spec_witness :
  SectionsDelete threeSections "nokind" "b1" = (threeSections, Some SectionMissingErr)
  ∧ SectionsDelete threeSections Backends "b3" = (threeSections, None)
  ∧ lookup2 (fst (SectionsDelete threeSections Backends "b1")) Backends "b1" = None.
Proof.
  split; [|split].
  - apply (SectionsDelete_spec threeSections "nokind" "b1"). by vm_compute.
  - apply (SectionsDelete_spec threeSections Backends "b3") with (st := {[ "b1" := 4%nat; "b2" := 5%nat ]});
      by vm_compute.
  - eapply (SectionsDelete_spec threeSections Backends "b1"); by vm_compute.
Defined.

Lemma SectionsDelete_frame_witness :
  lookup2 (fst (SectionsDelete threeSections Backends "b1")) Backends "b2"
    = lookup2 threeSections Backends "b2"
  ∧ heap (fst (SectionsDelete threeSections Backends "b1")) = heap threeSections.
Proof.
  apply (SectionsDelete_frame threeSections Backends "b1" Backends "b2"). discriminate.
Defined.

Lemma HasParser_no_instance_witness :
  Parsers (loaded []) !! Frontends = Some ∅
  ∧ ParserTypes_HasParser (PT:=Directive) getFrontendParser "maxconn" = true
  ∧ (HasParser (loaded []) Frontends "maxconn" false)
  ∧ (HasParser (loaded []) "nokind" "maxconn" false).
Proof.
  split; [by vm_compute|]. split; [by vm_compute|]. split.
  - apply (HasParser_no_instance (loaded []) Frontends "maxconn" false); [|done].
    left. by vm_compute.
  - apply (HasParser_no_instance (loaded []) "nokind" "maxconn" false); [|done].
    right. by vm_compute.
Defined.

Lemma ProcessLine_first_match_witness :
  is_ok (Parse (DMaxConn maxconn0) "maxconn 5" ["maxconn"; "5"] [] "").2 = true
  ∧ ProcessLine twoMaxConn "maxconn 5" ["maxconn"; "5"] [] "" session0
    = Some (mkParser ∅
              {[ 0%nat := mkParserTypes
                            [DSection "global" None;
                             DMaxConn (MaxConn.mkMaxConn 5 true);
                             DMaxConn maxconn0] ]},
            session0).
Proof.
  split; [by vm_compute|].
  rewrite (ProcessLine_first_match twoMaxConn "maxconn 5" ["maxconn"; "5"] [] "" session0
             [DSection "global" None] (DMaxConn maxconn0) [DMaxConn maxconn0]
             (DMaxConn (MaxConn.mkMaxConn 5 true)) "").
  - by vm_compute.
  - by vm_compute.
  - repeat constructor.
  - by vm_compute.
Defined.

Lemma SectionsCreate_twice_witness :
  ∃ p', SectionsCreate (loaded []) Frontends "fe1" = Some (p', None)
        ∧ is_Some (lookup2 p' Frontends "fe1")
        ∧ SectionsCreate p' Frontends "fe1" = Some (p', Some SectionAlreadyExistsErr).
Proof.
  eapply (SectionsCreate_twice (loaded []) Frontends "fe1" ∅ 0%nat).
  - unfold sections. rewrite !elem_of_cons. tauto.
  - by vm_compute.
  - by vm_compute.
  - by vm_compute.
  - by vm_compute.
  - by vm_compute.
Defined.

(** C6 fails for a singleton kind: a section created under [global] is
    not registered, and the second call returns no error either. *)
Lemma SectionsCreate_singleton_counterexample :
  ∃ p1 p2, SectionsCreate (loaded []) Global "second" = Some (p1, None)
           ∧ lookup2 p1 Global "second" = None
           ∧ SectionsCreate p1 Global "second" = Some (p2, None).
Proof.
  eexists _, _. split; [by vm_compute|]. split; by vm_compute.
Qed.

Lemma SectionsDelete_singleton_witness :
  SectionsGet (loaded []) Global = Ok [GlobalSectionName]
  ∧ snd (SectionsDelete (loaded []) Global GlobalSectionName) = None
  ∧ SectionsGet (fst (SectionsDelete (loaded []) Global GlobalSectionName)) Global = Ok []
  ∧ Parser_String (fst (SectionsDelete (loaded []) Global GlobalSectionName)) = None.
Proof.
  apply (SectionsDelete_singleton "" (loaded []) None). by vm_compute.
Defined.

(** C4 fails: the second line makes [MaxConn.Parse] report an error with
    a message, and [ParseData] returns [nil] all the same, having read
    the third line too. *)
Lemma ParseData_malformed_counterexample :
  (Parse (DMaxConn maxconn0) "maxconn abc" ["maxconn"; "abc"] ["global"] "").2
    = Err (ParseErr (mkParseError "SectionName" "maxconn abc"
                       (strconv.NumError_Error
                          (strconv.mkNumError "ParseInt" "abc" strconv.ErrSyntax))))
  ∧ ∃ p, ParseData (text ["global"; "maxconn abc"; "maxconn 7"]) = Some (p, None)
         ∧ head (registered p Global GlobalSectionName)
           = Some (DMaxConn (MaxConn.mkMaxConn 7 true)).
Proof.
  split; [by vm_compute|]. eexists. split; by vm_compute.
Qed.

Lemma Parser_String_format_witness :
  Parser_String threeSections = Some (render threeSections)
  ∧ render threeSections
    = text [""; "global "; "  maxconn 2000"; ""; "frontend fe1 "; "  maxconn 1"; "";
            "frontend fe2 "; "  maxconn 2"; ""; "backend b1 "; "  maxconn 3"].
Proof.
  split; [|by vm_compute].
  apply (Parser_String_format threeSections 0%nat 1%nat 2%nat); by vm_compute.
Defined.

(** C5 fails on the header: the line written for the global singleton is
    the name followed by a space, after a blank line. *)
Lemma Parser_String_header_counterexample :
  Parser_String (loaded ["global"; "maxconn 2000"])
    = Some (text [""; "global "; "  maxconn 2000"])
  ∧ StringSplitIgnoreEmpty (text [""; "global "; "  maxconn 2000"]) [LF]
    = ["global "; "  maxconn 2000"]
  ∧ "global " ≠ "global".
Proof. split; [by vm_compute|]. split; [by vm_compute|]. discriminate. Qed.

Lemma MaxConn_Parse_spec_witness :
  MaxConn.Parse maxconn0 "maxconn 2000" "" "" = (MaxConn.mkMaxConn 2000 true, Ok "")
  ∧ MaxConn.Parse maxconn0 "timeout 5" "" ""
    = (maxconn0, Err (ParseErr (mkParseError "SectionName" "timeout 5" ""))).
Proof.
  split.
  - apply (MaxConn_Parse_spec maxconn0 "maxconn 2000" "" "") with (tok1 := "2000") (rest := []);
      by vm_compute.
  - apply (MaxConn_Parse_spec maxconn0 "timeout 5" "" ""). by vm_compute.
Defined.

(** C7 fails in both directions: a line whose first token is the keyword
    is rejected when no value follows, and nothing is stored; a line
    whose first token only begins with the keyword is accepted. *)
Lemma MaxConn_Parse_counterexample :
  StringSplitIgnoreEmpty "maxconn" [SP] = ["maxconn"]
  ∧ MaxConn.Parse maxconn0 "maxconn" "" ""
    = (maxconn0, Err (ParseErr (mkParseError "SectionName" "maxconn" "Parse error")))
  ∧ StringSplitIgnoreEmpty "maxconnrate 100" [SP] = ["maxconnrate"; "100"]
  ∧ MaxConn.Parse maxconn0 "maxconnrate 100" "" "" = (MaxConn.mkMaxConn 100 true, Ok "").
Proof. repeat split; by vm_compute. Qed.

Lemma ProcessLine_no_match_witness :
  ProcessLine twoMaxConn "timeout 5" ["timeout"; "5"] [] "" session0
  = Some (twoMaxConn, session0).
Proof.
  rewrite (ProcessLine_no_match twoMaxConn "timeout 5" ["timeout"; "5"] [] "" session0).
  - by vm_compute.
  - repeat constructor.
Defined.

Lemma SectionsCreate_other_kind_witness :
  Parsers (loaded []) !! Global = Some {[GlobalSectionName := 2%nat]}
  ∧ ∃ p', SectionsCreate (loaded []) Global "second" = Some (p', None)
          ∧ Parsers p' !! Global = Parsers (loaded []) !! Global.
Proof.
  split; [by vm_compute|]. eexists. split; [by vm_compute|].
  eapply (SectionsCreate_other_kind (loaded []) Global "second").
  - unfold sections. rewrite !not_elem_of_cons.
    repeat (split; [discriminate|]). apply not_elem_of_nil.
  - by vm_compute.
Defined.

End Examples.

(** ** The laws of the round trip for the concrete configuration *)

Module DemoLaws.

Import Demo.

Lemma split_comment_no_hash s :
  Forall (fun c => c ≠ "#"%char) (list_ascii_of_string s) → split_comment s = (s, None).
Proof.
  induction s as [|x s IH]; [done|]. cbn. intros Hs.
  apply Forall_cons in Hs as [Hx Hs].
  destruct (Ascii.eqb_spec x "#"); [done|]. by rewrite IH.
Qed.

Lemma fields_from_token f s sep t :
  s ≠ "" → Forall (fun c => f c = false) (list_ascii_of_string s) → f sep = true →
  strings.fields_from f (s +:+ String sep t) None = s :: strings.fields_from f t None.
Proof.
  intros Hne Hs Hsep. destruct s as [|x s]; [done|].
  change (list_ascii_of_string (String x s)) with (x :: list_ascii_of_string s) in Hs.
  apply Forall_cons in Hs as [Hx Hs].
  rewrite string_app_String. cbn [strings.fields_from]. rewrite Hx.
  rewrite fields_from_no_sep by done. cbn [strings.fields_from]. rewrite Hsep.
  rewrite rev_app_distr, rev_involutive. cbn.
  by rewrite string_of_list_ascii_of_string.
Qed.

Lemma clean_not_sep name :
  clean_demo name → Forall (fun c => is_sep c = false) (list_ascii_of_string name).
Proof.
  intros [_ Hall]. eapply Forall_impl; [exact Hall|]. intros c (Hsp & Htab & _).
  unfold is_sep. cbn.
  destruct (Ascii.eqb_spec c SP); [done|]. by destruct (Ascii.eqb_spec c TAB).
Qed.

Lemma clean_no_hash name :
  clean_demo name → Forall (fun c => c ≠ "#"%char) (list_ascii_of_string name).
Proof.
  intros [_ Hall]. eapply Forall_impl; [exact Hall|]. by intros c (_ & _ & ? & _).
Qed.

(** The tokens of the declaration line of a section. *)
Lemma tokens_declaration kind name :
  kind ∈ sections → clean_demo name →
  tokens ((kind +:+ " " +:+ name) +:+ " ") = ([kind; name], "").
Proof.
  intros Hkind Hclean. unfold tokens. cbn [StringSplitWithCommentIgnoreEmpty Demo_Tokenizer].
  assert (Forall (fun c => is_sep c = false) (list_ascii_of_string kind)
          ∧ Forall (fun c => c ≠ "#"%char) (list_ascii_of_string kind)
          ∧ kind ≠ "") as (Hk1 & Hk2 & Hk3).
  { unfold sections in Hkind.
    repeat (apply elem_of_cons in Hkind as [->|Hkind]);
      [..|by apply elem_of_nil in Hkind].
    all: split; [|split; [|done]]; cbn; repeat constructor; done. }
  rewrite split_comment_no_hash.
  - unfold StringSplitIgnoreEmpty, strings.FieldsFunc. fold is_sep.
    rewrite !string_app_assoc.
    change (" " +:+ name +:+ " ") with (String SP (name +:+ String SP "")).
    rewrite fields_from_token; [|done|done|done].
    rewrite fields_from_token; [|by destruct Hclean|by apply clean_not_sep|done].
    done.
  - rewrite !list_ascii_of_string_app. repeat apply Forall_app_2; try done.
    + by repeat constructor.
    + by apply clean_no_hash.
    + by repeat constructor.
Qed.

Lemma sections_of_names secs :
  GetParserName <$> secs = sectionKinds → Forall is_section secs.
Proof.
  intros Hnames. apply Forall_forall. intros q Hq.
  destruct q as [k d|m]; [done|].
  apply (list_elem_of_fmap_2 GetParserName) in Hq. rewrite Hnames in Hq.
  cbn in Hq. unfold sectionKinds in Hq.
  repeat (apply elem_of_cons in Hq as [Hq|Hq]; [discriminate|]).
  by apply elem_of_nil in Hq.
Qed.

Lemma results_sections secs : Forall is_section secs → results secs = [].
Proof.
  induction 1 as [|q secs Hq _ IH]; [done|]. by destruct q.
Qed.

(** A declaration is taken by the section parser of its kind; the
    parsers before it reject it and stay as they are. *)
Lemma dispatch_sections secs line kind rest prev comment :
  Forall is_section secs → kind ∈ GetParserName <$> secs →
  ∃ secs' a,
    dispatch secs line (kind :: rest) prev comment = (secs', Some (a, kind))
    ∧ GetParserName <$> secs' = GetParserName <$> secs
    ∧ (∀ name rest', rest = name :: rest' → SectionName a = Some name).
Proof.
  induction 1 as [|q secs Hq Hsecs IH]; intros Hin.
  - by apply elem_of_nil in Hin.
  - destruct q as [k d|m]; [|done]. cbn [dispatch Parse Directive_ParserType Directive_Parse].
    destruct (decide (kind = k)) as [->|Hne].
    + eexists _, _. split; [done|]. split; [done|].
      by intros name rest' ->.
    + rewrite fmap_cons in Hin. apply elem_of_cons in Hin as [Heq|Hin]; [done|].
      destruct (IH Hin) as (secs' & a & -> & Hnames & Ha).
      eexists _, _. split; [done|]. split; [|done].
      by rewrite !fmap_cons, Hnames.
Qed.

(** The [maxconn] parsers reject a line that does not begin with the
    keyword, and stay as they are. *)
Lemma dispatch_maxconns ms rest line parts prev comment :
  strings.HasPrefix (String.concat " " parts) "maxconn" = false →
  dispatch ((DMaxConn <$> ms) ++ rest) line parts prev comment
  = ((DMaxConn <$> ms) ++ (dispatch rest line parts prev comment).1,
     (dispatch rest line parts prev comment).2).
Proof.
  intros Hpre. induction ms as [|m ms IH].
  - cbn [fmap list_fmap app]. by destruct (dispatch rest line parts prev comment).
  - rewrite fmap_cons, <- app_comm_cons.
    cbn [dispatch Parse Directive_ParserType Directive_Parse].
    unfold MaxConn.Parse. rewrite Hpre. by rewrite IH.
Qed.

Lemma results_app (ps1 ps2 : list Directive) :
  results (ps1 ++ ps2) = results ps1 ++ results ps2.
Proof. unfold results. apply omap_app. Qed.

(** What a good parser set does with a declaration line. *)
Lemma good_declaration kind0 ps line prev kind rest :
  good_demo kind0 ps → kind ∈ sectionKinds →
  strings.HasPrefix (String.concat " " (kind :: rest)) "maxconn" = false →
  ∃ ps' a,
    dispatch ps line (kind :: rest) prev "" = (ps', Some (a, kind))
    ∧ (∀ name rest', rest = name :: rest' → SectionName a = Some name)
    ∧ good_demo kind0 ps' ∧ results ps' = results ps.
Proof.
  intros (ms & secs & -> & Hnames) Hkind Hpre.
  pose proof (sections_of_names _ Hnames) as Hsecs.
  destruct (dispatch_sections secs line kind rest prev "" Hsecs)
    as (secs' & a & Hd & Hnames' & Ha); [by rewrite Hnames|].
  rewrite dispatch_maxconns, Hd by done. cbn [fst snd].
  eexists _, _. split; [done|]. split; [done|]. split.
  - exists ms, secs'. split; [done|]. by rewrite Hnames'.
  - rewrite !results_app. rewrite (results_sections secs) by done.
    rewrite (results_sections secs'); [done|].
    apply sections_of_names. by rewrite Hnames'.
Qed.

Lemma sections_sectionKinds kind : kind ∈ sections → kind ∈ sectionKinds.
Proof.
  unfold sections, sectionKinds. rewrite !elem_of_cons, !elem_of_nil. tauto.
Qed.

#[global] Instance Demo_RoundTrip : RoundTrip (PT := Directive).
Proof.
  refine {| good := good_demo; clean := clean_demo |}.
  - intros kind F. unfold newParser.
    repeat case_decide; intros [= <-]; (split; [|done]).
    all: first [ by exists [], sectionParsers | by exists [maxconn0], sectionParsers ].
  - intros kind0 ps prev kind name Hgood Hkind Hclean.
    unfold read_line. rewrite decide_False by (by destruct kind).
    rewrite tokens_declaration by done. cbn [length bool_decide decide_rel].
    rewrite bool_decide_eq_false_2 by done.
    destruct (good_declaration kind0 ps ((kind +:+ " " +:+ name) +:+ " ") prev kind [name]
                Hgood (sections_sectionKinds _ Hkind))
      as (ps' & a & Hd & Ha & Hgood' & Hres).
    { unfold sections in Hkind.
      repeat (apply elem_of_cons in Hkind as [->|Hkind]);
        [..|by apply elem_of_nil in Hkind]; done. }
    rewrite Hd. eexists _, _, _. split; [done|]. split; [by eapply Ha|]. done.
  - intros kind0 ps prev kind Hgood Hkind.
    assert (tokens (kind +:+ " ") = ([kind], "")) as Htok.
    { by destruct Hkind as [-> | ->]. }
    unfold read_line. rewrite decide_False by (by destruct Hkind as [-> | ->]).
    rewrite Htok. cbn [length]. rewrite bool_decide_eq_false_2 by done.
    destruct (good_declaration kind0 ps (kind +:+ " ") prev kind [] Hgood)
      as (ps' & a & Hd & Ha & Hgood' & Hres).
    { destruct Hkind as [-> | ->]; unfold sectionKinds; rewrite !elem_of_cons; tauto. }
    { by destruct Hkind as [-> | ->]. }
    rewrite Hd. eexists _, _, _. split; [done|]. done.
  - intros name [_ Hall] Hin.
    apply (proj1 (Forall_forall _ _) Hall) in Hin. tauto.
Defined.

(** ** The round trip of one section of the configuration *)

(** The bytes of the decimal form of a number: digits after an optional
    sign. *)
Lemma fmt_d_chars v :
  Forall (fun c => strconv.is_digit c = true ∨ c = "-"%char)
    (list_ascii_of_string (fmt_d v)).
Proof.
  assert (∀ d, Forall (fun c => strconv.is_digit c = true ∨ c = "-"%char)
                 (list_ascii_of_string (NilEmpty.string_of_uint d))) as Hd.
  { intros d. eapply Forall_impl; [apply string_of_uint_digits|]. by left. }
  destruct v as [|p|p].
  - repeat constructor.
  - by rewrite fmt_d_pos.
  - rewrite fmt_d_neg. constructor; [by right|done].
Qed.

Lemma fmt_d_char_other c x :
  strconv.is_digit c = true ∨ c = "-"%char →
  strconv.is_digit x = false → x ≠ "-"%char → Ascii.eqb c x = false.
Proof.
  intros Hc Hx Hm. apply Ascii.eqb_neq. intros ->.
  destruct Hc as [Hc|Hc]; [by rewrite Hc in Hx|done].
Qed.

Lemma fields_from_skip f c s :
  f c = true → strings.fields_from f (String c s) None = strings.fields_from f s None.
Proof. intros Hc. cbn [strings.fields_from]. by rewrite Hc. Qed.

Lemma MaxConn_Parse_fmt_d (m0 : MaxConn.MaxConn) v wholeLine previousLine :
  - 2 ^ 63 ≤ v < 2 ^ 63 →
  MaxConn.Parse m0 ("maxconn " +:+ fmt_d v) wholeLine previousLine
  = (MaxConn.mkMaxConn v true, Ok "").
Proof.
  intros Hrange.
  destruct (fmt_d_token v) as [Hne Hsp].
  destruct (maxconn_line_tokens _ Hne Hsp) as [Hpre Htok].
  unfold MaxConn.Parse. rewrite Hpre, Htok, ParseInt_fmt_d.
  destruct (Z.leb_spec (- 2 ^ 63) v); [|lia].
  by destruct (Z.ltb_spec v (2 ^ 63)); [|lia].
Qed.

(** The line [String] writes for a [maxconn] value, and its tokens. *)
Lemma maxconn_line v :
  lines_of (("  " +:+ ("maxconn " +:+ fmt_d v)) +:+ nl) = ["  " +:+ ("maxconn " +:+ fmt_d v)]
  ∧ tokens ("  " +:+ ("maxconn " +:+ fmt_d v)) = (["maxconn"; fmt_d v], "").
Proof.
  pose proof (fmt_d_chars v) as Hchars. destruct (fmt_d_token v) as [Hne _].
  split.
  - unfold lines_of, StringSplitIgnoreEmpty, strings.FieldsFunc, nl.
    apply fields_from_token; [done| |done].
    rewrite !list_ascii_of_string_app. repeat apply Forall_app_2.
    + by repeat constructor.
    + by repeat constructor.
    + eapply Forall_impl; [exact Hchars|]. intros c Hc. cbn [existsb].
      by rewrite (fmt_d_char_other c LF Hc).
  - assert (StringSplitIgnoreEmpty ("  " +:+ ("maxconn " +:+ fmt_d v)) [SP; TAB]
            = ["maxconn"; fmt_d v]) as Hsplit.
    { unfold StringSplitIgnoreEmpty, strings.FieldsFunc.
      change ("  " +:+ ("maxconn " +:+ fmt_d v))
        with (String " " (String " " ("maxconn" +:+ String " " (fmt_d v)))).
      rewrite !fields_from_skip by reflexivity.
      rewrite fields_from_token; [|done|by repeat constructor|reflexivity].
      rewrite fields_from_single; [done|done|].
      eapply Forall_impl; [exact Hchars|]. intros c Hc. cbn [existsb].
      by rewrite (fmt_d_char_other c SP Hc), (fmt_d_char_other c TAB Hc). }
    unfold tokens. cbn [StringSplitWithCommentIgnoreEmpty Demo_Tokenizer].
    rewrite split_comment_no_hash, Hsplit; [done|].
    rewrite !list_ascii_of_string_app. repeat apply Forall_app_2.
    + by repeat constructor.
    + by repeat constructor.
    + eapply Forall_impl; [exact Hchars|]. intros c Hc.
      by apply Ascii.eqb_neq, fmt_d_char_other.
Qed.

(** The rosters of the configuration. *)
Lemma newParser_demo kind F :
  newParser kind = Some F → F = plain ∨ (F = withMaxConn ∧ kind ≠ Comments).
Proof.
  unfold newParser. repeat case_decide; intros [= <-]; subst; cbn; auto.
Qed.

Lemma loaded_as_sections secs0 secs :
  Forall is_section secs0 →
  Forall2 (fun q0 q =>
             match q0, q with
             | DMaxConn _, DMaxConn m => - 2 ^ 63 ≤ MaxConn.Value m < 2 ^ 63
             | DSection Name _, DSection Name' _ => Name' = Name
             | _, _ => False
             end) secs0 secs →
  Forall is_section secs.
Proof.
  intros Hsecs0 Hshape. induction Hshape as [|q0 q secs0 secs Hq _ IH]; [done|].
  apply Forall_cons in Hsecs0 as [Hq0 Hsecs0]. constructor; [|by apply IH].
  by destruct q0, q.
Qed.

Lemma sectionParsers_sections : Forall is_section sectionParsers.
Proof. by repeat constructor. Qed.

(** A parser set that renders nothing is read again by every roster. *)
Lemma rereads_nothing kind ps :
  results ps = [] → rereads kind ps.
Proof.
  intros Hres F prev HF. unfold render_body. rewrite Hres.
  exists (parsers F), prev. split; [done|].
  destruct (newParser_good kind F HF) as [Hgood HresF]. by rewrite HresF.
Qed.

(** The section-level round trip of the configuration: a parser set as
    [ParseData] leaves it is read again by the roster of its kind.  The
    one line it can render is the [maxconn] line; the [maxconn] parser
    of a new set takes it and holds the same number. *)
Lemma rereads_loaded kind F ps :
  newParser kind = Some F → loaded_as F ps → rereads kind ps.
Proof.
  intros HF Hshape. unfold loaded_as in Hshape.
  destruct (newParser_demo kind F HF) as [->|[-> Hkind]].
  - apply rereads_nothing, results_sections.
    by eapply loaded_as_sections; [apply sectionParsers_sections|].
  - cbn [parsers withMaxConn] in Hshape.
    apply Forall2_cons_inv_l in Hshape as (q & secs & Hq & Hsecs & ->).
    destruct q as [|m]; [done|].
    pose proof (loaded_as_sections _ _ sectionParsers_sections Hsecs) as Hsec.
    destruct (MaxConn.valid m) eqn:Hvalid.
    + intros F' prev HF'. rewrite HF in HF'. injection HF' as <-.
      assert (results (DMaxConn m :: secs)
              = [[mkLine ("maxconn " +:+ fmt_d (MaxConn.Value m)) ""]]) as Hres.
      { change (DMaxConn m :: secs) with ([DMaxConn m] ++ secs).
        rewrite results_app, (results_sections secs) by done.
        unfold results. cbn. unfold MaxConn.Valid. by rewrite Hvalid. }
      unfold render_body. rewrite Hres.
      assert (indented kind = true) as ->.
      { unfold indented. by rewrite bool_decide_eq_false_2. }
      destruct (maxconn_line (MaxConn.Value m)) as [Hlines Htokens].
      cbn [concat app fmap list_fmap concatStrings foldr]. unfold render_line.
      cbn [Data Comment]. rewrite decide_True by done.
      replace (("  " +:+ ("maxconn " +:+ fmt_d (MaxConn.Value m)) +:+ "" +:+ nl) +:+ "")
        with (("  " +:+ ("maxconn " +:+ fmt_d (MaxConn.Value m))) +:+ nl)
        by (by rewrite string_app_nil_r, !string_app_assoc).
      rewrite Hlines.
      cbn [read_quiet]. unfold read_line.
      rewrite decide_False by done.
      rewrite Htokens.
      cbn [length]. rewrite bool_decide_eq_false_2 by done.
      cbn [parsers withMaxConn dispatch Parse Directive_ParserType Directive_Parse].
      change (String.concat " " ["maxconn"; fmt_d (MaxConn.Value m)])
        with ("maxconn " +:+ fmt_d (MaxConn.Value m)).
      rewrite MaxConn_Parse_fmt_d by done.
      rewrite decide_True by done.
      eexists _, _. split; [done|]. split.
      * by exists [MaxConn.mkMaxConn (MaxConn.Value m) true], sectionParsers.
      * done.
    + apply rereads_nothing.
      change (DMaxConn m :: secs) with ([DMaxConn m] ++ secs).
      rewrite results_app, (results_sections secs) by done.
      unfold results. cbn. unfold MaxConn.Valid. by rewrite Hvalid.
Qed.

End DemoLaws.

Module RoundTripExample.

Import Demo DemoLaws Examples.

Lemma lookup2_registry_keys (p : Parser Directive) k n :
  is_Some (lookup2 p k n) → (k, n) ∈ registry_keys p.
Proof.
  intros [l Hl]. apply lookup2_Some in Hl as (st & Hk & Hn).
  unfold registry_keys. apply list_elem_of_bind. exists (k, st). split.
  - apply list_elem_of_fmap. exists n. split; [done|].
    apply list_elem_of_fmap. exists (n, l). split; [done|].
    by apply elem_of_map_to_list.
  - by apply elem_of_map_to_list.
Qed.

(** A parser set whose lines a new parser set of the kind takes. *)
Ltac reread :=
  let F := fresh "F" in
  let prev := fresh "prev" in
  let HF := fresh "HF" in
  intros F prev HF; vm_compute in HF; injection HF as <-;
  eexists _, _; split; [vm_compute; reflexivity|];
  split; [|vm_compute; reflexivity];
  first [ eexists [_], _; split; [cbn; reflexivity|reflexivity]
        | eexists [], _; split; [cbn; reflexivity|reflexivity] ].

Lemma ParseData_String_round_trip_witness :
  ∃ p',
    ParseData (PT := Directive)
      (text [""; "global "; "  maxconn 2000"; ""; "frontend fe1 "; "  maxconn 1"; "";
             "frontend fe2 "; "  maxconn 2"; ""; "backend b1 "; "  maxconn 3"])
    = Some (p', None)
    ∧ Parser_String p'
      = Some (text [""; "global "; "  maxconn 2000"; ""; "frontend fe1 "; "  maxconn 1";
                    ""; "frontend fe2 "; "  maxconn 2"; ""; "backend b1 "; "  maxconn 3"]).
Proof.
  apply (ParseData_String_round_trip threeSections).
  - by vm_compute.
  - reread.
  - reread.
  - reread.
  - intros kind name Hkind Hreg.
    apply lookup2_registry_keys in Hreg. vm_compute in Hreg.
    repeat (apply elem_of_cons in Hreg as [Hreg|Hreg];
            [injection Hreg as -> ->|]); [..|by apply elem_of_nil in Hreg].
    all: try (exfalso; revert Hkind; unfold sections;
              rewrite !elem_of_cons, elem_of_nil; intuition discriminate).
    all: split; [reread|intros _; split; [done|by repeat constructor]].
Defined.

(** C1 fails for a name that is more than one token.  [SectionsCreate]
    registers the frontend [a b] under the name as it is given, [String]
    writes the name into the header, and [ParseData] reads the header
    back as the declaration of the frontend [a]: the text [String]
    returns for the registry it has built is another one. *)
Lemma ParseData_String_round_trip_counterexample :
  ∃ p1 p2 p3,
    SectionsCreate (loaded []) Frontends "a b" = Some (p1, None)
    ∧ Parser_Set p1 Frontends "a b" "maxconn"
        (5 : @ParserData _ Directive_ParserAccess) [] = (p2, None)
    ∧ Parser_String p2 = Some (text [""; "frontend a b "; "  maxconn 5"])
    ∧ ParseData (text [""; "frontend a b "; "  maxconn 5"]) = Some (p3, None)
    ∧ SectionsGet p3 Frontends = Ok ["a"]
    ∧ Parser_String p3 = Some (text [""; "frontend a "; "  maxconn 5"]).
Proof. eexists _, _, _. repeat split; by vm_compute. Qed.

End RoundTripExample.

(** ** The further properties at concrete inputs *)

Module FurtherExamples.

Import Demo.

Lemma ProcessLine_registry_witness :
  dom (Parsers redeclared.1) = dom (Parsers oneFrontend)
  ∧ (∀ k n, is_Some (lookup2 oneFrontend k n) → is_Some (lookup2 redeclared.1 k n))
  ∧ (Parsers redeclared.1 = Parsers oneFrontend
     ∨ ∃ kind name st l,
         kind ∈ sections ∧ Parsers oneFrontend !! kind = Some st
         ∧ heap oneFrontend !! l = None ∧ l ≠ Active sessionFrontend
         ∧ Active redeclared.2 = l
         ∧ Parsers redeclared.1 = <[kind := <[name := l]> st]> (Parsers oneFrontend)).
Proof.
  apply (ProcessLine_registry oneFrontend "frontend fe1" ["frontend"; "fe1"]
           ["maxconn"; "5"] "" sessionFrontend redeclared.1 redeclared.2).
  by vm_compute.
Defined.

Lemma ProcessLine_frame_witness :
  heap redeclared.1 !! 2%nat = heap oneFrontend !! 2%nat.
Proof.
  apply (ProcessLine_frame oneFrontend "frontend fe1" ["frontend"; "fe1"]
           ["maxconn"; "5"] "" sessionFrontend redeclared.1 redeclared.2 2%nat).
  - by vm_compute.
  - discriminate.
  - vm_compute. by eexists.
Defined.

(** The frontend [fe1] holds [maxconn 5]; declared a second time it is
    registered under a new parser set. *)
Lemma ProcessLine_declaration_witness :
  lookup2 oneFrontend Frontends "fe1" = Some 3%nat
  ∧ ∃ p' config' roster,
      ProcessLine oneFrontend "frontend fe1" ["frontend"; "fe1"] ["maxconn"; "5"] ""
        sessionFrontend = Some (p', config')
      ∧ newParser Frontends = Some roster
      ∧ State config' = Frontends
      ∧ lookup2 p' Frontends "fe1" = Some (Active config')
      ∧ heap p' !! Active config' = Some roster
      ∧ heap oneFrontend !! Active config' = None.
Proof.
  split; [by vm_compute|].
  apply (ProcessLine_declaration oneFrontend "frontend fe1" ["frontend"; "fe1"]
           ["maxconn"; "5"] "" sessionFrontend beforeFrontend (DSection "frontend" None)
           afterFrontend (DSection "frontend" (Some "fe1")) Frontends "fe1"
           {[ "fe1" := 3%nat ]}).
  - by vm_compute.
  - repeat constructor.
  - by vm_compute.
  - unfold sections. rewrite !elem_of_cons. tauto.
  - by vm_compute.
  - by vm_compute.
Defined.

Lemma ProcessLine_retarget_witness :
  ProcessLine oneFrontend "global" ["global"] ["maxconn"; "5"] "" sessionFrontend
  = Some (oneFrontend, set_Active 2%nat (set_State "global" sessionFrontend)).
Proof.
  rewrite (ProcessLine_retarget oneFrontend "global" ["global"] ["maxconn"; "5"] ""
             sessionFrontend
             [DMaxConn (MaxConn.mkMaxConn 5 true); DSection "defaults" None]
             (DSection "global" None)
             (DSection "frontend" None :: afterFrontend)
             (DSection "global" None) "global").
  - by vm_compute.
  - by vm_compute.
  - repeat constructor.
  - by vm_compute.
  - discriminate.
  - unfold sections. rewrite !not_elem_of_cons.
    repeat (split; [discriminate|]). apply not_elem_of_nil.
Defined.

Lemma ParseData_kinds_witness :
  (∀ kind, is_ok (SectionsGet threeSections kind) = true
           ↔ kind ∈ Comments :: Defaults :: Global :: sections)
  ∧ SectionsGet threeSections Comments = Ok [CommentsSectionName]
  ∧ SectionsGet threeSections Defaults = Ok [DefaultSectionName]
  ∧ SectionsGet threeSections Global = Ok [GlobalSectionName].
Proof.
  apply (ParseData_kinds
           (text ["global"; "maxconn 2000"; "frontend fe2"; "maxconn 2"; "backend b1";
                  "maxconn 3"; "backend b2"; "frontend fe1"; "maxconn 1"])
           threeSections None).
  by vm_compute.
Defined.

Lemma Parser_String_closed_witness :
  closed (text [""; "global "; "  maxconn 2000"; ""; "frontend fe1 "; "  maxconn 1"; "";
                "frontend fe2 "; "  maxconn 2"; ""; "backend b1 "; "  maxconn 3"]).
Proof.
  apply (Parser_String_closed threeSections). by vm_compute.
Defined.

Lemma ParseData_then_String_witness :
  Parser_String oneFrontend = Some (render oneFrontend).
Proof.
  apply (ParseData_then_String (text ["frontend fe1"; "maxconn 5"]) oneFrontend None).
  by vm_compute.
Defined.

Lemma SectionsCreate_then_SectionsDelete_witness :
  ∃ p', SectionsCreate (loaded []) Backends "b1" = Some (p', None)
        ∧ snd (SectionsDelete p' Backends "b1") = None
        ∧ Parsers (fst (SectionsDelete p' Backends "b1")) = Parsers (loaded []).
Proof.
  eapply (SectionsCreate_then_SectionsDelete (loaded []) Backends "b1" ∅ 0%nat).
  - unfold sections. rewrite !elem_of_cons. tauto.
  - by vm_compute.
  - by vm_compute.
  - by vm_compute.
  - by vm_compute.
  - by vm_compute.
Defined.

(** No parser of the comments singleton takes the line [# notes]. *)
Lemma SectionsCreate_rejected_witness :
  ∃ p', SectionsCreate (loaded []) Comments "notes" = Some (p', None)
        ∧ Parsers p' = Parsers (loaded [])
        ∧ lookup2 p' Comments "notes" = None.
Proof.
  apply (SectionsCreate_rejected (loaded []) Comments "notes" {[ "data" := 0%nat ]} 0%nat).
  - by vm_compute.
  - by vm_compute.
  - by vm_compute.
  - by vm_compute; repeat constructor.
Defined.

Lemma SectionsCreate_without_Comments_witness :
  snd (SectionsDelete (loaded []) Comments CommentsSectionName) = None
  ∧ SectionsCreate (fst (SectionsDelete (loaded []) Comments CommentsSectionName))
      Frontends "fe1" = None.
Proof.
  apply (SectionsCreate_without_Comments "" (loaded []) None Frontends "fe1").
  - by vm_compute.
  - unfold sections. rewrite !elem_of_cons. tauto.
  - by vm_compute.
Defined.

Lemma MaxConn_String_Parse_witness :
  MaxConn.String_ (MaxConn.mkMaxConn 2000 true) = ["  maxconn 2000"]
  ∧ MaxConn.Parse maxconn0 "maxconn 2000" "" "" = (MaxConn.mkMaxConn 2000 true, Ok "")
  ∧ MaxConn.Parse maxconn0 "  maxconn 2000" "" ""
    = (maxconn0, Err (ParseErr (mkParseError "SectionName" "  maxconn 2000" ""))).
Proof.
  apply (MaxConn_String_Parse (MaxConn.mkMaxConn 2000 true) maxconn0 "" ""). simpl. lia.
Defined.

Lemma MaxConn_Parse_out_of_range_witness :
  MaxConn.Parse maxconn0 "maxconn 9223372036854775808" "" ""
  = (maxconn0,
     Err (ParseErr (mkParseError "SectionName" "maxconn 9223372036854775808"
                      (strconv.NumError_Error
                         (strconv.mkNumError "ParseInt" "9223372036854775808"
                            strconv.ErrRange))))).
Proof.
  apply (MaxConn_Parse_out_of_range maxconn0 (2 ^ 63) "" ""). right. lia.
Defined.

Lemma accessors_missing_section_witness :
  Parser_Get threeSections Backends "b3" "maxconn" [] = (threeSections, Err SectionMissingErr)
  ∧ Parser_GetOne threeSections Backends "b3" "maxconn" [0]
    = (threeSections, Err SectionMissingErr)
  ∧ Parser_Set threeSections Backends "b3" "maxconn" (7 : @ParserData _ Directive_ParserAccess) []
    = (threeSections, Some SectionMissingErr)
  ∧ Parser_Delete threeSections Backends "b3" "maxconn" []
    = (threeSections, Some SectionMissingErr)
  ∧ Parser_Insert threeSections Backends "b3" "maxconn"
      (7 : @ParserData _ Directive_ParserAccess) [0]
    = (threeSections, Some SectionMissingErr).
Proof.
  apply (accessors_missing_section threeSections Backends "b3" "maxconn"
           (7 : @ParserData _ Directive_ParserAccess) [] [0]).
  by vm_compute.
Defined.

(** The defaults singleton of [threeSections] holds no [maxconn]: [get]
    asks its [maxconn] parser, which has no value, and [getOrCreate]
    makes it create one. *)
Lemma get_first_match_witness :
  (∃ p', get threeSections {[ "data" := 1%nat ]} "data" "maxconn"
         = Some (p', Err AttributeNotFoundErr))
  ∧ (∃ p', getOrCreate threeSections {[ "data" := 1%nat ]} "data" "maxconn" true
           = Some (p', Ok (0 : @ParserData _ Directive_ParserAccess))).
Proof.
  destruct (get_first_match threeSections {[ "data" := 1%nat ]} "data" "maxconn" true
              1%nat [] (DMaxConn maxconn0) sectionParsers) as [Hget Hcreate].
  - by vm_compute.
  - by vm_compute.
  - constructor.
  - by vm_compute.
  - split; eexists; [exact Hget|exact Hcreate].
Defined.

Lemma LoadData_error_witness :
  threeSections = threeSections
  ∧ ∃ err, ReadFile noFiles "haproxy.cfg" = inl err
           ∧ inl (B := error) ("no such file or directory" : @ioerror Demo_FileSystem)
             = inl err.
Proof.
  apply (LoadData_error noFiles threeSections "haproxy.cfg" threeSections
           (inl ("no such file or directory" : @ioerror Demo_FileSystem))).
  by vm_compute.
Defined.

Lemma Save_after_ParseData_witness :
  Save noFiles oneFrontend "haproxy.cfg"
  = Some (WriteFile noFiles "haproxy.cfg" (render oneFrontend) 420).
Proof.
  apply (Save_after_ParseData noFiles
           (text ["frontend fe1"; "maxconn 5"]) oneFrontend None "haproxy.cfg").
  by vm_compute.
Defined.

Lemma ParseData_total_witness :
  ∃ p, ParseData (PT := Directive) (text ["frontend fe1"; "maxconn 5"]) = Some (p, None).
Proof.
  apply (ParseData_total (PT := Directive) (text ["frontend fe1"; "maxconn 5"])).
  intros line Hline q prev a kind.
  replace (lines_of (text ["frontend fe1"; "maxconn 5"]))
    with ["frontend fe1"; "maxconn 5"] in Hline by (by vm_compute).
  rewrite !elem_of_cons, elem_of_nil in Hline.
  destruct Hline as [->|[->|[]]]; vm_compute tokens; destruct q as [Name data|m]; simpl.
  - case_decide; intros [= <- <-] _; by eauto.
  - by intros [= <- <-].
  - case_decide; intros [= <- <-] _; by eauto.
  - intros [= <- <-]. unfold sections. rewrite !elem_of_cons, elem_of_nil.
    intuition discriminate.
Defined.

Lemma ParseData_blank_witness :
  ParseData (PT := Directive) (text [""; "   "; String TAB ""]) = Some (fst initParser, None).
Proof.
  apply (ParseData_blank (PT := Directive) (text [""; "   "; String TAB ""])).
  intros line Hline.
  replace (lines_of (text [""; "   "; String TAB ""]))
    with ["   "; String TAB ""] in Hline by (by vm_compute).
  rewrite !elem_of_cons, elem_of_nil in Hline.
  by destruct Hline as [->|[->|[]]].
Defined.

Lemma SectionsGet_names_witness :
  NoDup ["b1"; "b2"]
  ∧ (∀ name, name ∈ ["b1"; "b2"] ↔ is_Some (lookup2 threeSections Backends name))
  ∧ ∃ st, Parsers threeSections !! Backends = Some st
          ∧ length ["b1"; "b2"] = size st.
Proof.
  apply (proj2 (SectionsGet_names threeSections Backends)). by vm_compute.
Defined.

Lemma HasParser_answer_witness :
  HasParser threeSections Global "maxconn" true
  ↔ true = ParserTypes_HasParser (deref threeSections 2%nat) "maxconn".
Proof.
  apply (proj2 (HasParser_answer threeSections Global "maxconn") "data" 2%nat).
  by vm_compute.
Defined.

Lemma accessors_variadic_witness :
  Parser_GetOne threeSections Backends "b1" "maxconn" [-3]
    = Parser_GetOne threeSections Backends "b1" "maxconn" []
  ∧ Parser_Set threeSections Backends "b1" "maxconn"
      (7 : @ParserData _ Directive_ParserAccess) [-3]
    = Parser_Set threeSections Backends "b1" "maxconn" 7 []
  ∧ Parser_Delete threeSections Backends "b1" "maxconn" [-3]
    = Parser_Delete threeSections Backends "b1" "maxconn" []
  ∧ Parser_Insert threeSections Backends "b1" "maxconn"
      (7 : @ParserData _ Directive_ParserAccess) [-3]
    = Parser_Insert threeSections Backends "b1" "maxconn" 7 [].
Proof.
  apply (accessors_variadic threeSections Backends "b1" "maxconn"
           (7 : @ParserData _ Directive_ParserAccess) false [] (-3) []).
  lia.
Defined.

(** The comments singleton of [threeSections] has no [maxconn] parser. *)
Lemma get_not_found_witness :
  get threeSections {[ "data" := 0%nat ]} "data" "maxconn"
    = Some (threeSections, Err AttributeNotFoundErr)
  ∧ getOrCreate threeSections {[ "data" := 0%nat ]} "data" "maxconn" true
    = Some (threeSections, Err AttributeNotFoundErr).
Proof.
  apply (proj2 (get_not_found threeSections {[ "data" := 0%nat ]} "data" "maxconn" true)
           0%nat).
  - by vm_compute.
  - vm_compute. by eexists.
  - vm_compute. repeat constructor; discriminate.
Defined.

Lemma SectionsCreate_frame_witness :
  (∀ k n, is_Some (lookup2 (loaded []) k n) → is_Some (lookup2 created k n))
  ∧ (∀ l, lookup2 (loaded []) Comments CommentsSectionName ≠ Some l →
       is_Some (heap (loaded []) !! l) → heap created !! l = heap (loaded []) !! l).
Proof.
  apply (SectionsCreate_frame (loaded []) Frontends "fe1" created None). by vm_compute.
Defined.

Lemma SectionsDelete_then_String_witness :
  ∃ before after,
    text [""; "global "; "  maxconn 2000"; ""; "frontend fe1 "; "  maxconn 1"; "";
          "frontend fe2 "; "  maxconn 2"; ""; "backend b1 "; "  maxconn 3"]
    = before
      +:+ render_section (Backends +:+ " " +:+ "b1") true
            (registered threeSections Backends "b1")
      +:+ after
    ∧ Parser_String (fst (SectionsDelete threeSections Backends "b1"))
      = Some (before +:+ after).
Proof.
  apply (SectionsDelete_then_String threeSections Backends "b1").
  - unfold sections. rewrite !elem_of_cons. tauto.
  - vm_compute. by eexists.
  - by vm_compute.
Defined.

End FurtherExamples.
